(** * Bootstrap + signaling + rendezvous service: model and verification

    A shallow embedding of the two server files of the repository,

    - [server/bootstrap-signaling/src/rendezvous.js] (module [Rendezvous]),
    - [server/bootstrap-signaling/src/server.js]     (module [Server]),

    preceded by the fragment of JavaScript they rely on (module [JS]):
    parsed JSON values, numbers, truthiness, the coercions [Number(...)]
    and template-literal [ToString], and the insertion-ordered [Map].

    Numbers are doubles: the integers, the fractions with a power of two as
    denominator, the two infinities and [NaN]; a sum is the exact sum
    rounded to the nearest double, ties to the even significand.  The
    counters of the program, which start at zero and go up by one, are
    integers.

    Every handler of the source is a function on an explicit state.  Clock
    readings ([Date.now()], [new Date()]) and the random suffix of a
    generated peer id are arguments of the handler that reads them.  The
    [ws] objects live in a heap and are referred to by address, so that a
    room's [Set] and the listeners share one [readyState] per socket.  What
    the library call [wss.handleUpgrade] makes of a request (it completes
    the handshake, or it aborts it and never runs the connection handler)
    is a field of the request.

    Left out, as they neither read nor write the state: the log lines and
    the CORS headers. *)

From stdpp Require Import gmap strings list fin_maps pretty sorting.

Set Warnings "-register-all".
Set Default Proof Using "Type".
Local Open Scope Z_scope.

(* ===================================================================== *)
(** * The JavaScript fragment                                              *)
(* ===================================================================== *)

Module JS.

(** A JavaScript number: a double.  A finite value is an integer [Num z]
    or, when it is no integer, [Frac n k]: the odd numerator [2 n + 1] over
    [2 ^ k], so that one half is [Frac 0 1], two and a half is [Frac 2 1]
    and a tenth of a thousandth, as a double, is
    [Frac 3689348814741910 66].  The two zeros are one value: the program
    neither divides nor looks at a sign. *)
Inductive jsnum : Type :=
  | NaN
  | NegInf
  | Num (z : Z)
  | Frac (n : Z) (k : positive)
  | PosInf.

Coercion Num : Z >-> jsnum.

(** A value produced by [JSON.parse]; objects are string-keyed maps of own
    properties. *)
Inductive json : Type :=
  | JNull
  | JBool (b : bool)
  | JNum (x : jsnum)
  | JStr (s : string)
  | JArr (l : list json)
  | JObj (m : gmap string json).

(** A possibly-[undefined] value: [None] is [undefined]. *)
Abbreviation jsval := (option json).

(** A finite number is [numer a / 2 ^ expo a]. *)
Definition numer (a : jsnum) : Z :=
  match a with
  | Num z => z
  | Frac n _ => 2 * n + 1
  | _ => 0
  end.

Definition expo (a : jsnum) : Z :=
  match a with
  | Frac _ k => Z.pos k
  | _ => 0
  end.

(** [- a] *)
Definition num_opp (a : jsnum) : jsnum :=
  match a with
  | NaN => NaN
  | NegInf => PosInf
  | Num z => Num (- z)
  | Frac n k => Frac (- n - 1) k
  | PosInf => NegInf
  end.

(** [m / 2 ^ j] as a number, for an integer [m]. *)
Fixpoint norm (m : Z) (j : nat) : jsnum :=
  match j with
  | O => Num m
  | S j' => if Z.even m then norm (m / 2) j' else Frac (m / 2) (Pos.of_succ_nat j')
  end.

(** [n * 2 ^ u] as a number, for integers [n] and [u]. *)
Definition scaled (n u : Z) : jsnum :=
  if 0 <=? u then Num (n * 2 ^ u) else norm n (Z.to_nat (- u)).

(** The integer nearest to [a / 2 ^ s], the even one of the two when [a]
    lies half way, for [0 <= a] and [0 < s]. *)
Definition nearest_even (a s : Z) : Z :=
  let q := a / 2 ^ s in
  let r := a mod 2 ^ s in
  let half := 2 ^ (s - 1) in
  if r <? half then q
  else if half <? r then q + 1
  else if Z.even q then q else q + 1.

(** The double nearest to [a / 2 ^ k] for [0 < a] and [0 <= k], ties to the
    even significand: a significand [n] of at most 53 bits at the exponent
    [u] of the value, which is no smaller than the one of the subnormals;
    from [2 ^ 1024] on the result is [Infinity]. *)
Definition round_pos (a k : Z) : jsnum :=
  let e := Z.log2 a - k in
  let u := Z.max (e - 52) (- 1074) in
  let s := k + u in
  let n := if s <=? 0 then a * 2 ^ (- s) else nearest_even a s in
  if 1024 <=? Z.log2 n + u then PosInf else scaled n u.

(** The double nearest to [m / 2 ^ k]. *)
Definition round (m k : Z) : jsnum :=
  match m with
  | 0 => Num 0
  | Z.pos _ => round_pos m k
  | Z.neg _ => num_opp (round_pos (- m) k)
  end.

(** [a + b]: the exact sum of two finite numbers, rounded. *)
Definition num_add (a b : jsnum) : jsnum :=
  match a, b with
  | NaN, _ | _, NaN => NaN
  | PosInf, NegInf | NegInf, PosInf => NaN
  | PosInf, _ | _, PosInf => PosInf
  | NegInf, _ | _, NegInf => NegInf
  | _, _ => round (numer a * 2 ^ expo b + numer b * 2 ^ expo a) (expo a + expo b)
  end.

(** [now + b] for a reading [now] of [Date.now()], which is an integer of
    magnitude at most 8.64e15.  When [b] is an integer of magnitude at most
    [2 ^ 53 - 8.64e15] the sum is an integer of magnitude at most [2 ^ 53],
    which is a double, so nothing is rounded. *)
Definition clock_add (now : Z) (b : jsnum) : jsnum :=
  match b with
  | Num y => if Z.abs y <=? 367199254740992 then Num (now + y) else num_add (Num now) b
  | _ => num_add (Num now) b
  end.

(** [a <= b]; every comparison with [NaN] is false. *)
Definition num_le (a b : jsnum) : bool :=
  match a, b with
  | NaN, _ | _, NaN => false
  | NegInf, _ => true
  | _, PosInf => true
  | Num x, Num y => x <=? y
  | PosInf, _ | _, NegInf => false
  | _, _ => numer a * 2 ^ expo b <=? numer b * 2 ^ expo a
  end.

(** [a < b] *)
Definition num_lt (a b : jsnum) : bool :=
  match a, b with
  | NaN, _ | _, NaN => false
  | PosInf, _ => false
  | _, NegInf => false
  | Num x, Num y => x <? y
  | NegInf, _ | _, PosInf => true
  | _, _ => numer a * 2 ^ expo b <? numer b * 2 ^ expo a
  end.

(** [a > b] and [a >= b] are [b < a] and [b <= a]. *)
Definition num_gt (a b : jsnum) : bool := num_lt b a.
Definition num_ge (a b : jsnum) : bool := num_le b a.

(** [a === b] on numbers, and the SameValueZero of two numbers, which also
    takes [NaN] for itself. *)
Definition num_eqb (a b : jsnum) : bool :=
  match a, b with
  | NegInf, NegInf | PosInf, PosInf => true
  | Num x, Num y => x =? y
  | Frac n k, Frac n' k' => (n =? n') && (k =? k')%positive
  | _, _ => false
  end.

Definition num_same (a b : jsnum) : bool :=
  match a, b with
  | NaN, NaN => true
  | _, _ => num_eqb a b
  end.

(** The integral part of a finite number, as [ToIntegerOrInfinity] takes
    it. *)
Definition trunc (a : jsnum) : Z := Z.quot (numer a) (2 ^ expo a).

(** [ToBoolean]: what [!v], [v || d] and [if (v)] test. *)
Definition truthy (v : json) : bool :=
  match v with
  | JNull => false
  | JBool b => b
  | JNum (Num 0) | JNum NaN => false
  | JNum _ => true
  | JStr s => negb (String.eqb s "")
  | JArr _ | JObj _ => true
  end.

(** [v || d] for a possibly-undefined [v]. *)
Definition or_else (v : jsval) (d : json) : json :=
  match v with
  | Some x => if truthy x then x else d
  | None => d
  end.

(** [s || d] on strings: the empty string is falsy. *)
Definition str_or (s : string) (d : string) : string :=
  if String.eqb s "" then d else s.

(** [v === 'literal'] for a possibly-undefined [v] and a string literal. *)
Definition strict_eq_str (v : jsval) (literal : string) : bool :=
  match v with
  | Some (JStr s) => String.eqb s literal
  | _ => false
  end.

(** [v.k] for a parsed value [v] other than [null] (on [null] the access
    throws, which each caller handles).  The program reads only property
    names that no built-in prototype defines, so a primitive or an array
    yields [undefined] and an object yields its own property. *)
Definition get_prop (v : json) (k : string) : jsval :=
  match v with
  | JObj m => m !! k
  | _ => None
  end.

(** The built-ins of Node.js and ECMAScript that the program calls and that
    are not part of the repository. *)
Class Runtime : Type := {
  (** [createHash('sha256').update(t).digest('hex')] *)
  sha256_hex : string → string;
  (** [JSON.parse]; [None] is a thrown [SyntaxError] *)
  JSON_parse : string → option json;
  JSON_stringify : json → string;
  (** [new Date(t).toISOString()] for a clock reading [t] *)
  toISOString : Z → string;
  (** [Number::toString] *)
  Number_toString : jsnum → string;
  (** [StringToNumber] *)
  StringToNumber : string → jsnum;
  (** [ToPrimitive] followed by [ToString] / [ToNumber] on an array or an
      object; [None] is a thrown [TypeError] *)
  Object_toString : json → option string;
  Object_toNumber : json → option jsnum;
  (** [String.prototype.trim] *)
  trim : string → string;
  (** the code units of a string, each as a one-unit string *)
  code_units : string → list string
}.

Section Coercions.
Context `{Runtime}.

(** [ToString], as a template literal applies it. *)
Definition ToString (v : json) : option string :=
  match v with
  | JNull => Some "null"%string
  | JBool true => Some "true"%string
  | JBool false => Some "false"%string
  | JNum x => Some (Number_toString x)
  | JStr s => Some s
  | JArr _ | JObj _ => Object_toString v
  end.

(** [Number(v)] *)
Definition Number (v : json) : option jsnum :=
  match v with
  | JNull => Some (Num 0)
  | JBool b => Some (Num (if b then 1 else 0))
  | JNum x => Some x
  | JStr s => Some (StringToNumber s)
  | JArr _ | JObj _ => Object_toNumber v
  end.

(** The own enumerable properties that [{...v}] copies. *)
Definition own_props (v : json) : gmap string json :=
  match v with
  | JObj m => m
  | JArr l => list_to_map (imap (λ i x, (pretty i, x)) l)
  | JStr s => list_to_map (imap (λ i c, (pretty i, JStr c)) (code_units s))
  | JNull | JBool _ | JNum _ => ∅
  end.
End Coercions.

(** ** [Map]: insertion-ordered, keys compared with SameValueZero *)

(** SameValueZero between a key being looked up and a stored key.  Every
    key the program uses is either a primitive or an array/object fresh out
    of [JSON.parse]; a fresh object is identical to no stored key. *)
Definition same_value_zero (a b : jsval) : bool :=
  match a, b with
  | None, None => true
  | Some JNull, Some JNull => true
  | Some (JBool x), Some (JBool y) => Bool.eqb x y
  | Some (JNum x), Some (JNum y) => num_same x y
  | Some (JStr x), Some (JStr y) => String.eqb x y
  | _, _ => false
  end.

Abbreviation jsmap V := (list (jsval * V)).

Section JsMap.
Context {V : Type}.

(** [m.get(k)] *)
Fixpoint map_get (k : jsval) (m : jsmap V) : option V :=
  match m with
  | [] => None
  | (k', v) :: m' => if same_value_zero k' k then Some v else map_get k m'
  end.

(** [m.set(k, v)]: an existing key keeps its position. *)
Fixpoint map_set (k : jsval) (v : V) (m : jsmap V) : jsmap V :=
  match m with
  | [] => [(k, v)]
  | (k', v') :: m' =>
      if same_value_zero k' k then (k', v) :: m'
      else (k', v') :: map_set k v m'
  end.

(** [m.delete(k)], with the boolean it returns. *)
Fixpoint map_delete (k : jsval) (m : jsmap V) : bool * jsmap V :=
  match m with
  | [] => (false, [])
  | (k', v') :: m' =>
      if same_value_zero k' k then (true, m')
      else let '(b, m'') := map_delete k m' in (b, (k', v') :: m'')
  end.

(** [[...m.values()]] *)
Definition map_values (m : jsmap V) : list V := m.*2.
End JsMap.

(** [arr.slice(0, limit)]: the limit is taken as an integer, [z] below, and
    a negative one counts from the end. *)
Definition slice_to {A : Type} (z : Z) (l : list A) : list A :=
  if z <? 0 then take (Z.to_nat (Z.of_nat (length l) + z)) l
  else take (Z.to_nat z) l.

Definition slice0 {A : Type} (limit : jsnum) (l : list A) : list A :=
  match limit with
  | NaN | NegInf => []
  | PosInf => l
  | Num z => slice_to z l
  | Frac _ _ => slice_to (trunc limit) l
  end.

End JS.

(* ===================================================================== *)
(** * rendezvous.js                                                        *)
(* ===================================================================== *)

Module Rendezvous.
Import JS.

(** The object literal stored by [register]. *)
Record record : Type := {
  peerId : jsval;
  namespace : json;
  room : json;
  addresses : json;
  metadata : json;
  seenAt : Z;
  expiresAt : jsnum
}.

(** [this.rooms]: room key to the room's [Map] from peer id to record. *)
Abbreviation registry := (gmap string (jsmap record)).

(** [new RendezvousRegistry()] *)
Definition empty : registry := ∅.

(** [arr.sort((a, b) => b.seenAt - a.seenAt)]: the stable sort by
    descending [seenAt]. *)
Fixpoint insert_desc (x : record) (l : list record) : list record :=
  match l with
  | [] => [x]
  | y :: l' => if seenAt x <? seenAt y then y :: insert_desc x l' else x :: l
  end.

Definition sort_desc (l : list record) : list record :=
  foldr insert_desc [] l.

(** [record.expiresAt <= now] *)
Definition expired (now : Z) (r : record) : bool :=
  num_le (expiresAt r) (Num now).

Section Registry.
Context `{Runtime}.

(** [`${namespace}::${room}`] *)
Definition roomKey (namespace room : json) : option string :=
  ns ← ToString namespace;
  rm ← ToString room;
  Some (ns +:+ "::" +:+ rm).

(** [register({ namespace, room, peerId, addresses = [], ttlMs = 60_000,
    metadata = {} })] at clock reading [now]; [None] when the room key
    cannot be formed.  The result carries the record that
    [roomMap.get(peerId)] returns, which is the one just stored. *)
Definition register (reg : registry) (namespace room : json) (peerId : jsval)
    (addresses : jsval) (ttlMs : option jsnum) (metadata : jsval) (now : Z)
    : option (registry * record) :=
  key ← roomKey namespace room;
  let expiresAt := clock_add now (default (Num 60000) ttlMs) in
  let roomMap := default [] (reg !! key) in
  let stored := {| peerId := peerId;
                   namespace := namespace;
                   room := room;
                   addresses := default (JArr []) addresses;
                   metadata := default (JObj ∅) metadata;
                   seenAt := now;
                   expiresAt := expiresAt |} in
  Some (<[key := map_set peerId stored roomMap]> reg, stored).

(** [pruneExpired(now = Date.now())] *)
Definition pruneExpired (reg : registry) (now : Z) : registry :=
  omap (λ roomMap : jsmap record,
          let kept := filter (λ e, negb (expired now e.2)) roomMap in
          match kept with
          | [] => None
          | _ => Some kept
          end) reg.

(** [discover({ namespace, room, limit = 32 })] at clock reading [now];
    the registry it leaves is the pruned one. *)
Definition discover (reg : registry) (namespace room : json)
    (limit : option jsnum) (now : Z) : option (registry * list record) :=
  let reg' := pruneExpired reg now in
  key ← roomKey namespace room;
  match reg' !! key with
  | None => Some (reg', [])
  | Some roomMap =>
      Some (reg', slice0 (default (Num 32) limit) (sort_desc (map_values roomMap)))
  end.

(** [removePeer({ namespace, room, peerId })] *)
Definition removePeer (reg : registry) (namespace room : json) (peerId : jsval)
    : option (registry * bool) :=
  key ← roomKey namespace room;
  match reg !! key with
  | None => Some (reg, false)
  | Some roomMap =>
      let '(removed, roomMap') := map_delete peerId roomMap in
      match roomMap' with
      | [] => Some (delete key reg, removed)
      | _ => Some (<[key := roomMap']> reg, removed)
      end
  end.
End Registry.

End Rendezvous.

(* ===================================================================== *)
(** * server.js                                                            *)
(* ===================================================================== *)

Module Server.
Import JS.

(** ** Configuration and state *)

(** The environment-derived constants.  The two limits are
    [Number(process.env.X || default)], hence any number. *)
Record config : Type := {
  SHARED_TOKEN_HASH : string;
  MAX_MESSAGES_PER_MINUTE : jsnum;
  MAX_CONNECTIONS_PER_IP : jsnum
}.

(** The constants when the environment sets none of them. *)
Definition default_config : config :=
  {| SHARED_TOKEN_HASH := "";
     MAX_MESSAGES_PER_MINUTE := Num 300;
     MAX_CONNECTIONS_PER_IP := Num 12 |}.

(** [ws.readyState] *)
Inductive ready_state : Type := CONNECTING | OPEN | CLOSING | CLOSED.

Definition is_open (r : ready_state) : bool :=
  match r with OPEN => true | _ => false end.

Definition is_closed (r : ready_state) : bool :=
  match r with CLOSED => true | _ => false end.

(** A [ws] object: the three properties the connection handler assigns,
    the [clientIp] its closures capture, and the library's [readyState].
    Objects live in the heap [sockets] and are referred to by address. *)
Record socket : Type := {
  ws_peerId : string;
  ws_namespace : string;
  ws_room : string;
  ws_clientIp : string;
  readyState : ready_state
}.

(** A session is live from its creation until its socket is [CLOSED]. *)
Definition is_live (w : socket) : bool := negb (is_closed (readyState w)).

(** The [metrics] object. *)
Record metrics_t : Type := {
  wsConnectionsTotal : Z;
  wsActiveConnections : Z;
  wsMessagesTotal : Z;
  wsAuthFailuresTotal : Z;
  wsRateLimitedTotal : Z;
  relayUsageTotal : Z;
  iceState : jsmap Z;
  failureReason : jsmap Z;
  byRegionCarrier : jsmap Z
}.

(** An entry of [rateLimitByIp]. *)
Record bucket : Type := { windowStart : Z; count : Z }.

(** The module-level state.  A [Set] of sockets is the list of their
    addresses in insertion order. *)
Record state : Type := {
  rooms : gmap string (list nat);
  peers : gmap string nat;
  rendezvous : Rendezvous.registry;
  metrics : metrics_t;
  rateLimitByIp : gmap string bucket;
  connectionsByIp : gmap string Z;
  sockets : gmap nat socket;
  allocated : nat
}.

Definition initial_metrics : metrics_t :=
  {| wsConnectionsTotal := 0; wsActiveConnections := 0; wsMessagesTotal := 0;
     wsAuthFailuresTotal := 0; wsRateLimitedTotal := 0; relayUsageTotal := 0;
     iceState := []; failureReason := []; byRegionCarrier := [] |}.

(** The state when the module has been loaded. *)
Definition initial : state :=
  {| rooms := ∅; peers := ∅; rendezvous := Rendezvous.empty;
     metrics := initial_metrics; rateLimitByIp := ∅; connectionsByIp := ∅;
     sockets := ∅; allocated := 0 |}.

(** Field updates. *)
Definition set_rooms (f : gmap string (list nat) → gmap string (list nat)) (st : state) : state :=
  {| rooms := f (rooms st); peers := peers st; rendezvous := rendezvous st;
     metrics := metrics st; rateLimitByIp := rateLimitByIp st;
     connectionsByIp := connectionsByIp st; sockets := sockets st;
     allocated := allocated st |}.

Definition set_peers (f : gmap string nat → gmap string nat) (st : state) : state :=
  {| rooms := rooms st; peers := f (peers st); rendezvous := rendezvous st;
     metrics := metrics st; rateLimitByIp := rateLimitByIp st;
     connectionsByIp := connectionsByIp st; sockets := sockets st;
     allocated := allocated st |}.

Definition set_rendezvous (r : Rendezvous.registry) (st : state) : state :=
  {| rooms := rooms st; peers := peers st; rendezvous := r;
     metrics := metrics st; rateLimitByIp := rateLimitByIp st;
     connectionsByIp := connectionsByIp st; sockets := sockets st;
     allocated := allocated st |}.

Definition set_metrics (f : metrics_t → metrics_t) (st : state) : state :=
  {| rooms := rooms st; peers := peers st; rendezvous := rendezvous st;
     metrics := f (metrics st); rateLimitByIp := rateLimitByIp st;
     connectionsByIp := connectionsByIp st; sockets := sockets st;
     allocated := allocated st |}.

Definition set_rateLimitByIp (f : gmap string bucket → gmap string bucket) (st : state) : state :=
  {| rooms := rooms st; peers := peers st; rendezvous := rendezvous st;
     metrics := metrics st; rateLimitByIp := f (rateLimitByIp st);
     connectionsByIp := connectionsByIp st; sockets := sockets st;
     allocated := allocated st |}.

Definition set_connectionsByIp (f : gmap string Z → gmap string Z) (st : state) : state :=
  {| rooms := rooms st; peers := peers st; rendezvous := rendezvous st;
     metrics := metrics st; rateLimitByIp := rateLimitByIp st;
     connectionsByIp := f (connectionsByIp st); sockets := sockets st;
     allocated := allocated st |}.

Definition set_sockets (f : gmap nat socket → gmap nat socket) (st : state) : state :=
  {| rooms := rooms st; peers := peers st; rendezvous := rendezvous st;
     metrics := metrics st; rateLimitByIp := rateLimitByIp st;
     connectionsByIp := connectionsByIp st; sockets := f (sockets st);
     allocated := allocated st |}.

Definition set_allocated (n : nat) (st : state) : state :=
  {| rooms := rooms st; peers := peers st; rendezvous := rendezvous st;
     metrics := metrics st; rateLimitByIp := rateLimitByIp st;
     connectionsByIp := connectionsByIp st; sockets := sockets st;
     allocated := n |}.

(** [metrics.wsConnectionsTotal += 1; metrics.wsActiveConnections += 1] *)
Definition count_connection (m : metrics_t) : metrics_t :=
  {| wsConnectionsTotal := wsConnectionsTotal m + 1;
     wsActiveConnections := wsActiveConnections m + 1;
     wsMessagesTotal := wsMessagesTotal m;
     wsAuthFailuresTotal := wsAuthFailuresTotal m;
     wsRateLimitedTotal := wsRateLimitedTotal m;
     relayUsageTotal := relayUsageTotal m;
     iceState := iceState m; failureReason := failureReason m;
     byRegionCarrier := byRegionCarrier m |}.

(** [metrics.wsActiveConnections = Math.max(0, metrics.wsActiveConnections - 1)] *)
Definition uncount_connection (m : metrics_t) : metrics_t :=
  {| wsConnectionsTotal := wsConnectionsTotal m;
     wsActiveConnections := Z.max 0 (wsActiveConnections m - 1);
     wsMessagesTotal := wsMessagesTotal m;
     wsAuthFailuresTotal := wsAuthFailuresTotal m;
     wsRateLimitedTotal := wsRateLimitedTotal m;
     relayUsageTotal := relayUsageTotal m;
     iceState := iceState m; failureReason := failureReason m;
     byRegionCarrier := byRegionCarrier m |}.

(** [metrics.wsMessagesTotal += 1] *)
Definition count_message (m : metrics_t) : metrics_t :=
  {| wsConnectionsTotal := wsConnectionsTotal m;
     wsActiveConnections := wsActiveConnections m;
     wsMessagesTotal := wsMessagesTotal m + 1;
     wsAuthFailuresTotal := wsAuthFailuresTotal m;
     wsRateLimitedTotal := wsRateLimitedTotal m;
     relayUsageTotal := relayUsageTotal m;
     iceState := iceState m; failureReason := failureReason m;
     byRegionCarrier := byRegionCarrier m |}.

(** [metrics.wsAuthFailuresTotal += 1] *)
Definition count_auth_failure (m : metrics_t) : metrics_t :=
  {| wsConnectionsTotal := wsConnectionsTotal m;
     wsActiveConnections := wsActiveConnections m;
     wsMessagesTotal := wsMessagesTotal m;
     wsAuthFailuresTotal := wsAuthFailuresTotal m + 1;
     wsRateLimitedTotal := wsRateLimitedTotal m;
     relayUsageTotal := relayUsageTotal m;
     iceState := iceState m; failureReason := failureReason m;
     byRegionCarrier := byRegionCarrier m |}.

(** [metrics.wsRateLimitedTotal += 1] *)
Definition count_rate_limited (m : metrics_t) : metrics_t :=
  {| wsConnectionsTotal := wsConnectionsTotal m;
     wsActiveConnections := wsActiveConnections m;
     wsMessagesTotal := wsMessagesTotal m;
     wsAuthFailuresTotal := wsAuthFailuresTotal m;
     wsRateLimitedTotal := wsRateLimitedTotal m + 1;
     relayUsageTotal := relayUsageTotal m;
     iceState := iceState m; failureReason := failureReason m;
     byRegionCarrier := byRegionCarrier m |}.

(** [metrics.relayUsageTotal += 1] *)
Definition count_relay_usage (m : metrics_t) : metrics_t :=
  {| wsConnectionsTotal := wsConnectionsTotal m;
     wsActiveConnections := wsActiveConnections m;
     wsMessagesTotal := wsMessagesTotal m;
     wsAuthFailuresTotal := wsAuthFailuresTotal m;
     wsRateLimitedTotal := wsRateLimitedTotal m;
     relayUsageTotal := relayUsageTotal m + 1;
     iceState := iceState m; failureReason := failureReason m;
     byRegionCarrier := byRegionCarrier m |}.

(** [metricMapInc(map, key, value = 1)] *)
Definition metricMapInc (map : jsmap Z) (key : json) (value : Z) : jsmap Z :=
  map_set (Some key) (default 0 (map_get (Some key) map) + value) map.

Definition inc_iceState (key : json) (m : metrics_t) : metrics_t :=
  {| wsConnectionsTotal := wsConnectionsTotal m;
     wsActiveConnections := wsActiveConnections m;
     wsMessagesTotal := wsMessagesTotal m;
     wsAuthFailuresTotal := wsAuthFailuresTotal m;
     wsRateLimitedTotal := wsRateLimitedTotal m;
     relayUsageTotal := relayUsageTotal m;
     iceState := metricMapInc (iceState m) key 1;
     failureReason := failureReason m;
     byRegionCarrier := byRegionCarrier m |}.

Definition inc_failureReason (key : json) (m : metrics_t) : metrics_t :=
  {| wsConnectionsTotal := wsConnectionsTotal m;
     wsActiveConnections := wsActiveConnections m;
     wsMessagesTotal := wsMessagesTotal m;
     wsAuthFailuresTotal := wsAuthFailuresTotal m;
     wsRateLimitedTotal := wsRateLimitedTotal m;
     relayUsageTotal := relayUsageTotal m;
     iceState := iceState m;
     failureReason := metricMapInc (failureReason m) key 1;
     byRegionCarrier := byRegionCarrier m |}.

Definition inc_byRegionCarrier (key : json) (m : metrics_t) : metrics_t :=
  {| wsConnectionsTotal := wsConnectionsTotal m;
     wsActiveConnections := wsActiveConnections m;
     wsMessagesTotal := wsMessagesTotal m;
     wsAuthFailuresTotal := wsAuthFailuresTotal m;
     wsRateLimitedTotal := wsRateLimitedTotal m;
     relayUsageTotal := relayUsageTotal m;
     iceState := iceState m;
     failureReason := failureReason m;
     byRegionCarrier := metricMapInc (byRegionCarrier m) key 1 |}.

(** ** Requests *)

(** What [wss.handleUpgrade] makes of a request: it completes the
    handshake and calls back with the new socket; or it answers with a
    status (405 to a method other than GET, 400 to a bad [Upgrade],
    [Sec-WebSocket-Key], subprotocol or extension header, 426 to a version
    other than 8 and 13) and does not call back; or it destroys a socket
    that is no longer readable and writable, and does not call back. *)
Inductive handshake_t : Type :=
  | Well_formed
  | Malformed (status : Z)
  | Unusable.

(** An incoming HTTP request: the parsed [request.url], the headers and
    socket fields the handlers read, and what the library makes of the
    request as a handshake. *)
Record request : Type := {
  pathname : string;
  searchParams : list (string * string);
  authorization : option string;
  x_forwarded_for : option string;
  remoteAddress : option string;
  handshake : handshake_t
}.

(** [url.searchParams.get(name)]: the first value, or [null]. *)
Fixpoint searchParams_get (name : string) (ps : list (string * string)) : option string :=
  match ps with
  | [] => None
  | (k, v) :: ps' => if String.eqb k name then Some v else searchParams_get name ps'
  end.

(** [url.searchParams.get(name) || d] *)
Definition param_or (req : request) (name d : string) : string :=
  str_or (default "" (searchParams_get name (searchParams req))) d.

(** The character [,] (code 44). *)
Definition comma : Ascii.ascii := Ascii.ascii_of_nat 44.

(** [s.split(',')[0]] *)
Fixpoint before_comma (s : string) : string :=
  match s with
  | EmptyString => EmptyString
  | String c s' => if Ascii.eqb c comma then EmptyString else String c (before_comma s')
  end.

(** [s.slice(n)] *)
Definition slice_from (n : nat) (s : string) : string :=
  String.substring n (String.length s - n) s.

(** The double quote (code 34), the colon (code 58), the backslash
    (code 92) and the line feed (code 10). *)
Definition quote : Ascii.ascii := Ascii.ascii_of_nat 34.
Definition colon : Ascii.ascii := Ascii.ascii_of_nat 58.
Definition backslash : Ascii.ascii := Ascii.ascii_of_nat 92.
Definition line_feed : Ascii.ascii := Ascii.ascii_of_nat 10.

(** [s.replaceAll(quote, backslash + quote)]: a backslash goes before every
    double quote. *)
Fixpoint escape_quotes (s : string) : string :=
  match s with
  | EmptyString => EmptyString
  | String c s' =>
      if Ascii.eqb c quote then String backslash (String quote (escape_quotes s'))
      else String c (escape_quotes s')
  end.

(** [s.split('::')]: the pieces between the occurrences of [::], found from
    the left; [piece] is the piece being read, latest character first. *)
Fixpoint split_colons (piece : list Ascii.ascii) (s : string) : list string :=
  match s with
  | EmptyString => [String.string_of_list_ascii (rev piece)]
  | String c s' =>
      match s' with
      | String c' s'' =>
          if Ascii.eqb c colon && Ascii.eqb c' colon
          then String.string_of_list_ascii (rev piece) :: split_colons [] s''
          else split_colons (c :: piece) s'
      | EmptyString => split_colons (c :: piece) s'
      end
  end.

(** [arr.join(sep)] on an array of strings *)
Definition join (sep : string) (l : list string) : string :=
  match l with
  | [] => EmptyString
  | x :: l' => foldl (λ acc y, acc +:+ sep +:+ y) x l'
  end.

(** [Buffer.from(s, 'utf8')] *)
Definition Buffer_from (s : string) : list Ascii.ascii := String.list_ascii_of_string s.

(** [timingSafeEqual(a, b)] on buffers of equal length: the differences of
    all byte pairs are accumulated, and the result is whether none was
    found. *)
Definition timingSafeEqual (a b : list Ascii.ascii) : bool :=
  N.eqb (foldl (λ acc xy, N.lor acc (N.lxor (Ascii.N_of_ascii xy.1) (Ascii.N_of_ascii xy.2)))
               0%N (zip a b)) 0%N.

(** A frame handed to [ws.send]: the socket and the text. *)
Definition frame : Type := nat * string.

(** ** The functions of the file *)

Section Handlers.
Context `{Runtime}.
Variable cfg : config.

(** [nowIso()] at clock reading [t] *)
Definition nowIso (t : Z) : string := toISOString t.

(** [hashToken(token)] *)
Definition hashToken (token : string) : string := sha256_hex token.

(** [validateToken(rawToken)] *)
Definition validateToken (rawToken : string) : bool :=
  if String.eqb (SHARED_TOKEN_HASH cfg) "" then true
  else if String.eqb rawToken "" then false
  else
    let hashed := hashToken rawToken in
    let a := Buffer_from hashed in
    let b := Buffer_from (SHARED_TOKEN_HASH cfg) in
    if negb (length a =? length b)%nat then false
    else timingSafeEqual a b.

(** [parseAuthToken(request)] *)
Definition parseAuthToken (req : request) : string :=
  let auth := str_or (default "" (authorization req)) "" in
  if String.prefix "Bearer " auth then trim (slice_from 7 auth)
  else str_or (default "" (searchParams_get "token" (searchParams req))) "".

(** [ipOf(request)] *)
Definition ipOf (req : request) : string :=
  match x_forwarded_for req with
  | Some forwarded =>
      if (0 <? String.length forwarded)%nat then trim (before_comma forwarded)
      else str_or (default "" (remoteAddress req)) "unknown"
  | None => str_or (default "" (remoteAddress req)) "unknown"
  end.

(** [allowMessage(ip)] at clock reading [now] *)
Definition allowMessage (st : state) (ip : string) (now : Z) : bool * state :=
  let reset := match rateLimitByIp st !! ip with
               | None => true
               | Some b => windowStart b + 60000 <=? now
               end in
  let b := if reset then {| windowStart := now; count := 0 |}
           else default {| windowStart := now; count := 0 |} (rateLimitByIp st !! ip) in
  let st1 := if reset then set_rateLimitByIp (<[ip := b]>) st else st in
  if num_ge (Num (count b)) (MAX_MESSAGES_PER_MINUTE cfg) then
    (false, set_metrics count_rate_limited st1)
  else
    (true, set_rateLimitByIp
             (<[ip := {| windowStart := windowStart b; count := count b + 1 |}]>) st1).

(** [allowConnection(ip)] *)
Definition allowConnection (st : state) (ip : string) : bool * state :=
  let next := default 0 (connectionsByIp st !! ip) + 1 in
  if num_gt (Num next) (MAX_CONNECTIONS_PER_IP cfg) then
    (false, set_metrics count_rate_limited st)
  else
    (true, set_connectionsByIp (<[ip := next]>) st).

(** [decrementConnection(ip)] *)
Definition decrementConnection (st : state) (ip : string) : state :=
  let current := match connectionsByIp st !! ip with
                 | Some v => if v =? 0 then 1 else v
                 | None => 1
                 end in
  let value := current - 1 in
  if value <=? 0 then set_connectionsByIp (delete ip) st
  else set_connectionsByIp (<[ip := value]>) st.

(** [roomKey(namespace, room)] *)
Definition roomKey (namespace room : string) : string :=
  namespace +:+ "::" +:+ room.

(** [ensureRoom(namespace, room)]: the state in which the room exists;
    the [Set] it returns is the one then stored under the key. *)
Definition ensureRoom (st : state) (namespace room : string) : state :=
  let key := roomKey namespace room in
  match rooms st !! key with
  | Some _ => st
  | None => set_rooms (<[key := []]>) st
  end.

(** [set.add(ws)] *)
Definition set_add (ws : nat) (members : list nat) : list nat :=
  if bool_decide (ws ∈ members) then members else members ++ [ws].

(** [set.delete(ws)] *)
Definition set_delete (ws : nat) (members : list nat) : list nat :=
  filter (λ x, x ≠ ws) members.

(** The test of the loop in [relayToRoom]: the member is not skipped. *)
Definition relay_target (st : state) (senderId : string) (ws : nat) : bool :=
  match sockets st !! ws with
  | Some w => negb (negb (is_open (readyState w)) || String.eqb (ws_peerId w) senderId)
  | None => false
  end.

(** [relayToRoom({ namespace, room, senderId, payload })]: the frames sent,
    in order. *)
Definition relayToRoom (st : state) (namespace room senderId : string) (payload : json)
    : list frame :=
  match rooms st !! roomKey namespace room with
  | None => []
  | Some members =>
      (λ ws, (ws, JSON_stringify payload)) <$> filter (λ ws, relay_target st senderId ws) members
  end.

(** *** The metrics text *)

(** [String(v)] for a possibly-undefined [v]; [None] is a thrown
    [TypeError]. *)
Definition String_of (v : jsval) : option string :=
  match v with
  | None => Some "undefined"%string
  | Some x => ToString x
  end.

(** [formatPromMetric(name, value, labels = null)]; [labels] is [null] or
    the entries of the object literal passed, in order.  [None] is an
    exception thrown by [String(v)]. *)
Definition formatPromMetric (name : string) (value : Z)
    (labels : option (list (string * jsval))) : option string :=
  match labels with
  | None => Some (name +:+ " " +:+ Number_toString value)
  | Some entries =>
      parts ← mapM (λ kv : string * jsval,
                      v ← String_of kv.2;
                      Some (kv.1 +:+ "=" +:+ String quote (escape_quotes v)
                                 +:+ String quote EmptyString)) entries;
      Some (name +:+ "{" +:+ join "," parts +:+ "} " +:+ Number_toString value)
  end.

(** The line of one entry of [metrics.byRegionCarrier]:
    [const [region, carrier] = key.split('::')] and the call of
    [formatPromMetric]; a key that is no string has no [split]. *)
Definition region_carrier_line (kv : jsval * Z) : option string :=
  match kv.1 with
  | Some (JStr key) =>
      let parts := split_colons [] key in
      formatPromMetric "bs_region_carrier_total" kv.2
        (Some [("region"%string, JStr <$> parts !! 0%nat);
               ("carrier"%string, JStr <$> parts !! 1%nat)])
  | _ => None
  end.

(** [renderMetrics()] *)
Definition renderMetrics (st : state) : option string :=
  let m := metrics st in
  connections ← formatPromMetric "bs_ws_connections_total" (wsConnectionsTotal m) None;
  active ← formatPromMetric "bs_ws_active_connections" (wsActiveConnections m) None;
  messages ← formatPromMetric "bs_ws_messages_total" (wsMessagesTotal m) None;
  auth_failures ← formatPromMetric "bs_ws_auth_failures_total" (wsAuthFailuresTotal m) None;
  rate_limited ← formatPromMetric "bs_ws_rate_limited_total" (wsRateLimitedTotal m) None;
  relay_usage ← formatPromMetric "bs_relay_usage_total" (relayUsageTotal m) None;
  let lines :=
    ["# HELP bs_ws_connections_total Total websocket connections since start";
     "# TYPE bs_ws_connections_total counter";
     connections;
     "# HELP bs_ws_active_connections Current active websocket connections";
     "# TYPE bs_ws_active_connections gauge";
     active;
     "# HELP bs_ws_messages_total Total websocket messages processed";
     "# TYPE bs_ws_messages_total counter";
     messages;
     "# HELP bs_ws_auth_failures_total Rejected websocket auth attempts";
     "# TYPE bs_ws_auth_failures_total counter";
     auth_failures;
     "# HELP bs_ws_rate_limited_total Rejected messages/connections by rate limiting";
     "# TYPE bs_ws_rate_limited_total counter";
     rate_limited;
     "# HELP bs_relay_usage_total Total sessions that reported TURN relay usage";
     "# TYPE bs_relay_usage_total counter";
     relay_usage]%string in
  ice ← mapM (λ kv : jsval * Z,
                formatPromMetric "bs_ice_state_total" kv.2
                  (Some [("ice_state"%string, kv.1)])) (iceState m);
  reasons ← mapM (λ kv : jsval * Z,
                    formatPromMetric "bs_failure_reason_total" kv.2
                      (Some [("reason"%string, kv.1)])) (failureReason m);
  regions ← mapM region_carrier_line (byRegionCarrier m);
  Some (join (String line_feed EmptyString) (lines ++ ice ++ reasons ++ regions)
        +:+ String line_feed EmptyString).

(** *** [wss.on('connection', ...)] and the per-socket listeners *)

(** The object literal [{ type: 'error', code }] *)
Definition error_envelope (code : string) : json :=
  JObj (<["code" := JStr code]> (<["type" := JStr "error"]> ∅)).

(** The object literal [{ type: 'welcome', peerId, namespace, room, now: nowIso() }] *)
Definition welcome_envelope (peerId namespace room : string) (t : Z) : json :=
  JObj (<["now" := JStr (nowIso t)]> (<["room" := JStr room]>
       (<["namespace" := JStr namespace]> (<["peerId" := JStr peerId]>
       (<["type" := JStr "welcome"]> ∅))))).

(** The object literal [{ type: 'heartbeat-ack', now: nowIso() }] *)
Definition heartbeat_ack (t : Z) : json :=
  JObj (<["now" := JStr (nowIso t)]> (<["type" := JStr "heartbeat-ack"]> ∅)).

(** The object literal
    [{ ...message, sourcePeerId: peerId, namespace, room, receivedAt: nowIso() }] *)
Definition relayPayload (message : json) (peerId namespace room : string) (t : Z)
    : gmap string json :=
  <["receivedAt" := JStr (nowIso t)]> (<["room" := JStr room]>
  (<["namespace" := JStr namespace]> (<["sourcePeerId" := JStr peerId]>
  (own_props message)))).

(** The connection handler up to the registration of its listeners, for the
    socket the library has just created; [t_register] is the clock reading
    inside [rendezvous.register] and [t_welcome] the one of the welcome
    frame.  Returns the socket's address and the frame sent. *)
Definition on_connection (st : state) (namespace room clientIp peerId : string)
    (t_register t_welcome : Z) : state * nat * list frame :=
  let ws := allocated st in
  let w := {| ws_peerId := peerId; ws_namespace := namespace; ws_room := room;
              ws_clientIp := clientIp; readyState := OPEN |} in
  let st := set_allocated (S ws) (set_sockets (<[ws := w]>) st) in
  let st := ensureRoom st namespace room in
  let st := set_rooms (alter (set_add ws) (roomKey namespace room)) st in
  let st := set_peers (<[peerId := ws]>) st in
  let st := set_metrics count_connection st in
  let st :=
    match Rendezvous.register (rendezvous st) (JStr namespace) (JStr room)
            (Some (JStr peerId)) (Some (JArr [JStr clientIp])) (Some (Num 60000))
            (Some (JObj (<["transport" := JStr "websocket"]> ∅))) t_register with
    | Some (reg, _) => set_rendezvous reg st
    | None => st
    end in
  (st, ws, [(ws, JSON_stringify (welcome_envelope peerId namespace room t_welcome))]).

(** What a listener did: it returned, or an exception escaped it.  Either
    way the state reached and the frames sent so far are recorded. *)
Inductive outcome : Type :=
  | Done (st : state) (out : list frame)
  | Thrown (st : state) (out : list frame).

Definition jsval_truthy (v : jsval) : bool :=
  match v with Some x => truthy x | None => false end.

(** The [telemetry] branch of the message listener. *)
Definition on_telemetry (st : state) (message : json) : outcome :=
  let iceState := or_else (get_prop message "iceState") (JStr "unknown") in
  let st := set_metrics (inc_iceState iceState) st in
  let st := match get_prop message "failureReason" with
            | Some r => if truthy r then set_metrics (inc_failureReason r) st else st
            | None => st
            end in
  let st := if jsval_truthy (get_prop message "relayUsed")
            then set_metrics count_relay_usage st else st in
  if jsval_truthy (get_prop message "region") || jsval_truthy (get_prop message "carrier") then
    match ToString (or_else (get_prop message "region") (JStr "unknown")),
          ToString (or_else (get_prop message "carrier") (JStr "unknown")) with
    | Some region, Some carrier =>
        Done (set_metrics (inc_byRegionCarrier (JStr (region +:+ "::" +:+ carrier))) st) []
    | _, _ => Thrown st []
    end
  else Done st [].

(** [ws.on('message', (raw) => ...)] for the socket at address [ws];
    [t_rate] is the clock reading inside [allowMessage] and [t_stamp] the one
    of the [nowIso()] call the listener makes. *)
Definition on_message (st : state) (ws : nat) (raw : string) (t_rate t_stamp : Z) : outcome :=
  match sockets st !! ws with
  | None => Done st []
  | Some w =>
      let '(allowed, st) := allowMessage st (ws_clientIp w) t_rate in
      if negb allowed then Done st [(ws, JSON_stringify (error_envelope "rate_limited"))]
      else
        let st := set_metrics count_message st in
        match JSON_parse raw with
        | None => Done st [(ws, JSON_stringify (error_envelope "invalid_json"))]
        | Some JNull => Thrown st []
        | Some message =>
            if strict_eq_str (get_prop message "type") "heartbeat" then
              Done st [(ws, JSON_stringify (heartbeat_ack t_stamp))]
            else if strict_eq_str (get_prop message "type") "telemetry" then
              on_telemetry st message
            else
              Done st (relayToRoom st (ws_namespace w) (ws_room w) (ws_peerId w)
                         (JObj (relayPayload message (ws_peerId w) (ws_namespace w)
                                  (ws_room w) t_stamp)))
        end
  end.

(** [ws.on('close', () => ...)] for the socket at address [ws] *)
Definition on_close (st : state) (ws : nat) : state :=
  match sockets st !! ws with
  | None => st
  | Some w =>
      let key := roomKey (ws_namespace w) (ws_room w) in
      let st :=
        match rooms st !! key with
        | Some members =>
            let members := set_delete ws members in
            match members with
            | [] => set_rooms (delete key) st
            | _ => set_rooms (<[key := members]>) st
            end
        | None => st
        end in
      let st := set_peers (delete (ws_peerId w)) st in
      let st :=
        match Rendezvous.removePeer (rendezvous st) (JStr (ws_namespace w))
                (JStr (ws_room w)) (Some (JStr (ws_peerId w))) with
        | Some (reg, _) => set_rendezvous reg st
        | None => st
        end in
      let st := decrementConnection st (ws_clientIp w) in
      set_metrics uncount_connection st
  end.

(** *** [server.on('upgrade', ...)] *)

(** How an upgrade request ended: refused with an HTTP status, by the
    listener or by the library; dropped by the library without an answer;
    or upgraded to the socket at the given address, with the frames sent to
    it. *)
Inductive upgrade_result : Type :=
  | Refused (status : Z)
  | Dropped
  | Upgraded (ws : nat) (out : list frame).

(** The upgrade listener.  Its last statement is [wss.handleUpgrade], which
    runs the connection handler only when it completes the handshake.
    [t_id] and [rnd] are the clock reading and the random digits of a
    generated peer id. *)
Definition on_upgrade (st : state) (req : request) (t_id : Z) (rnd : string)
    (t_register t_welcome : Z) : state * upgrade_result :=
  if negb (String.eqb (pathname req) "/signal") then (st, Refused 404)
  else
    let clientIp := ipOf req in
    let '(ok, st) := allowConnection st clientIp in
    if negb ok then (st, Refused 429)
    else
      let token := parseAuthToken req in
      if negb (validateToken token) then
        (set_metrics count_auth_failure st, Refused 401)
      else
        match handshake req with
        | Malformed status => (st, Refused status)
        | Unusable => (st, Dropped)
        | Well_formed =>
            let namespace := param_or req "namespace" "global" in
            let room := param_or req "room" "public" in
            let peerId := param_or req "peerId"
                            ("peer-" +:+ Number_toString t_id +:+ "-" +:+ rnd) in
            let '(st, ws, out) := on_connection st namespace room clientIp peerId
                                    t_register t_welcome in
            (st, Upgraded ws out)
        end.

(** *** The rendezvous routes of [http.createServer(...)] *)

Inductive http_response : Type :=
  | Ok_record (r : Rendezvous.record)
  | Ok_peers (namespace room : string) (peers : list Rendezvous.record)
  | Bad_request
  | Unauthorized.

(** [parseJsonBody(req)] on the collected body text; [None] is a rejected
    promise. *)
Definition parseJsonBody (raw : string) : option json :=
  if String.eqb raw "" then Some (JObj ∅) else JSON_parse raw.

(** [Number(body.ttlMs || 60_000)] *)
Definition ttlMs_of (body : json) : option jsnum :=
  Number (or_else (get_prop body "ttlMs") (JNum 60000)).

(** The [try] block of the [POST /rendezvous/register] route for a parsed
    body: the call of [rendezvous.register]; [None] when an exception is
    thrown (reading a property of [null], or a failed coercion). *)
Definition register_body (reg : Rendezvous.registry) (body : json) (now : Z)
    : option (Rendezvous.registry * Rendezvous.record) :=
  match body with
  | JNull => None
  | _ =>
      ttlMs ← ttlMs_of body;
      Rendezvous.register reg
        (or_else (get_prop body "namespace") (JStr "global"))
        (or_else (get_prop body "room") (JStr "public"))
        (get_prop body "peerId")
        (Some (or_else (get_prop body "addresses") (JArr [])))
        (Some ttlMs)
        (Some (or_else (get_prop body "metadata") (JObj ∅)))
        now
  end.

(** The [POST /rendezvous/register] route; [raw] is the request body and
    [now] the clock reading inside [rendezvous.register]. *)
Definition rendezvous_register (st : state) (req : request) (raw : string) (now : Z)
    : state * http_response :=
  let token := parseAuthToken req in
  if negb (validateToken token) then
    (set_metrics count_auth_failure st, Unauthorized)
  else
    match parseJsonBody raw ≫= (λ body, register_body (rendezvous st) body now) with
    | Some (reg, record) => (set_rendezvous reg st, Ok_record record)
    | None => (st, Bad_request)
    end.

(** The [GET /rendezvous/discover] route; [limit] is
    [Number(url.searchParams.get('limit') || 32)]. *)
Definition rendezvous_discover (st : state) (req : request) (now : Z)
    : state * http_response :=
  let namespace := param_or req "namespace" "global" in
  let room := param_or req "room" "public" in
  let limit := match searchParams_get "limit" (searchParams req) with
               | Some s => if String.eqb s "" then Num 32 else StringToNumber s
               | None => Num 32
               end in
  match Rendezvous.discover (rendezvous st) (JStr namespace) (JStr room) (Some limit) now with
  | Some (reg, records) => (set_rendezvous reg st, Ok_peers namespace room records)
  | None => (st, Bad_request)
  end.

(** *** The request handler of [http.createServer(...)] *)

(** The object the [GET /bootstrap] route serialises; the last argument is
    [process.env.PUBLIC_SIGNALING_URL]. *)
Definition bootstrap_body (st : state) (req : request)
    (PUBLIC_SIGNALING_URL : option string) : json :=
  let namespace := param_or req "namespace" "global" in
  let room := param_or req "room" "public" in
  let key := roomKey namespace room in
  let peersInRoom := length (default [] (rooms st !! key)) in
  JObj (<["signalingUrl" :=
            JStr (str_or (default "" PUBLIC_SIGNALING_URL) "wss://example.com/signal")]>
       (<["peers" := JNum (Z.of_nat peersInRoom)]>
       (<["room" := JStr room]> (<["namespace" := JStr namespace]> ∅)))).

(** What the handler answers: 204 with no body; 200 with
    [{ ok: true, now }]; 200 with the metrics text; 200 with the bootstrap
    object; the answer of a rendezvous route; 404; or nothing, when an
    exception escapes the handler. *)
Inductive reply : Type :=
  | No_content
  | Health (now : string)
  | Metrics (text : string)
  | Bootstrap (body : json)
  | Rendezvous_reply (r : http_response)
  | Not_found
  | Failed.

(** The status code written, if any. *)
Definition status_of (r : reply) : option Z :=
  match r with
  | No_content => Some 204
  | Health _ | Metrics _ | Bootstrap _ => Some 200
  | Rendezvous_reply (Ok_record _) | Rendezvous_reply (Ok_peers _ _ _) => Some 200
  | Rendezvous_reply Bad_request => Some 400
  | Rendezvous_reply Unauthorized => Some 401
  | Not_found => Some 404
  | Failed => None
  end.

(** The handler, for a request with the given method and body text; [t] is
    the clock reading of the route taken. *)
Definition on_request (st : state) (method : string) (req : request) (raw : string)
    (t : Z) (PUBLIC_SIGNALING_URL : option string) : state * reply :=
  if String.eqb method "OPTIONS" then (st, No_content)
  else if String.eqb (pathname req) "/health" then (st, Health (nowIso t))
  else if String.eqb (pathname req) "/metrics" then
    (st, match renderMetrics st with Some text => Metrics text | None => Failed end)
  else if String.eqb (pathname req) "/bootstrap" && String.eqb method "GET" then
    (st, Bootstrap (bootstrap_body st req PUBLIC_SIGNALING_URL))
  else if String.eqb (pathname req) "/rendezvous/register" && String.eqb method "POST" then
    let '(st, r) := rendezvous_register st req raw t in (st, Rendezvous_reply r)
  else if String.eqb (pathname req) "/rendezvous/discover" && String.eqb method "GET" then
    let '(st, r) := rendezvous_discover st req t in (st, Rendezvous_reply r)
  else (st, Not_found).

(** ** The server as a transition system *)

(** What the event loop delivers. *)
Inductive event : Type :=
  | Upgrade (req : request) (t_id : Z) (rnd : string) (t_register t_welcome : Z)
  | Message (ws : nat) (raw : string) (t_rate t_stamp : Z)
  | Closing (ws : nat)
  | Close (ws : nat)
  | PostRegister (req : request) (raw : string) (now : Z)
  | GetDiscover (req : request) (now : Z)
  | PruneTick (now : Z).

(** The library changes [ws.readyState] of the socket at address [ws]. *)
Definition set_readyState (ws : nat) (r : ready_state) (st : state) : state :=
  set_sockets (alter (λ w, {| ws_peerId := ws_peerId w; ws_namespace := ws_namespace w;
                              ws_room := ws_room w; ws_clientIp := ws_clientIp w;
                              readyState := r |}) ws) st.

(** One event.  [Closing ws] is the start of the closing handshake of a
    socket; a socket emits ['close'] once, when it reaches [CLOSED], and
    emits nothing afterwards; an exception that escapes a listener ends the
    process ([None]). *)
Definition step (st : state) (ev : event) : option state :=
  match ev with
  | Upgrade req t_id rnd t_register t_welcome =>
      Some (on_upgrade st req t_id rnd t_register t_welcome).1
  | Message ws raw t_rate t_stamp =>
      match sockets st !! ws with
      | Some w =>
          match readyState w with
          | CLOSED => Some st
          | _ => match on_message st ws raw t_rate t_stamp with
                 | Done st' _ => Some st'
                 | Thrown _ _ => None
                 end
          end
      | None => Some st
      end
  | Closing ws =>
      match sockets st !! ws with
      | Some w =>
          match readyState w with
          | CLOSED => Some st
          | _ => Some (set_readyState ws CLOSING st)
          end
      | None => Some st
      end
  | Close ws =>
      match sockets st !! ws with
      | Some w =>
          match readyState w with
          | CLOSED => Some st
          | _ => Some (on_close (set_readyState ws CLOSED st) ws)
          end
      | None => Some st
      end
  | PostRegister req raw now => Some (rendezvous_register st req raw now).1
  | GetDiscover req now => Some (rendezvous_discover st req now).1
  | PruneTick now =>
      Some (set_rendezvous (Rendezvous.pruneExpired (rendezvous st) now) st)
  end.

(** A sequence of events from a state. *)
Fixpoint run (st : state) (evs : list event) : option state :=
  match evs with
  | [] => Some st
  | ev :: evs' => step st ev ≫= (λ st', run st' evs')
  end.

End Handlers.

End Server.

(* ===================================================================== *)
(** * Vocabulary of the statements                                         *)
(* ===================================================================== *)

Import JS.

(** Runtimes for closed examples: every built-in is a fixed function, and
    [JSON.parse] is the given one.  [StringToNumber] reads a non-empty
    string of decimal digits as its value and anything else as [NaN].  The
    theorems hold for all runtimes; the examples need one. *)
Definition digit_value (c : Ascii.ascii) : option Z :=
  let n := Z.of_N (Ascii.N_of_ascii c) in
  if (48 <=? n) && (n <=? 57) then Some (n - 48) else None.

Fixpoint decimal_value (acc : Z) (s : string) : option Z :=
  match s with
  | EmptyString => Some acc
  | String c s' =>
      match digit_value c with
      | Some d => decimal_value (10 * acc + d) s'
      | None => None
      end
  end.

(** A number as text: an integer in decimal, and another finite number by
    its integral part and the digits of its decimal expansion, which ends
    since the denominator is a power of two. *)
Definition demo_Number_toString (x : jsnum) : string :=
  match x with
  | NaN => "NaN"%string
  | NegInf => "-Infinity"%string
  | PosInf => "Infinity"%string
  | Num z => pretty z
  | Frac _ k =>
      let a := Z.abs (numer x) in
      let digits := pretty (a mod 2 ^ Z.pos k * 5 ^ Z.pos k) in
      let zeros := replicate (Pos.to_nat k - String.length digits)%nat "0"%string in
      let sign := if numer x <? 0 then "-"%string else ""%string in
      sign +:+ pretty (a / 2 ^ Z.pos k) +:+ "." +:+ String.concat "" zeros +:+ digits
  end.

Definition demo_StringToNumber (s : string) : jsnum :=
  if String.eqb s "" then Num 0
  else match decimal_value 0 s with Some z => Num z | None => NaN end.

Definition runtime_parsing (parse : string → option json) : Runtime :=
  {| sha256_hex := λ s, ("h:" +:+ s)%string;
     JSON_parse := parse;
     JSON_stringify := λ _, "{}"%string;
     toISOString := λ _, "1970-01-01T00:00:00.000Z"%string;
     Number_toString := demo_Number_toString;
     StringToNumber := demo_StringToNumber;
     Object_toString := λ _, Some "[object Object]"%string;
     Object_toNumber := λ _, Some NaN;
     trim := λ s, s;
     code_units := λ _, [] |}.

(** The runtime that reads every text as the given value. *)
Definition runtime_reading (v : json) : Runtime := runtime_parsing (λ _, Some v).

(** The runtime whose parser reads a frame [t] as the object
    [{ type: t, sourcePeerId: 'forged' }]. *)
Definition demo_runtime : Runtime :=
  runtime_parsing (λ s, Some (JObj (<["sourcePeerId" := JStr "forged"]>
                                   (<["type" := JStr s]> ∅)))).

(** A number other than [NaN] and the infinities. *)
Definition is_finite (a : jsnum) : Prop :=
  match a with
  | Num _ | Frac _ _ => True
  | _ => False
  end.

(** A parsed message that the listener relays: it is not [null] and its
    [type] is neither ['heartbeat'] nor ['telemetry']. *)
Definition relayed (message : json) : Prop :=
  message ≠ JNull
  ∧ get_prop message "type" ≠ Some (JStr "heartbeat")
  ∧ get_prop message "type" ≠ Some (JStr "telemetry").

(** ** The message window, in the specification's words

    Per address: a fixed window of 60 s, which resets when
    [now ≥ window_start + 60_000], and the number [M] of messages the
    address has sent in it, refused ones included.  The [(M+1)]-th message
    is rejected iff [M ≥ max]. *)

Record spec_window : Type := { window_start : Z; messages : Z }.

(** The window in force for a message that arrives at [now]. *)
Definition spec_current (prev : option spec_window) (now : Z) : spec_window :=
  match prev with
  | Some w => if window_start w + 60000 <=? now
              then {| window_start := now; messages := 0 |} else w
  | None => {| window_start := now; messages := 0 |}
  end.

(** [M], the messages already in the window when one arrives at [now]. *)
Definition spec_M (prev : option spec_window) (now : Z) : Z :=
  messages (spec_current prev now).

(** The window once the message that arrived at [now] has been counted. *)
Definition spec_count (prev : option spec_window) (now : Z) : option spec_window :=
  Some {| window_start := window_start (spec_current prev now);
          messages := spec_M prev now + 1 |}.

(** The window of an address after its messages at the given times. *)
Definition spec_run (prev : option spec_window) (times : list Z) : option spec_window :=
  foldl spec_count prev times.

(** A sequence of [allowMessage] calls, each for an address at a clock
    reading, and the arrival times of one address among them. *)
Definition allowMessage_run (cfg : Server.config) (st : Server.state)
    (calls : list (string * Z)) : Server.state :=
  foldl (λ st call, (Server.allowMessage cfg st call.1 call.2).2) st calls.

Definition times_of (ip : string) (calls : list (string * Z)) : list Z :=
  (filter (λ call, call.1 = ip) calls).*2.

(** The call of [allowMessage] that an event makes: a frame received on a
    socket that is not closed makes one, for the client address of the
    socket at the clock reading [t_rate]; no other event makes one. *)
Definition call_of (st : Server.state) (ev : Server.event) : list (string * Z) :=
  match ev with
  | Server.Message ws _ t_rate _ =>
      match Server.sockets st !! ws with
      | Some w => if Server.is_live w then [(Server.ws_clientIp w, t_rate)] else []
      | None => []
      end
  | _ => []
  end.

(** The calls of [allowMessage] made along a run, in order. *)
Fixpoint calls_of `{Runtime} (cfg : Server.config) (st : Server.state)
    (evs : list Server.event) : list (string * Z) :=
  match evs with
  | [] => []
  | ev :: evs' =>
      call_of st ev ++ match Server.step cfg st ev with
                       | Some st' => calls_of cfg st' evs'
                       | None => []
                       end
  end.

(** A stored bucket agrees with the specification's window: same start,
    and the stored count, which stops growing at the first refusal, either
    is [M] or has reached the limit. *)
Definition bucket_agrees (cfg : Server.config) (b : option Server.bucket)
    (w : option spec_window) : Prop :=
  match b, w with
  | None, None => True
  | Some b, Some w =>
      Server.windowStart b = window_start w
      ∧ 0 ≤ Server.count b ≤ messages w
      ∧ (Server.count b = messages w
         ∨ num_ge (Num (Server.count b)) (Server.MAX_MESSAGES_PER_MINUTE cfg) = true)
  | _, _ => False
  end.

(** ** Registry states *)

(** No two keys of a [Map] are the same value. *)
Fixpoint distinct_keys {V : Type} (m : jsmap V) : Prop :=
  match m with
  | [] => True
  | (k, _) :: m' => map_get k m' = None ∧ distinct_keys m'
  end.

(** The entries of a [Map] under the string key [p]. *)
Definition entries_of {V : Type} (p : string) (m : jsmap V) : jsmap V :=
  filter (λ e, same_value_zero e.1 (Some (JStr p))) m.

(** How many of the records are records of the peer [p]. *)
Definition count_peer (p : string) (l : list Rendezvous.record) : nat :=
  length (filter (λ r, same_value_zero (Rendezvous.peerId r) (Some (JStr p))) l).

(** The limit of a [discover] call does not cut a list of [n] records:
    it is [Infinity], or a number that is at least [n] (32 by default). *)
Definition limit_covers (limit : option jsnum) (n : nat) : Prop :=
  match default (Num 32) limit with
  | PosInf => True
  | Num z => Z.of_nat n ≤ z
  | Frac _ _ as x => Z.of_nat n ≤ trunc x
  | NaN | NegInf => False
  end.


(** A room of the registry as the methods leave it: not empty, keys
    distinct, each record stored under its own peer id. *)
Definition room_ok (roomMap : jsmap Rendezvous.record) : Prop :=
  roomMap ≠ []
  ∧ distinct_keys roomMap
  ∧ Forall (λ e, Rendezvous.peerId e.2 = e.1) roomMap.

Definition registry_ok (reg : Rendezvous.registry) : Prop :=
  map_Forall (λ _ roomMap, room_ok roomMap) reg.

(** Every record of the registry satisfies [P]. *)
Definition all_records (P : Rendezvous.record → Prop) (reg : Rendezvous.registry) : Prop :=
  map_Forall (λ _ roomMap, Forall (λ e : jsval * Rendezvous.record, P e.2) roomMap) reg.

(** What one event of the server may do to the registry: nothing, a
    [register] whose time to live and clock reading satisfy [T], a
    [removePeer], or a [pruneExpired]. *)
Inductive registry_op `{Runtime} (T : jsnum → Z → Prop)
    : Rendezvous.registry → Rendezvous.registry → Prop :=
  | op_none reg : registry_op T reg reg
  | op_register reg namespace room peerId addresses ttlMs metadata now reg' r :
      T (default (Num 60000) ttlMs) now →
      Rendezvous.register reg namespace room peerId addresses ttlMs metadata now
      = Some (reg', r) →
      registry_op T reg reg'
  | op_removePeer reg namespace room peerId reg' removed :
      Rendezvous.removePeer reg namespace room peerId = Some (reg', removed) →
      registry_op T reg reg'
  | op_pruneExpired reg now :
      registry_op T reg (Rendezvous.pruneExpired reg now).

(** The times to live an event may hand to [register], with the clock
    reading of the call: 60 000 at the handshake, and
    [Number(body.ttlMs || 60_000)] for a POST. *)
Definition ttl_of_event `{Runtime} (ev : Server.event) (ttl : jsnum) (now : Z) : Prop :=
  match ev with
  | Server.Upgrade _ _ _ t_register _ => ttl = Num 60000 ∧ now = t_register
  | Server.PostRegister _ raw t =>
      now = t
      ∧ ∃ body, Server.parseJsonBody raw = Some body ∧ Server.ttlMs_of body = Some ttl
  | _ => False
  end.

(** [expiresAt > seenAt] *)
Definition expires_after_seen (r : Rendezvous.record) : Prop :=
  num_gt (Rendezvous.expiresAt r) (Num (Rendezvous.seenAt r)) = true.

(** A reading of [Date.now()] on a clock that is set after 1970: a number
    of milliseconds that is at most 8.64e15, the largest time value. *)
Definition clock_reading (t : Z) : Prop := 0 ≤ t ≤ 8640000000000000.

(** A time to live that puts the expiry after the registration at [now]:
    a whole number of milliseconds from 1 to [2 ^ 53 - 8.64e15], or any
    number that is at least 1 when [now] is a reading of the clock. *)
Definition lasting (ttl : jsnum) (now : Z) : Prop :=
  (∃ z, ttl = Num z ∧ 0 < z ≤ 367199254740992)
  ∨ (clock_reading now ∧ num_ge ttl (Num 1) = true).

(** ** The connection counters *)

(** The sum of [f] over the values of a map. *)
Definition sum_over {K V : Type} `{Countable K} (f : V → Z) (m : gmap K V) : Z :=
  map_fold (λ _ v acc, acc + f v) 0 m.

(** The number of members, summed over all rooms. *)
Definition total_members (st : Server.state) : Z :=
  sum_over (λ members : list nat, Z.of_nat (length members)) (Server.rooms st).

(** The sum of the per-address connection counters. *)
Definition total_connections (st : Server.state) : Z :=
  sum_over (λ n : Z, n) (Server.connectionsByIp st).

(** The number of live sessions. *)
Definition live_total (st : Server.state) : Z :=
  sum_over (λ w, if Server.is_live w then 1 else 0) (Server.sockets st).

(** The number of live sessions whose client address is [addr]. *)
Definition live_at (st : Server.state) (addr : string) : Z :=
  sum_over (λ w, if Server.is_live w && String.eqb (Server.ws_clientIp w) addr
                 then 1 else 0) (Server.sockets st).

(** The specification's invariant: the members of all rooms, the
    [active_connections] gauge and the connection counters all add up to
    the number of live sessions, and the counter of an address is the number
    of its live sessions, with no entry when that is zero. *)
Definition counters_agree (st : Server.state) : Prop :=
  total_members st = live_total st
  ∧ Server.wsActiveConnections (Server.metrics st) = live_total st
  ∧ total_connections st = live_total st
  ∧ ∀ addr, Server.connectionsByIp st !! addr
            = if live_at st addr =? 0 then None else Some (live_at st addr).

(** The room hub as the handlers leave it: no room is empty, no room lists
    a socket twice, the members of a room are live sockets that joined under
    its key; every live socket is a member of its room; and the sockets
    still to be created are not in the heap. *)
Definition hub_ok (st : Server.state) : Prop :=
  (∀ key members,
     Server.rooms st !! key = Some members →
     members ≠ [] ∧ NoDup members
     ∧ ∀ ws, ws ∈ members →
         ∃ w, Server.sockets st !! ws = Some w ∧ Server.is_live w = true
              ∧ Server.roomKey (Server.ws_namespace w) (Server.ws_room w) = key)
  ∧ (∀ ws w,
       Server.sockets st !! ws = Some w → Server.is_live w = true →
       ∃ members,
         Server.rooms st !! Server.roomKey (Server.ws_namespace w) (Server.ws_room w)
         = Some members ∧ ws ∈ members)
  ∧ (∀ ws, (Server.allocated st ≤ ws)%nat → Server.sockets st !! ws = None).

(** Two states with the same room hub, heap of sockets, connection
    counters and [active_connections] gauge. *)
Definition same_hub (st st' : Server.state) : Prop :=
  Server.rooms st' = Server.rooms st
  ∧ Server.sockets st' = Server.sockets st
  ∧ Server.allocated st' = Server.allocated st
  ∧ Server.connectionsByIp st' = Server.connectionsByIp st
  ∧ Server.wsActiveConnections (Server.metrics st')
    = Server.wsActiveConnections (Server.metrics st).

(** The handshake of the event, if it is one, presents a valid token. *)
Definition presents_valid_token `{Runtime} (cfg : Server.config) (ev : Server.event) : Prop :=
  match ev with
  | Server.Upgrade req _ _ _ _ =>
      Server.validateToken cfg (Server.parseAuthToken req) = true
  | _ => True
  end.

(** The handshake of the event, if it is one, is one that the library
    completes. *)
Definition completes_handshake (ev : Server.event) : Prop :=
  match ev with
  | Server.Upgrade req _ _ _ _ => Server.handshake req = Server.Well_formed
  | _ => True
  end.

(** ** Names without a colon *)

(** No character of the string is a colon. *)
Definition colon_free (s : string) : Prop :=
  Forall (λ c, c ≠ Server.colon) (String.list_ascii_of_string s).

(** ** The metrics *)

(** Two states with the same telemetry tallies. *)
Definition same_telemetry (st st' : Server.state) : Prop :=
  Server.iceState (Server.metrics st') = Server.iceState (Server.metrics st)
  ∧ Server.failureReason (Server.metrics st') = Server.failureReason (Server.metrics st)
  ∧ Server.byRegionCarrier (Server.metrics st') = Server.byRegionCarrier (Server.metrics st)
  ∧ Server.relayUsageTotal (Server.metrics st') = Server.relayUsageTotal (Server.metrics st).

(** The tally of a label in one of the labelled counters. *)
Definition tally (k : jsval) (m : jsmap Z) : Z := default 0 (map_get k m).

(** ** Header values *)

(** No character of the string is a comma. *)
Definition comma_free (s : string) : Prop :=
  Forall (λ c, c ≠ Server.comma) (String.list_ascii_of_string s).

(** ** The limits *)

(** The connection counters as every run leaves them: the counter of an
    address is at least the number of its live sessions, and a stored
    counter is positive and not above the limit. *)
Definition limit_respected (cfg : Server.config) (st : Server.state) : Prop :=
  ∀ addr,
    live_at st addr ≤ default 0 (Server.connectionsByIp st !! addr)
    ∧ ∀ v, Server.connectionsByIp st !! addr = Some v →
           1 ≤ v ∧ num_gt (Num v) (Server.MAX_CONNECTIONS_PER_IP cfg) = false.

(** No counter of [m'] is below the one of [m]: the five totals, and the
    tally of every label. *)
Definition totals_le (m m' : Server.metrics_t) : Prop :=
  Server.wsConnectionsTotal m ≤ Server.wsConnectionsTotal m'
  ∧ Server.wsMessagesTotal m ≤ Server.wsMessagesTotal m'
  ∧ Server.wsAuthFailuresTotal m ≤ Server.wsAuthFailuresTotal m'
  ∧ Server.wsRateLimitedTotal m ≤ Server.wsRateLimitedTotal m'
  ∧ Server.relayUsageTotal m ≤ Server.relayUsageTotal m'
  ∧ ∀ k, tally k (Server.iceState m) ≤ tally k (Server.iceState m')
         ∧ tally k (Server.failureReason m) ≤ tally k (Server.failureReason m')
         ∧ tally k (Server.byRegionCarrier m) ≤ tally k (Server.byRegionCarrier m').

(** The gauge of active connections lies between zero and the total of
    connections. *)
Definition gauge_ok (m : Server.metrics_t) : Prop :=
  0 ≤ Server.wsActiveConnections m ≤ Server.wsConnectionsTotal m.

(** What one event may do to the metrics. *)
Definition metrics_step (m m' : Server.metrics_t) : Prop :=
  totals_le m m' ∧ (gauge_ok m → gauge_ok m').

(** The buckets of the message limit as every run leaves them: a stored
    count is zero, or it was raised from a count below the limit. *)
Definition buckets_ok (cfg : Server.config) (st : Server.state) : Prop :=
  ∀ ip b, Server.rateLimitByIp st !! ip = Some b →
          0 ≤ Server.count b
          ∧ (Server.count b = 0
             ∨ num_ge (Num (Server.count b - 1)) (Server.MAX_MESSAGES_PER_MINUTE cfg) = false).

(** What one event may do to the buckets: none is dropped, and they stay
    as above. *)
Definition buckets_step (cfg : Server.config) (st st' : Server.state) : Prop :=
  (∀ ip, is_Some (Server.rateLimitByIp st !! ip) → is_Some (Server.rateLimitByIp st' !! ip))
  ∧ (buckets_ok cfg st → buckets_ok cfg st').

(** ** Sessions *)

(** The event is a frame received on some socket. *)
Definition is_message (ev : Server.event) : Prop :=
  match ev with
  | Server.Message _ _ _ _ => True
  | _ => False
  end.

(** The number of live sessions that joined under the room key [key]. *)
Definition live_in (st : Server.state) (key : string) : Z :=
  sum_over (λ w, if Server.is_live w
                    && String.eqb (Server.roomKey (Server.ws_namespace w) (Server.ws_room w)) key
                 then 1 else 0) (Server.sockets st).

(** ** Labels *)

(** A label that [String(v)] turns into text without calling a method of
    the value: [undefined] or a primitive. *)
Definition primitive_label (k : jsval) : Prop :=
  match k with
  | Some (JArr _) | Some (JObj _) => False
  | _ => True
  end.

(** A label that is a string. *)
Definition string_label (k : jsval) : Prop := ∃ s, k = Some (JStr s).

(** ** Requests and states of the examples *)

(** A handshake for room [r] of namespace [n] from 10.0.0.1, with the
    given [peerId] parameter and no token. *)
Definition signal_request (peerId : string) : Server.request :=
  {| Server.pathname := "/signal";
     Server.searchParams := [("namespace", "n"); ("room", "r"); ("peerId", peerId)]%string;
     Server.authorization := None;
     Server.x_forwarded_for := None;
     Server.remoteAddress := Some "10.0.0.1"%string;
     Server.handshake := Server.Well_formed |}.

(** The same handshake without a [Sec-WebSocket-Key] header: the library
    answers it with 400. *)
Definition keyless_request (peerId : string) : Server.request :=
  {| Server.pathname := "/signal";
     Server.searchParams := [("namespace", "n"); ("room", "r"); ("peerId", peerId)]%string;
     Server.authorization := None;
     Server.x_forwarded_for := None;
     Server.remoteAddress := Some "10.0.0.1"%string;
     Server.handshake := Server.Malformed 400 |}.

(** A request to [POST /rendezvous/register] with no token. *)
Definition register_request : Server.request :=
  {| Server.pathname := "/rendezvous/register";
     Server.searchParams := [];
     Server.authorization := None;
     Server.x_forwarded_for := None;
     Server.remoteAddress := Some "10.0.0.1"%string;
     Server.handshake := Server.Well_formed |}.

(** With no digest configured: three handshakes, of which the first two
    present the same peer id [A] and the third presents [B].  They become
    the sockets 0, 1 and 2 of one room. *)
Definition three_sessions : Server.state :=
  default Server.initial
    (Server.run (H := demo_runtime) Server.default_config Server.initial
       [Server.Upgrade (signal_request "A") 0 "" 1 2;
        Server.Upgrade (signal_request "A") 0 "" 3 4;
        Server.Upgrade (signal_request "B") 0 "" 5 6]).

(** A configuration with the digest of the token [s3cret] under the
    examples' hash. *)
Definition guarded_config : Server.config :=
  {| Server.SHARED_TOKEN_HASH := "h:s3cret";
     Server.MAX_MESSAGES_PER_MINUTE := Num 300;
     Server.MAX_CONNECTIONS_PER_IP := Num 12 |}.

(** A room of the registry with one record, of the peer [q]. *)
Definition one_peer_registry : Rendezvous.registry :=
  <["n::r"%string :=
      [(Some (JStr "q"),
        {| Rendezvous.peerId := Some (JStr "q"); Rendezvous.namespace := JStr "n";
           Rendezvous.room := JStr "r"; Rendezvous.addresses := JArr [];
           Rendezvous.metadata := JObj ∅; Rendezvous.seenAt := 1000;
           Rendezvous.expiresAt := Num 1500 |})]]> Rendezvous.empty.

(** A handshake behind a proxy, with a bearer token in the header and
    another token in the query. *)
Definition bearer_request : Server.request :=
  {| Server.pathname := "/signal";
     Server.searchParams := [("token", "zzz")]%string;
     Server.authorization := Some "Bearer abc"%string;
     Server.x_forwarded_for := Some "203.0.113.7, 10.0.0.9"%string;
     Server.remoteAddress := Some "10.0.0.9"%string;
     Server.handshake := Server.Well_formed |}.

(** A request for the room [r] of the namespace [n] on the given path,
    with no header. *)
Definition room_request (path : string) : Server.request :=
  {| Server.pathname := path;
     Server.searchParams := [("namespace", "n"); ("room", "r")]%string;
     Server.authorization := None;
     Server.x_forwarded_for := None;
     Server.remoteAddress := Some "10.0.0.2"%string;
     Server.handshake := Server.Well_formed |}.

(** A handshake from 10.0.0.1 that presents the token [s3cret]. *)
Definition token_request : Server.request :=
  {| Server.pathname := "/signal";
     Server.searchParams := [("token", "s3cret")]%string;
     Server.authorization := None;
     Server.x_forwarded_for := None;
     Server.remoteAddress := Some "10.0.0.1"%string;
     Server.handshake := Server.Well_formed |}.

(** With the digest configured: the state after one handshake that
    presented no token. *)
Definition refused_once : Server.state :=
  default Server.initial
    (Server.run (H := demo_runtime) guarded_config Server.initial
       [Server.Upgrade (signal_request "A") 0 "" 1 2]).

(** A request to [GET /rendezvous/discover] with no parameter and no
    header. *)
Definition discover_request : Server.request :=
  {| Server.pathname := "/rendezvous/discover";
     Server.searchParams := [];
     Server.authorization := None;
     Server.x_forwarded_for := None;
     Server.remoteAddress := Some "10.0.0.2"%string;
     Server.handshake := Server.Well_formed |}.

(* ===================================================================== *)
(** * Verification                                                         *)
(* ===================================================================== *)

(** ** Numbers *)

Lemma num_same_eq (a b : jsnum) : num_same a b = true ↔ a = b.
Proof.
  destruct a, b; simpl; try done.
  - rewrite Z.eqb_eq. split; congruence.
  - rewrite andb_true_iff, Z.eqb_eq, Pos.eqb_eq.
    split; [by intros [-> ->] | by intros [= -> ->]].
Qed.

Lemma num_same_refl (a : jsnum) : num_same a a = true.
Proof. by apply num_same_eq. Qed.

Lemma num_same_sym (a b : jsnum) : num_same a b = num_same b a.
Proof.
  destruct (num_same a b) eqn:Hab.
  - apply num_same_eq in Hab as ->. by rewrite num_same_refl.
  - destruct (num_same b a) eqn:Hba; [|done].
    apply num_same_eq in Hba as ->. by rewrite num_same_refl in Hab.
Qed.

Lemma num_le_false_lt (a b : jsnum) :
  a ≠ NaN → b ≠ NaN → num_le a b = false → num_lt b a = true.
Proof.
  intros Ha Hb.
  destruct a, b; cbn [num_le num_lt]; try done; rewrite Z.leb_gt, Z.ltb_lt; lia.
Qed.

Lemma num_le_true_lt (a b : jsnum) : num_le a b = true → num_lt b a = false.
Proof.
  destruct a, b; cbn [num_le num_lt]; try done; rewrite Z.leb_le, Z.ltb_ge; lia.
Qed.

Lemma num_le_int_mono (x : jsnum) (t1 t2 : Z) :
  t1 ≤ t2 → num_le x (Num t1) = true → num_le x (Num t2) = true.
Proof.
  intros Ht. destruct x; cbn [num_le numer expo]; try done; rewrite !Z.leb_le.
  - lia.
  - intros. pose proof (Z.pow_pos_nonneg 2 (Z.pos k)). nia.
Qed.

(** *** Finite numbers as fractions *)

Lemma norm_value (j : nat) (m : Z) :
  is_finite (norm m j) ∧ numer (norm m j) * 2 ^ Z.of_nat j = m * 2 ^ expo (norm m j).
Proof.
  revert m. induction j as [|j IH]; intros m.
  - simpl. split; [done | lia].
  - cbn [norm]. destruct (Z.even m) eqn:Hev.
    + destruct (IH (m / 2)) as [Hfin Hval]. split; [done|].
      apply Zeven_bool_iff, Zeven_div2 in Hev. rewrite Z.div2_div in Hev.
      rewrite Nat2Z.inj_succ, Z.pow_succ_r by lia.
      rewrite Hev at 2. lia.
    + split; [done|]. cbn [numer expo].
      assert (Hodd : Z.odd m = true) by (by rewrite <- Z.negb_even, Hev).
      apply Zodd_bool_iff, Zodd_div2 in Hodd. rewrite Z.div2_div in Hodd.
      rewrite <- Hodd.
      replace (Z.pos (Pos.of_succ_nat j)) with (Z.of_nat (S j)) by lia. done.
Qed.

Lemma scaled_value (n u : Z) :
  is_finite (scaled n u)
  ∧ numer (scaled n u) * 2 ^ Z.max 0 (- u) = n * 2 ^ Z.max 0 u * 2 ^ expo (scaled n u).
Proof.
  unfold scaled. destruct (Z.leb_spec 0 u).
  - cbn [numer expo is_finite]. split; [done|].
    rewrite Z.max_l, Z.max_r by lia. lia.
  - destruct (norm_value (Z.to_nat (- u)) n) as [Hfin Hval]. split; [done|].
    rewrite Z.max_r, Z.max_l by lia. rewrite Z2Nat.id in Hval by lia. lia.
Qed.

Lemma expo_nonneg (a : jsnum) : 0 ≤ expo a.
Proof. destruct a; simpl; lia. Qed.

(** Comparing a finite number with an integer. *)
Lemma num_le_int_l (r : Z) (x : jsnum) :
  is_finite x → num_le (Num r) x = (r * 2 ^ expo x <=? numer x).
Proof.
  destruct x; try done; intros _; cbn [num_le numer expo].
  - rewrite Z.pow_0_r, Z.mul_1_r. done.
  - by rewrite Z.pow_0_r, Z.mul_1_r.
Qed.

Lemma num_le_int_r (r : Z) (x : jsnum) :
  is_finite x → num_le x (Num r) = (numer x <=? r * 2 ^ expo x).
Proof.
  destruct x; try done; intros _; cbn [num_le numer expo].
  - rewrite Z.pow_0_r, Z.mul_1_r. done.
  - by rewrite Z.pow_0_r, Z.mul_1_r.
Qed.

Lemma num_lt_int_l (r : Z) (x : jsnum) :
  is_finite x → num_lt (Num r) x = (r * 2 ^ expo x <? numer x).
Proof.
  destruct x; try done; intros _; cbn [num_lt numer expo].
  - rewrite Z.pow_0_r, Z.mul_1_r. done.
  - by rewrite Z.pow_0_r, Z.mul_1_r.
Qed.

(** *** Rounding to the nearest integer *)

Lemma nearest_even_ge (a s R : Z) :
  0 < s → R * 2 ^ s ≤ a → R ≤ nearest_even a s.
Proof.
  intros Hs Ha. unfold nearest_even.
  assert (Hpow : 0 < 2 ^ s) by (apply Z.pow_pos_nonneg; lia).
  assert (Hq : R ≤ a / 2 ^ s) by (apply Z.div_le_lower_bound; lia).
  repeat case_match; lia.
Qed.

Lemma nearest_even_le (a s R : Z) :
  0 < s → a ≤ R * 2 ^ s → nearest_even a s ≤ R.
Proof.
  intros Hs Ha. unfold nearest_even.
  assert (Hpow : 0 < 2 ^ s) by (apply Z.pow_pos_nonneg; lia).
  pose proof (Z.div_mod a (2 ^ s) ltac:(lia)) as Hdm.
  pose proof (Z.mod_pos_bound a (2 ^ s) Hpow) as Hmod.
  assert (Hhalf : 0 < 2 ^ (s - 1)) by (apply Z.pow_pos_nonneg; lia).
  assert (Hq : a / 2 ^ s ≤ R) by nia.
  destruct (Z.ltb_spec (a mod 2 ^ s) (2 ^ (s - 1))); [done|].
  assert (a / 2 ^ s < R) by nia.
  repeat case_match; lia.
Qed.

Lemma pow2_split (x y : Z) : 0 ≤ x → 0 ≤ y → 2 ^ (x + y) = 2 ^ x * 2 ^ y.
Proof. intros. by rewrite Z.pow_add_r. Qed.

(** *** Rounding to a double *)

(** The double nearest to a positive fraction is not below an integer
    that the fraction is not below, as long as that integer is a double. *)
Lemma round_pos_ge (a k r : Z) :
  0 < a → 0 ≤ k → 0 ≤ r ≤ 2 ^ 53 → r * 2 ^ k ≤ a →
  num_le (Num r) (round_pos a k) = true.
Proof.
  intros Ha Hk Hr Hle. unfold round_pos.
  set (e := Z.log2 a - k). set (u := Z.max (e - 52) (- 1074)).
  set (s := k + u).
  set (n := if s <=? 0 then a * 2 ^ (- s) else nearest_even a s).
  destruct (1024 <=? Z.log2 n + u); [done|].
  destruct (scaled_value n u) as [Hfin Hval].
  rewrite num_le_int_l by done. apply Z.leb_le.
  pose proof (Z.log2_spec a Ha) as [Hlog _]. fold e in Hlog.
  assert (Hex : 0 < 2 ^ expo (scaled n u))
    by (apply Z.pow_pos_nonneg; [lia | apply expo_nonneg]).
  assert (Hk2 : 0 < 2 ^ k) by (apply Z.pow_pos_nonneg; lia).
  destruct (Z.le_gt_cases 0 u) as [Hu|Hu].
  - (* the result is the integer [n * 2 ^ u] *)
    rewrite Z.max_l, Z.max_r in Hval by lia. rewrite Z.pow_0_r in Hval.
    assert (Hgoal : r ≤ n * 2 ^ u); [|nia].
    destruct (Z.eq_dec u 0) as [Hu0|Hu0].
    + rewrite Hu0, Z.pow_0_r, Z.mul_1_r. subst n.
      destruct (Z.leb_spec s 0).
      * assert (s = 0) by lia. assert (k = 0) by lia. subst k.
        replace (- s) with 0 by lia. rewrite Z.pow_0_r in *. lia.
      * apply nearest_even_ge; [lia|]. replace s with k by lia. done.
    + assert (Hue : u = e - 52) by lia.
      assert (Hs : 0 < s) by lia.
      assert (Hn : 2 ^ 52 ≤ n).
      { subst n. destruct (Z.leb_spec s 0); [lia|].
        apply nearest_even_ge; [done|].
        replace (Z.log2 a) with (52 + s) in Hlog by lia.
        rewrite pow2_split in Hlog by lia. done. }
      assert (2 ^ 53 ≤ n * 2 ^ u); [|lia].
      assert (2 ^ 1 ≤ 2 ^ u) by (apply Z.pow_le_mono_r; lia).
      change (2 ^ 53) with (2 ^ 52 * 2 ^ 1). nia.
  - (* the result is [n / 2 ^ (- u)] *)
    rewrite Z.max_r, Z.max_l in Hval by lia. rewrite Z.pow_0_r, Z.mul_1_r in Hval.
    assert (Hu2 : 0 < 2 ^ (- u)) by (apply Z.pow_pos_nonneg; lia).
    assert (Hgoal : r * 2 ^ (- u) ≤ n); [|nia].
    subst n. destruct (Z.leb_spec s 0).
    + replace (- u) with (k + - s) by lia. rewrite pow2_split by lia.
      assert (0 < 2 ^ (- s)) by (apply Z.pow_pos_nonneg; lia). nia.
    + apply nearest_even_ge; [done|].
      replace k with (- u + s) in Hle by lia. rewrite pow2_split in Hle by lia. lia.
Qed.

Lemma nearest_even_nonneg (a s : Z) : 0 ≤ a → 0 < s → 0 ≤ nearest_even a s.
Proof. intros. apply nearest_even_ge; lia. Qed.

(** ... and not above an integer that the fraction is not above. *)
Lemma round_pos_le (a k r : Z) :
  0 < a → 0 ≤ k → 0 ≤ r ≤ 2 ^ 53 → a ≤ r * 2 ^ k →
  num_le (round_pos a k) (Num r) = true.
Proof.
  intros Ha Hk Hr Hle. unfold round_pos.
  set (e := Z.log2 a - k). set (u := Z.max (e - 52) (- 1074)).
  set (s := k + u).
  set (n := if s <=? 0 then a * 2 ^ (- s) else nearest_even a s).
  pose proof (Z.log2_spec a Ha) as [Hlog _].
  assert (Hk2 : 0 < 2 ^ k) by (apply Z.pow_pos_nonneg; lia).
  assert (He : e ≤ 53).
  { assert (Z.log2 a ≤ Z.log2 (2 ^ (53 + k))); [|rewrite Z.log2_pow2 in *; lia].
    apply Z.log2_le_mono. rewrite pow2_split by lia. nia. }
  assert (Hn0 : 0 ≤ n).
  { subst n. destruct (Z.leb_spec s 0); [|apply nearest_even_nonneg; lia].
    assert (0 < 2 ^ (- s)) by (apply Z.pow_pos_nonneg; lia). nia. }
  assert (Hint : if 0 <=? u then n * 2 ^ u ≤ r else n ≤ r * 2 ^ (- u)).
  { destruct (Z.leb_spec 0 u) as [Hu|Hu].
    - destruct (Z.eq_dec u 0) as [Hu0|Hu0].
      + rewrite Hu0, Z.pow_0_r, Z.mul_1_r. subst n.
        destruct (Z.leb_spec s 0).
        * assert (s = 0) by lia. assert (k = 0) by lia. subst k.
          replace (- s) with 0 by lia. rewrite Z.pow_0_r in *. lia.
        * apply nearest_even_le; [lia|]. replace s with k by lia. done.
      + assert (Hu1 : u = 1) by lia. assert (He53 : e = 53) by lia.
        replace (Z.log2 a) with (53 + k) in Hlog by lia.
        rewrite pow2_split in Hlog by lia.
        assert (r = 2 ^ 53) by nia.
        assert (Hn : n ≤ 2 ^ 52).
        { subst n. destruct (Z.leb_spec s 0); [lia|].
          apply nearest_even_le; [lia|].
          replace s with (1 + k) by lia. rewrite pow2_split by lia.
          change (2 ^ 1) with 2. change (2 ^ 52) with 4503599627370496.
          change (2 ^ 53) with 9007199254740992 in *. nia. }
        rewrite Hu1. change (2 ^ 1) with 2. change (2 ^ 52) with 4503599627370496 in *.
        change (2 ^ 53) with 9007199254740992 in *. lia.
    - assert (Hu2 : 0 < 2 ^ (- u)) by (apply Z.pow_pos_nonneg; lia).
      subst n. destruct (Z.leb_spec s 0).
      + replace (- u) with (k + - s) by lia. rewrite pow2_split by lia.
        assert (0 < 2 ^ (- s)) by (apply Z.pow_pos_nonneg; lia). nia.
      + apply nearest_even_le; [done|].
        replace k with (- u + s) in Hle by lia. rewrite pow2_split in Hle by lia. lia. }
  assert (Hfits : Z.log2 n + u < 1024).
  { destruct (Z.leb_spec 0 u) as [Hu|Hu].
    - assert (1 ≤ 2 ^ u) by (apply Z.lt_pred_le, Z.pow_pos_nonneg; lia).
      assert (Z.log2 n ≤ Z.log2 (2 ^ 53)); [|rewrite Z.log2_pow2 in *; lia].
      apply Z.log2_le_mono. nia.
    - assert (Hu2 : 0 < 2 ^ (- u)) by (apply Z.pow_pos_nonneg; lia).
      assert (Z.log2 n ≤ Z.log2 (2 ^ (53 + - u))); [|rewrite Z.log2_pow2 in *; lia].
      apply Z.log2_le_mono. rewrite pow2_split by lia. nia. }
  destruct (Z.leb_spec 1024 (Z.log2 n + u)); [lia|].
  destruct (scaled_value n u) as [Hfin Hval].
  rewrite num_le_int_r by done. apply Z.leb_le.
  assert (Hex : 0 < 2 ^ expo (scaled n u))
    by (apply Z.pow_pos_nonneg; [lia | apply expo_nonneg]).
  destruct (Z.leb_spec 0 u) as [Hu|Hu].
  - rewrite Z.max_l, Z.max_r in Hval by lia. rewrite Z.pow_0_r in Hval. nia.
  - rewrite Z.max_r, Z.max_l in Hval by lia. rewrite Z.pow_0_r, Z.mul_1_r in Hval.
    assert (Hu2 : 0 < 2 ^ (- u)) by (apply Z.pow_pos_nonneg; lia). nia.
Qed.

Lemma num_opp_le (x : jsnum) (r : Z) :
  num_le (Num 0) x = true → 0 ≤ r → num_le (num_opp x) (Num r) = true.
Proof.
  destruct x; cbn [num_opp num_le numer expo]; try done; rewrite !Z.leb_le; intros.
  - lia.
  - pose proof (Z.pow_pos_nonneg 2 (Z.pos k)). nia.
Qed.

Lemma round_ge (m k r : Z) :
  0 ≤ k → 0 ≤ r ≤ 2 ^ 53 → r * 2 ^ k ≤ m → num_le (Num r) (round m k) = true.
Proof.
  intros Hk Hr Hle. assert (0 < 2 ^ k) by (apply Z.pow_pos_nonneg; lia).
  destruct m as [|p|p]; cbn [round].
  - apply Z.leb_le. nia.
  - apply round_pos_ge; [lia..|done].
  - nia.
Qed.

Lemma round_le (m k r : Z) :
  0 ≤ k → 0 ≤ r ≤ 2 ^ 53 → m ≤ r * 2 ^ k → num_le (round m k) (Num r) = true.
Proof.
  intros Hk Hr Hle. destruct m as [|p|p]; cbn [round].
  - apply Z.leb_le. lia.
  - apply round_pos_le; [lia..|done].
  - apply num_opp_le; [|lia]. apply round_pos_ge; lia.
Qed.

Lemma num_le_antisym_int (r : Z) (x : jsnum) :
  num_le (Num r) x = true → num_le x (Num r) = true → x = Num r.
Proof.
  destruct x; cbn [num_le numer expo]; try done; rewrite !Z.leb_le; intros.
  - f_equal. lia.
  - exfalso. rewrite Z.pow_0_r in *.
    assert (2 ^ Z.pos k = 2 * 2 ^ (Z.pos k - 1)); [|lia].
    replace (Z.pos k) with (Z.succ (Z.pos k - 1)) at 1 by lia.
    by rewrite Z.pow_succ_r by lia.
Qed.

(** An integer of magnitude at most [2 ^ 53] is a double. *)
Lemma round_int (z : Z) : Z.abs z ≤ 2 ^ 53 → round z 0 = Num z.
Proof.
  intros Hz. destruct z as [|p|p]; cbn [round]; [done| |].
  - apply num_le_antisym_int.
    + apply round_pos_ge; rewrite ?Z.pow_0_r; lia.
    + apply round_pos_le; rewrite ?Z.pow_0_r; lia.
  - replace (round_pos (- Z.neg p) 0) with (Num (- Z.neg p)).
    { cbn [num_opp]. f_equal; lia. }
    symmetry. apply num_le_antisym_int.
    + apply round_pos_ge; rewrite ?Z.pow_0_r; lia.
    + apply round_pos_le; rewrite ?Z.pow_0_r; lia.
Qed.

Lemma num_add_int (x y : Z) :
  Z.abs (x + y) ≤ 2 ^ 53 → num_add (Num x) (Num y) = Num (x + y).
Proof.
  intros Hxy. cbn [num_add numer expo].
  rewrite Z.pow_0_r, !Z.mul_1_r. by apply round_int.
Qed.

(** For a reading of the clock, [clock_add] is the addition of doubles. *)
Lemma clock_add_num_add (now : Z) (b : jsnum) :
  Z.abs now ≤ 8640000000000000 → clock_add now b = num_add (Num now) b.
Proof.
  intros Hnow. unfold clock_add. destruct b as [| |y| |]; try done.
  destruct (Z.leb_spec (Z.abs y) 367199254740992); [|done].
  symmetry. apply num_add_int. change (2 ^ 53) with 9007199254740992. lia.
Qed.

Lemma num_add_clock (now : Z) (ttl : jsnum) :
  is_finite ttl →
  num_add (Num now) ttl = round (now * 2 ^ expo ttl + numer ttl) (expo ttl).
Proof.
  destruct ttl; try done; intros _; cbn [num_add numer expo];
    f_equal; rewrite ?Z.pow_0_r; lia.
Qed.

(** A time to live of at least one millisecond puts [now + ttl] after
    [now]; one that is not positive does not. *)
Lemma clock_add_after (now : Z) (ttl : jsnum) :
  0 ≤ now ≤ 8640000000000000 → num_ge ttl (Num 1) = true →
  num_gt (clock_add now ttl) (Num now) = true.
Proof.
  intros Hnow Httl. unfold num_gt, num_ge in *.
  rewrite clock_add_num_add by lia.
  destruct ttl as [| |y|n k|]; try done.
  - assert (Hle : num_le (Num (now + 1)) (num_add (Num now) (Num y)) = true).
    { rewrite num_add_clock by done. cbn [num_le numer expo] in *.
      apply Z.leb_le in Httl.
      apply round_ge; [done|change (2 ^ 53) with 9007199254740992; lia|].
      rewrite Z.pow_0_r. lia. }
    destruct (num_add (Num now) (Num y)); cbn [num_le num_lt numer expo] in *;
      try done; apply Z.leb_le in Hle; apply Z.ltb_lt; lia.
  - assert (Hle : num_le (Num (now + 1)) (num_add (Num now) (Frac n k)) = true).
    { rewrite num_add_clock by done. cbn [num_le numer expo] in *.
      apply Z.leb_le in Httl. rewrite Z.pow_0_r in Httl.
      apply round_ge; [done|change (2 ^ 53) with 9007199254740992; lia|].
      lia. }
    destruct (num_add (Num now) (Frac n k)); cbn [num_le num_lt numer expo] in *;
      try done; apply Z.leb_le in Hle; apply Z.ltb_lt; lia.
Qed.

Lemma clock_add_not_after (now : Z) (ttl : jsnum) :
  0 ≤ now ≤ 8640000000000000 → num_gt ttl (Num 0) = false →
  num_gt (clock_add now ttl) (Num now) = false.
Proof.
  intros Hnow Httl. unfold num_gt in *.
  rewrite clock_add_num_add by lia.
  destruct ttl as [| |y|n k|]; try done.
  - apply num_le_true_lt. rewrite num_add_clock by done.
    cbn [num_lt numer expo] in *. apply Z.ltb_ge in Httl.
    apply round_le; [done|change (2 ^ 53) with 9007199254740992; lia|].
    rewrite Z.pow_0_r. lia.
  - apply num_le_true_lt. rewrite num_add_clock by done.
    cbn [num_lt numer expo] in *. apply Z.ltb_ge in Httl.
    rewrite Z.pow_0_r in Httl.
    apply round_le; [done|change (2 ^ 53) with 9007199254740992; lia|].
    lia.
Qed.

(** ** Credential verification *)

Section Credentials.
Context `{Runtime}.
Variable cfg : Server.config.

Lemma foldl_lor_zero (l : list (Ascii.ascii * Ascii.ascii)) (acc : N) :
  foldl (λ acc xy, N.lor acc (N.lxor (Ascii.N_of_ascii xy.1) (Ascii.N_of_ascii xy.2))) acc l = 0%N
  ↔ acc = 0%N ∧ Forall (λ xy, xy.1 = xy.2) l.
Proof.
  revert acc. induction l as [|[x y] l IH]; intros acc; simpl.
  - split; [intros ->; split; [done | constructor] | by intros [-> _]].
  - rewrite IH, N.lor_eq_0_iff, Forall_cons. simpl. split.
    + intros [[-> Hxy] Hl]. repeat split; [|done].
      apply N.lxor_eq in Hxy.
      by rewrite <- (Ascii.ascii_N_embedding x), Hxy, Ascii.ascii_N_embedding.
    + intros [-> [-> Hl]]. by rewrite N.lxor_nilpotent.
Qed.

Lemma timingSafeEqual_spec (a b : list Ascii.ascii) :
  length a = length b → Server.timingSafeEqual a b = true ↔ a = b.
Proof.
  intros Hlen. unfold Server.timingSafeEqual.
  rewrite N.eqb_eq, foldl_lor_zero. split.
  - intros [_ Hall]. revert b Hlen Hall.
    induction a as [|x a IH]; intros [|y b] Hlen Hall; simplify_eq/=; [done|].
    apply Forall_cons in Hall as [Hxy Hall]. simpl in Hxy. subst.
    f_equal. by apply IH.
  - intros ->. split; [done|]. clear Hlen.
    induction b as [|y b IH]; simpl; constructor; done.
Qed.

Lemma Buffer_from_inj (s t : string) :
  Server.Buffer_from s = Server.Buffer_from t → s = t.
Proof.
  unfold Server.Buffer_from. intros Heq.
  by rewrite <- (String.string_of_list_ascii_of_string s), Heq,
    String.string_of_list_ascii_of_string.
Qed.

(** C4: [validateToken] accepts exactly when no digest is configured, or
    the token is non-empty and its hex SHA-256 is the configured digest.  So
    with a digest configured the empty (or missing) token is refused, and
    with none configured every token passes. *)
Theorem validateToken_iff (rawToken : string) :
  (Server.validateToken cfg rawToken = true
   ↔ Server.SHARED_TOKEN_HASH cfg = ""%string
     ∨ (rawToken ≠ ""%string ∧ sha256_hex rawToken = Server.SHARED_TOKEN_HASH cfg))
  ∧ (Server.SHARED_TOKEN_HASH cfg ≠ ""%string → Server.validateToken cfg "" = false)
  ∧ (Server.SHARED_TOKEN_HASH cfg = ""%string → Server.validateToken cfg rawToken = true).
Proof.
  assert (Hmain : Server.validateToken cfg rawToken = true
   ↔ Server.SHARED_TOKEN_HASH cfg = ""%string
     ∨ (rawToken ≠ ""%string ∧ sha256_hex rawToken = Server.SHARED_TOKEN_HASH cfg)).
  { unfold Server.validateToken, Server.hashToken.
    destruct (String.eqb_spec (Server.SHARED_TOKEN_HASH cfg) "") as [Hh|Hh];
      [by split; [left|] |].
    destruct (String.eqb_spec rawToken "") as [Ht|Ht].
    { split; [done | intros [?|[? _]]; done]. }
    destruct (Nat.eqb_spec (length (Server.Buffer_from (sha256_hex rawToken)))
                (length (Server.Buffer_from (Server.SHARED_TOKEN_HASH cfg)))) as [Hl|Hl];
      simpl.
    - rewrite (timingSafeEqual_spec _ _ Hl). split.
      + intros Heq. right. split; [done|]. by apply Buffer_from_inj.
      + intros [?|[_ ->]]; done.
    - split; [done|]. intros [?|[_ Heq]]; [done|]. by rewrite Heq in Hl. }
  split; [exact Hmain|]. split.
  - intros Hh. unfold Server.validateToken.
    destruct (String.eqb_spec (Server.SHARED_TOKEN_HASH cfg) ""); done.
  - intros Hh. apply Hmain. by left.
Qed.

End Credentials.

(** ** Fan-out *)

Section Relay.
Context `{Runtime}.
Variable cfg : Server.config.

Lemma relay_target_spec (st : Server.state) (senderId : string) (ws : nat) :
  Server.relay_target st senderId ws = true
  ↔ ∃ w, Server.sockets st !! ws = Some w
         ∧ Server.readyState w = Server.OPEN
         ∧ Server.ws_peerId w ≠ senderId.
Proof.
  unfold Server.relay_target. destruct (Server.sockets st !! ws) as [w|]; simpl.
  - rewrite negb_true_iff, orb_false_iff, negb_false_iff. split.
    + intros [Hopen Hid]. exists w. split; [done|]. split.
      * by destruct (Server.readyState w).
      * by apply String.eqb_neq.
    + intros (w' & [= <-] & Hopen & Hid). split.
      * by rewrite Hopen.
      * by apply String.eqb_neq.
  - split; [done | by intros (w & ? & _)].
Qed.

Lemma elem_of_relayToRoom (st : Server.state) (namespace room senderId : string)
    (payload : json) (ws : nat) (text : string) :
  (ws, text) ∈ Server.relayToRoom st namespace room senderId payload
  ↔ text = JSON_stringify payload
    ∧ ∃ members, Server.rooms st !! Server.roomKey namespace room = Some members
                 ∧ ws ∈ members
                 ∧ Server.relay_target st senderId ws = true.
Proof.
  unfold Server.relayToRoom.
  destruct (Server.rooms st !! Server.roomKey namespace room) as [members|].
  - rewrite list_elem_of_fmap. split.
    + intros (x & [= -> ->] & Hx). apply list_elem_of_filter in Hx as [Ht Hx].
      split; [done|]. exists members. split; [done|]. split; [done|].
      by apply Is_true_true.
    + intros (-> & members' & [= <-] & Hin & Ht). exists ws. split; [done|].
      apply list_elem_of_filter. split; [by apply Is_true_true | done].
  - split; [by intros ?%elem_of_nil | by intros (_ & ? & ? & _)].
Qed.

(** C2: the frames of a fan-out are exactly the serialized envelope, once
    for each member of the room that is open and whose peer id differs from
    the sender's, in the order of the room; so no socket that carries the
    sender's peer id, the sender itself included, is sent the envelope. *)
Theorem relayToRoom_excludes_sender (st : Server.state)
    (namespace room senderId : string) (payload : json) :
  Server.relayToRoom st namespace room senderId payload
    = (λ ws, (ws, JSON_stringify payload))
        <$> filter (λ ws, Server.relay_target st senderId ws)
              (default [] (Server.rooms st !! Server.roomKey namespace room))
  ∧ (∀ ws text,
       (ws, text) ∈ Server.relayToRoom st namespace room senderId payload
       ↔ text = JSON_stringify payload
         ∧ ∃ members w,
             Server.rooms st !! Server.roomKey namespace room = Some members
             ∧ ws ∈ members
             ∧ Server.sockets st !! ws = Some w
             ∧ Server.readyState w = Server.OPEN
             ∧ Server.ws_peerId w ≠ senderId)
  ∧ (∀ s w text,
       Server.sockets st !! s = Some w
       → Server.ws_peerId w = senderId
       → (s, text) ∉ Server.relayToRoom st namespace room senderId payload).
Proof.
  split; [|split].
  - unfold Server.relayToRoom.
    by destruct (Server.rooms st !! Server.roomKey namespace room).
  - intros ws text. rewrite elem_of_relayToRoom. split.
    + intros (-> & members & Hm & Hin & Ht). split; [done|].
      apply relay_target_spec in Ht as (w & Hw & Hopen & Hid).
      by exists members, w.
    + intros (-> & members & w & Hm & Hin & Hw & Hopen & Hid). split; [done|].
      exists members. split; [done|]. split; [done|].
      apply relay_target_spec. by exists w.
  - intros s w text Hw Hid Hin.
    apply elem_of_relayToRoom in Hin as (_ & members & _ & _ & Ht).
    apply relay_target_spec in Ht as (w' & Hw' & _ & Hne). congruence.
Qed.

Lemma strict_eq_str_false (v : jsval) (literal : string) :
  strict_eq_str v literal = false ↔ v ≠ Some (JStr literal).
Proof.
  destruct v as [[| | |s| |]|]; simpl; try (split; [intros _ [=] | done]).
  rewrite String.eqb_neq. split; congruence.
Qed.

Lemma on_message_relays (st st1 : Server.state) (ws : nat) (w : Server.socket)
    (raw : string) (message : json) (t_rate t_stamp : Z) :
  Server.sockets st !! ws = Some w →
  Server.allowMessage cfg st (Server.ws_clientIp w) t_rate = (true, st1) →
  JSON_parse raw = Some message →
  relayed message →
  Server.on_message cfg st ws raw t_rate t_stamp
  = Server.Done (Server.set_metrics Server.count_message st1)
      (Server.relayToRoom (Server.set_metrics Server.count_message st1)
         (Server.ws_namespace w) (Server.ws_room w) (Server.ws_peerId w)
         (JObj (Server.relayPayload message (Server.ws_peerId w)
                  (Server.ws_namespace w) (Server.ws_room w) t_stamp))).
Proof.
  intros Hw Hallow Hparse (Hnull & Hhb & Htel).
  apply strict_eq_str_false in Hhb, Htel.
  unfold Server.on_message. rewrite Hw, Hallow. simpl. rewrite Hparse, Hhb, Htel.
  by destruct message.
Qed.


(** C9: the loop of the fan-out compares peer-id strings.  If two sockets
    carry the same peer id, a relayed message from either of them produces
    no frame for either: the other one is skipped along with the sender. *)
Theorem duplicate_peerId_both_skipped (st st1 : Server.state) (a b sender : nat)
    (wa wb w : Server.socket) (raw : string) (message : json) (t_rate t_stamp : Z) :
  Server.sockets st !! a = Some wa →
  Server.sockets st !! b = Some wb →
  Server.ws_peerId wa = Server.ws_peerId wb →
  sender = a ∨ sender = b →
  Server.sockets st !! sender = Some w →
  Server.allowMessage cfg st (Server.ws_clientIp w) t_rate = (true, st1) →
  JSON_parse raw = Some message →
  relayed message →
  ∃ st' out,
    Server.on_message cfg st sender raw t_rate t_stamp = Server.Done st' out
    ∧ ∀ text, ((a, text) ∉ out) ∧ ((b, text) ∉ out).
Proof.
  intros Ha Hb Hid Hsender Hw Hallow Hparse Hrel.
  assert (Hwid : Server.ws_peerId w = Server.ws_peerId wa).
  { destruct Hsender; simplify_eq; done. }
  eexists _, _. split; [by eapply on_message_relays|].
  assert (Hheap : ∀ x, Server.sockets (Server.set_metrics Server.count_message st1) !! x
                       = Server.sockets st !! x).
  { intros x. unfold Server.allowMessage in Hallow.
    repeat (match type of Hallow with
            | context [if ?c then _ else _] => destruct c
            | context [match ?c with _ => _ end] => destruct c
            end; simpl in Hallow); by simplify_eq. }
  intros text.
  split; intros Hin;
    apply elem_of_relayToRoom in Hin as (_ & members & _ & _ & Ht);
    apply relay_target_spec in Ht as (w' & Hw' & _ & Hne);
    rewrite Hheap in Hw'; congruence.
Qed.

End Relay.

(** ** The message rate limit *)

Section RateLimit.
Context `{Runtime}.
Variable cfg : Server.config.

Lemma num_ge_mono (c M : Z) (max : jsnum) :
  c ≤ M → num_ge (Num c) max = true → num_ge (Num M) max = true.
Proof.
  unfold num_ge, num_le. destruct max as [| |z|n k|]; try done.
  - rewrite !Z.leb_le. lia.
  - cbn [numer expo]. rewrite !Z.leb_le. intros Hc Hle.
    pose proof (Z.pow_pos_nonneg 2 (Z.pos k)). nia.
Qed.

Lemma allowMessage_step (st : Server.state) (ip : string) (now : Z)
    (prev : option spec_window) :
  bucket_agrees cfg (Server.rateLimitByIp st !! ip) prev →
  (Server.allowMessage cfg st ip now).1
    = negb (num_ge (Num (spec_M prev now)) (Server.MAX_MESSAGES_PER_MINUTE cfg))
  ∧ bucket_agrees cfg (Server.rateLimitByIp (Server.allowMessage cfg st ip now).2 !! ip)
      (spec_count prev now).
Proof.
  unfold bucket_agrees, Server.allowMessage, spec_count, spec_M, spec_current.
  destruct (Server.rateLimitByIp st !! ip) as [b|] eqn:Hb, prev as [w|]; try done.
  - intros (Hstart & Hcount & Hfull). rewrite <- Hstart.
    destruct (Server.windowStart b + 60000 <=? now) eqn:Hroll; simpl.
    + destruct (num_ge (Num 0) _) eqn:Hge; simpl.
      * rewrite lookup_insert_eq. simpl. split; [done|].
        split; [done|]. split; [lia|]. by right.
      * rewrite lookup_insert_eq. simpl. split; [done|].
        split; [done|]. split; [lia|]. by left.
    + destruct (num_ge (Num (Server.count b)) _) eqn:Hge; simpl.
      * rewrite Hb. split.
        { symmetry. apply negb_false_iff. eapply num_ge_mono; [|done]. lia. }
        split; [done|]. split; [lia|]. right. done.
      * rewrite lookup_insert_eq. simpl.
        destruct Hfull as [Heq|Hfull]; [|congruence].
        rewrite <- Heq, Hge. split; [done|].
        split; [done|]. split; [lia|]. by left.
  - intros _. simpl.
    destruct (num_ge (Num 0) _) eqn:Hge; simpl.
    + rewrite lookup_insert_eq. simpl. split; [done|].
      split; [done|]. split; [lia|]. by right.
    + rewrite lookup_insert_eq. simpl. split; [done|].
      split; [done|]. split; [lia|]. by left.
Qed.

Lemma allowMessage_other (st : Server.state) (ip ip' : string) (now : Z) :
  ip' ≠ ip →
  Server.rateLimitByIp (Server.allowMessage cfg st ip' now).2 !! ip
  = Server.rateLimitByIp st !! ip.
Proof.
  intros Hne. unfold Server.allowMessage.
  repeat (match goal with
          | |- context [if ?c then _ else _] => destruct c
          | |- context [match ?c with _ => _ end] => destruct c
          end; simpl); by rewrite ?lookup_insert_ne.
Qed.

Lemma allowMessage_run_agrees (calls : list (string * Z)) (st : Server.state)
    (ip : string) (prev : option spec_window) :
  bucket_agrees cfg (Server.rateLimitByIp st !! ip) prev →
  bucket_agrees cfg (Server.rateLimitByIp (allowMessage_run cfg st calls) !! ip)
    (spec_run prev (times_of ip calls)).
Proof.
  revert st prev. unfold allowMessage_run, spec_run, times_of.
  induction calls as [|[ip' t] calls IH]; intros st prev Hagree; simpl; [done|].
  rewrite filter_cons. simpl. case_decide as Hip.
  - subst ip'. simpl. apply IH. by apply allowMessage_step.
  - apply IH. by rewrite allowMessage_other.
Qed.

Lemma allowMessage_effect (st : Server.state) (ip : string) (now : Z) :
  let r := Server.allowMessage cfg st ip now in
  Server.rooms r.2 = Server.rooms st
  ∧ Server.sockets r.2 = Server.sockets st
  ∧ Server.rendezvous r.2 = Server.rendezvous st
  ∧ Server.connectionsByIp r.2 = Server.connectionsByIp st
  ∧ Server.wsMessagesTotal (Server.metrics r.2) = Server.wsMessagesTotal (Server.metrics st)
  ∧ Server.wsRateLimitedTotal (Server.metrics r.2)
    = Server.wsRateLimitedTotal (Server.metrics st) + (if r.1 then 0 else 1).
Proof.
  unfold Server.allowMessage.
  repeat (match goal with
          | |- context [if ?c then _ else _] => destruct c
          | |- context [match ?c with _ => _ end] => destruct c
          end; simpl); repeat split; lia.
Qed.

End RateLimit.

(** ** The [Map] model *)

Section JsMapFacts.
Context {V : Type}.
Implicit Types (m : jsmap V) (k : jsval) (p : string).

Lemma same_value_zero_str k p :
  same_value_zero k (Some (JStr p)) = true ↔ k = Some (JStr p).
Proof.
  destruct k as [[| | |s| |]|]; simpl; try (split; [done | intros [=]]).
  rewrite String.eqb_eq. split; congruence.
Qed.

Lemma same_value_zero_eq (a b : jsval) : same_value_zero a b = true → a = b.
Proof.
  destruct a as [[| | | | |]|], b as [[| | | | |]|]; simpl; try done.
  - by destruct b0, b; intros; simplify_eq/=.
  - by intros ->%num_same_eq.
  - by intros ->%String.eqb_eq.
Qed.

Lemma same_value_zero_sym k k' : same_value_zero k k' = same_value_zero k' k.
Proof.
  destruct k as [[| | | | |]|], k' as [[| | | | |]|]; simpl; try done.
  - by destruct b, b0.
  - apply num_same_sym.
  - apply String.eqb_sym.
Qed.

Lemma map_get_None k m :
  map_get k m = None ↔ Forall (λ e, same_value_zero e.1 k = false) m.
Proof.
  induction m as [|[k' v] m IH]; simpl.
  - split; [constructor | done].
  - rewrite Forall_cons. simpl. destruct (same_value_zero k' k); [|tauto].
    split; [done | by intros [? _]].
Qed.

Lemma entries_of_None p m :
  map_get (Some (JStr p)) m = None → entries_of p m = [].
Proof.
  rewrite map_get_None. unfold entries_of.
  induction 1 as [|[k v] m Hk _ IH]; [done|].
  rewrite filter_cons. simpl in *. rewrite Hk. by case_decide.
Qed.

Lemma entries_of_set p v m :
  distinct_keys m →
  entries_of p (map_set (Some (JStr p)) v m) = [(Some (JStr p), v)].
Proof.
  unfold entries_of. induction m as [|[k' v'] m IH]; simpl.
  - intros _. rewrite filter_cons. simpl. rewrite String.eqb_refl.
    by case_decide.
  - intros [Hget Hm].
    destruct (same_value_zero k' (Some (JStr p))) eqn:Hk.
    + apply same_value_zero_str in Hk as ->.
      rewrite filter_cons. simpl. rewrite String.eqb_refl.
      case_decide; [|done]. f_equal. by apply entries_of_None.
    + rewrite filter_cons. simpl. rewrite Hk. case_decide; [done|]. by apply IH.
Qed.

Lemma map_set_elem p v m : (Some (JStr p), v) ∈ map_set (Some (JStr p)) v m.
Proof.
  induction m as [|[k' v'] m IH]; simpl; [by left|].
  destruct (same_value_zero k' (Some (JStr p))) eqn:Hk.
  - apply same_value_zero_str in Hk as ->. by left.
  - by right.
Qed.

Lemma map_set_elem_any k v m : (k, v) ∈ map_set k v m.
Proof.
  induction m as [|[k' v'] m IH]; simpl; [by left|].
  destruct (same_value_zero k' k) eqn:Hk.
  - apply same_value_zero_eq in Hk as ->. by left.
  - by right.
Qed.

Lemma map_set_not_nil k v m : map_set k v m ≠ [].
Proof. destruct m as [|[k' v'] m]; simpl; [done|]. by destruct (same_value_zero k' k). Qed.

Lemma map_get_set_ne k k' v m :
  same_value_zero k k' = false →
  map_get k' (map_set k v m) = map_get k' m.
Proof.
  intros Hne. induction m as [|[k0 v0] m IH]; simpl.
  - by rewrite Hne.
  - destruct (same_value_zero k0 k) eqn:Hk0; simpl.
    + destruct (same_value_zero k0 k') eqn:Hk0'; [|done].
      (* [k0] is the same value as both [k] and [k']: they are primitives *)
      exfalso. clear IH.
      destruct k0 as [[| | | | |]|], k as [[| | | | |]|]; simplify_eq/=;
        destruct k' as [[| | | | |]|]; simplify_eq/=.
      * destruct b, b0, b1; simplify_eq/=.
      * apply num_same_eq in Hk0, Hk0'. subst. by rewrite num_same_refl in Hne.
      * apply String.eqb_eq in Hk0, Hk0'. subst. by rewrite String.eqb_refl in Hne.
    + by rewrite IH.
Qed.

Lemma distinct_keys_set k v m : distinct_keys m → distinct_keys (map_set k v m).
Proof.
  induction m as [|[k0 v0] m IH]; simpl; [done|].
  intros [Hget Hm]. destruct (same_value_zero k0 k) eqn:Hk0; simpl; [done|].
  split; [|by apply IH].
  rewrite map_get_set_ne; [done|]. by rewrite same_value_zero_sym.
Qed.

Lemma map_delete_spec k m :
  (map_delete k m).1 = bool_decide (is_Some (map_get k m))
  ∧ (∀ e, e ∈ (map_delete k m).2 → e ∈ m)
  ∧ (distinct_keys m → distinct_keys (map_delete k m).2)
  ∧ (∀ k', map_get k' m = None → map_get k' (map_delete k m).2 = None).
Proof.
  induction m as [|[k0 v0] m IH]; simpl.
  - by repeat split.
  - destruct (same_value_zero k0 k) eqn:Hk0; simpl.
    + split; [done|]. split; [by right|].
      split; [by intros [_ ?]|].
      intros k'. by destruct (same_value_zero k0 k').
    + destruct (map_delete k m) as [b m'] eqn:Hdel. simpl in *.
      destruct IH as (Hb & Hsub & Hdist & Hnone). split; [done|]. split.
      { intros e [->|He]%elem_of_cons; [by left | right; by apply Hsub]. }
      split.
      { intros [Hget Hm]. split; [by apply Hnone | by apply Hdist]. }
      intros k'. destruct (same_value_zero k0 k'); [done | by apply Hnone].
Qed.

Lemma entries_of_delete p m :
  distinct_keys m → entries_of p (map_delete (Some (JStr p)) m).2 = [].
Proof.
  unfold entries_of. induction m as [|[k0 v0] m IH]; simpl; [done|].
  intros [Hget Hm]. destruct (same_value_zero k0 (Some (JStr p))) eqn:Hk0; simpl.
  - apply same_value_zero_str in Hk0 as ->. by apply entries_of_None.
  - destruct (map_delete (Some (JStr p)) m) as [b m'] eqn:Hdel. simpl in *.
    rewrite filter_cons. simpl. rewrite Hk0. case_decide; [done|]. by apply IH.
Qed.

Lemma distinct_keys_filter (P : jsval * V → Prop) `{∀ e, Decision (P e)} m :
  distinct_keys m → distinct_keys (filter P m).
Proof.
  induction m as [|[k0 v0] m IH]; simpl; [done|].
  intros [Hget Hm]. rewrite filter_cons. case_decide; [|by apply IH].
  simpl. split; [|by apply IH].
  apply map_get_None. apply map_get_None in Hget.
  rewrite Forall_forall in Hget. apply Forall_forall.
  intros e [_ He]%list_elem_of_filter. by apply Hget.
Qed.

End JsMapFacts.

(** ** The registry *)

Section RegistryFacts.
Context `{Runtime}.
Implicit Types (reg : Rendezvous.registry) (r : Rendezvous.record).

Lemma roomKey_str (ns room : string) :
  Rendezvous.roomKey (JStr ns) (JStr room) = Some (ns +:+ "::" +:+ room).
Proof. done. Qed.

Lemma lookup_pruneExpired reg (now : Z) (key : string) :
  Rendezvous.pruneExpired reg now !! key
  = match reg !! key with
    | Some roomMap =>
        match filter (λ e, negb (Rendezvous.expired now e.2)) roomMap with
        | [] => None
        | kept => Some kept
        end
    | None => None
    end.
Proof.
  unfold Rendezvous.pruneExpired. rewrite lookup_omap.
  destruct (reg !! key) as [roomMap|]; simpl; [|done].
  by destruct (filter _ roomMap).
Qed.

Lemma pruneExpired_Some reg (now : Z) (key : string) (roomMap : jsmap Rendezvous.record) :
  Rendezvous.pruneExpired reg now !! key = Some roomMap
  ↔ roomMap ≠ []
    ∧ ∃ roomMap0, reg !! key = Some roomMap0
        ∧ roomMap = filter (λ e, negb (Rendezvous.expired now e.2)) roomMap0.
Proof.
  rewrite lookup_pruneExpired. destruct (reg !! key) as [roomMap0|].
  - destruct (filter _ roomMap0) as [|e kept] eqn:Hkept.
    + split; [done|]. intros (Hne & ? & [= <-] & ->). by rewrite Hkept in Hne.
    + split.
      * intros [= <-]. split; [done|]. by exists roomMap0.
      * intros (_ & ? & [= <-] & ->). by rewrite Hkept.
  - split; [done | by intros (_ & ? & ? & _)].
Qed.

(** C7 (as amended): after [pruneExpired(t)] no remaining record has
    [expiresAt <= t], so every remaining record whose [expiresAt] is a
    number (not [NaN]) has [expiresAt > t]; the remaining records are
    records of the registry before; every record with [expiresAt <= t] is
    gone and every other record is kept; and no room is left empty. *)
Theorem pruneExpired_spec reg (t : Z) :
  (∀ key roomMap e,
     Rendezvous.pruneExpired reg t !! key = Some roomMap → e ∈ roomMap →
     num_le (Rendezvous.expiresAt e.2) (Num t) = false
     ∧ (Rendezvous.expiresAt e.2 ≠ NaN → num_gt (Rendezvous.expiresAt e.2) (Num t) = true)
     ∧ ∃ roomMap0, reg !! key = Some roomMap0 ∧ e ∈ roomMap0)
  ∧ (∀ key roomMap0 e,
       reg !! key = Some roomMap0 → e ∈ roomMap0 →
       if num_le (Rendezvous.expiresAt e.2) (Num t)
       then ∀ roomMap, Rendezvous.pruneExpired reg t !! key = Some roomMap → e ∉ roomMap
       else ∃ roomMap, Rendezvous.pruneExpired reg t !! key = Some roomMap ∧ e ∈ roomMap)
  ∧ (∀ key, Rendezvous.pruneExpired reg t !! key ≠ Some []).
Proof.
  split; [|split].
  - intros key roomMap e (Hne & roomMap0 & Hreg & ->)%pruneExpired_Some Hin.
    apply list_elem_of_filter in Hin as [Hkeep Hin].
    apply Is_true_true, negb_true_iff in Hkeep. unfold Rendezvous.expired in Hkeep.
    split; [done|]. split; [|by exists roomMap0].
    intros Hnan. unfold num_gt. by apply num_le_false_lt.
  - intros key roomMap0 e Hreg Hin.
    destruct (num_le (Rendezvous.expiresAt e.2) (Num t)) eqn:Hle.
    + intros roomMap (_ & roomMap0' & Hreg' & ->)%pruneExpired_Some.
      intros [Hkeep _]%list_elem_of_filter.
      apply Is_true_true, negb_true_iff in Hkeep.
      unfold Rendezvous.expired in Hkeep. congruence.
    + assert (Hkept : e ∈ filter (λ e, negb (Rendezvous.expired t e.2)) roomMap0).
      { apply list_elem_of_filter. split; [|done].
        apply Is_true_true. unfold Rendezvous.expired. by rewrite Hle. }
      eexists. split; [|exact Hkept].
      apply pruneExpired_Some. split; [|by exists roomMap0].
      intros Hnil. rewrite Hnil in Hkept. by apply elem_of_nil in Hkept.
  - intros key (Hne & _)%pruneExpired_Some. done.
Qed.

Lemma register_inv reg (ns room : json) (p addrs : jsval) (ttl : option jsnum)
    (meta : jsval) (now : Z) reg' r :
  Rendezvous.register reg ns room p addrs ttl meta now = Some (reg', r) →
  ∃ key, Rendezvous.roomKey ns room = Some key
    ∧ reg' = <[key := map_set p r (default [] (reg !! key))]> reg
    ∧ Rendezvous.peerId r = p
    ∧ Rendezvous.seenAt r = now
    ∧ Rendezvous.expiresAt r = clock_add now (default (Num 60000) ttl).
Proof.
  unfold Rendezvous.register. destruct (Rendezvous.roomKey ns room) as [key|]; [|done].
  simpl. intros [= <- <-]. by exists key.
Qed.

Lemma register_stored reg (ns room : json) (p addrs : jsval) (ttl : option jsnum)
    (meta : jsval) (now : Z) reg' r :
  Rendezvous.register reg ns room p addrs ttl meta now = Some (reg', r) →
  ∃ key roomMap, Rendezvous.roomKey ns room = Some key
                 ∧ reg' !! key = Some roomMap ∧ (p, r) ∈ roomMap.
Proof.
  intros (key & Hkey & -> & _)%register_inv. eexists key, _.
  split; [done|]. split; [apply lookup_insert_eq | apply map_set_elem_any].
Qed.

Lemma removePeer_inv reg (ns room : json) (p : jsval) reg' (removed : bool) :
  Rendezvous.removePeer reg ns room p = Some (reg', removed) →
  ∃ key, Rendezvous.roomKey ns room = Some key
    ∧ match reg !! key with
      | None => reg' = reg ∧ removed = false
      | Some roomMap =>
          removed = (map_delete p roomMap).1
          ∧ reg' = match (map_delete p roomMap).2 with
                   | [] => delete key reg
                   | roomMap' => <[key := roomMap']> reg
                   end
      end.
Proof.
  unfold Rendezvous.removePeer. destruct (Rendezvous.roomKey ns room) as [key|]; [|done].
  simpl. intros Hrm. exists key. split; [done|].
  destruct (reg !! key) as [roomMap|]; [|by simplify_eq].
  destruct (map_delete p roomMap) as [b [|e roomMap']]; by simplify_eq.
Qed.

Lemma map_set_entries {V : Type} (k : jsval) (v : V) (m : jsmap V) (e : jsval * V) :
  e ∈ map_set k v m → e = (k, v) ∨ e ∈ m.
Proof.
  induction m as [|[k0 v0] m IH]; simpl.
  - intros ->%list_elem_of_singleton. by left.
  - destruct (same_value_zero k0 k) eqn:Hk0.
    + apply same_value_zero_eq in Hk0 as ->.
      intros [->|He]%elem_of_cons; [by left | right; by right].
    + intros [->|He]%elem_of_cons; [right; by left|].
      destruct (IH He) as [->|?]; [by left | right; by right].
Qed.

Lemma room_ok_set (p : jsval) r (roomMap : jsmap Rendezvous.record) :
  roomMap = [] ∨ room_ok roomMap →
  Rendezvous.peerId r = p →
  room_ok (map_set p r roomMap).
Proof.
  intros Hroom Hp. split; [apply map_set_not_nil|]. split.
  - apply distinct_keys_set. by destruct Hroom as [->|(_ & ? & _)].
  - apply Forall_forall. intros e [->|He]%map_set_entries; [done|].
    destruct Hroom as [->|(_ & _ & Hall)]; [by apply elem_of_nil in He|].
    rewrite Forall_forall in Hall. by apply Hall.
Qed.

Lemma registry_op_ok (T : jsnum → Z → Prop) reg reg' :
  registry_op T reg reg' → registry_ok reg → registry_ok reg'.
Proof.
  unfold registry_ok.
  destruct 1 as [reg|reg ns room p addrs ttl meta now reg' r _ Hreg
                |reg ns room p reg' removed Hrm|reg now]; intros Hok; [done|..].
  - apply register_inv in Hreg as (key & _ & -> & Hp & _).
    apply map_Forall_insert_2; [|done]. apply room_ok_set; [|done].
    destruct (reg !! key) as [roomMap|] eqn:Hkey; simpl; [right|by left].
    by apply (Hok key).
  - apply removePeer_inv in Hrm as (key & _ & Hrm).
    destruct (reg !! key) as [roomMap|] eqn:Hkey; [|by destruct Hrm as [-> _]].
    destruct Hrm as [_ ->].
    destruct (map_delete_spec p roomMap) as (_ & Hsub & Hdist & _).
    destruct (Hok key roomMap Hkey) as (_ & Hd & Hall).
    destruct (map_delete p roomMap).2 as [|e roomMap'] eqn:Hdel.
    { by apply map_Forall_delete. }
    apply map_Forall_insert_2; [|done]. split; [done|]. split; [by apply Hdist|].
    rewrite Forall_forall in Hall. apply Forall_forall. intros ??. by apply Hall, Hsub.
  - intros key roomMap (Hne & roomMap0 & Hkey & ->)%pruneExpired_Some.
    destruct (Hok key roomMap0 Hkey) as (_ & Hd & Hall).
    split; [done|]. split; [by apply distinct_keys_filter|].
    rewrite Forall_forall in Hall. apply Forall_forall.
    intros e [_ He]%list_elem_of_filter. by apply Hall.
Qed.

Lemma registry_op_all_records (T : jsnum → Z → Prop) (P : Rendezvous.record → Prop)
    reg reg' :
  registry_op T reg reg' →
  (∀ ns room p addrs ttl meta now reg1 r,
     T (default (Num 60000) ttl) now →
     Rendezvous.register reg ns room p addrs ttl meta now = Some (reg1, r) → P r) →
  all_records P reg → all_records P reg'.
Proof.
  unfold all_records.
  destruct 1 as [reg|reg ns room p addrs ttl meta now reg' r HT Hreg
                |reg ns room p reg' removed Hrm|reg now]; intros HP Hall; [done|..].
  - pose proof (HP _ _ _ _ _ _ _ _ _ HT Hreg) as Hr.
    apply register_inv in Hreg as (key & _ & -> & _).
    apply map_Forall_insert_2; [|done].
    apply Forall_forall. intros e [->|He]%map_set_entries; [done|].
    destruct (reg !! key) as [roomMap|] eqn:Hkey; simpl in He;
      [|by apply elem_of_nil in He].
    pose proof (Hall key roomMap Hkey) as Hroom.
    rewrite Forall_forall in Hroom. by apply Hroom.
  - apply removePeer_inv in Hrm as (key & _ & Hrm).
    destruct (reg !! key) as [roomMap|] eqn:Hkey; [|by destruct Hrm as [-> _]].
    destruct Hrm as [_ ->].
    destruct (map_delete_spec p roomMap) as (_ & Hsub & _).
    pose proof (Hall key roomMap Hkey) as Hroom. rewrite Forall_forall in Hroom.
    destruct (map_delete p roomMap).2 as [|e roomMap'] eqn:Hdel.
    { by apply map_Forall_delete. }
    apply map_Forall_insert_2; [|done].
    apply Forall_forall. intros ??. by apply Hroom, Hsub.
  - intros key roomMap (Hne & roomMap0 & Hkey & ->)%pruneExpired_Some.
    pose proof (Hall key roomMap0 Hkey) as Hroom. rewrite Forall_forall in Hroom.
    apply Forall_forall. intros e [_ He]%list_elem_of_filter. by apply Hroom.
Qed.

End RegistryFacts.

(** C7, as stated, fails: registered through the route with
    [ttlMs: 'soon'], a record has [expiresAt = NaN]; [pruneExpired(2000)]
    keeps it, and its [expiresAt > 2000] is false. *)
Lemma pruneExpired_keeps_NaN_record :
  let body := JObj (<["ttlMs" := JStr "soon"]> (<["peerId" := JStr "p"]>
                   (<["room" := JStr "r"]> (<["namespace" := JStr "n"]> ∅)))) in
  let R := runtime_reading body in
  let req := register_request in
  ∃ st r,
    Server.rendezvous_register (H := R) Server.default_config Server.initial req "body" 1000
    = (st, Server.Ok_record r)
    ∧ Rendezvous.expiresAt r = NaN
    ∧ Rendezvous.pruneExpired (Server.rendezvous st) 2000 !! "n::r"%string
      = Some [(Some (JStr "p"), r)]
    ∧ num_gt (Rendezvous.expiresAt r) (Num 2000) = false.
Proof. intros body R req. eexists _, _. split; [vm_compute; reflexivity|]. by vm_compute. Qed.

(** ** The server's events and the registry *)

(** Case analysis on the scrutinee of the first [match] or [if] of the goal. *)
Ltac case_scrutinee :=
  match goal with
  | |- context [match ?x with _ => _ end] =>
      lazymatch x with
      | context [match _ with _ => _ end] => fail
      | _ => destruct x eqn:?
      end
  end.

Section ServerRegistry.
Context `{Runtime}.
Variable cfg : Server.config.

Lemma allowConnection_rendezvous (st : Server.state) (ip : string) :
  Server.rendezvous (Server.allowConnection cfg st ip).2 = Server.rendezvous st.
Proof. unfold Server.allowConnection. by case_scrutinee. Qed.

Lemma decrementConnection_rendezvous (st : Server.state) (ip : string) :
  Server.rendezvous (Server.decrementConnection st ip) = Server.rendezvous st.
Proof. unfold Server.decrementConnection. by repeat case_scrutinee. Qed.

Lemma ensureRoom_rendezvous (st : Server.state) (ns room : string) :
  Server.rendezvous (Server.ensureRoom st ns room) = Server.rendezvous st.
Proof. unfold Server.ensureRoom. by case_scrutinee. Qed.

Lemma on_telemetry_rendezvous (st : Server.state) (message : json) :
  match Server.on_telemetry st message with
  | Server.Done st' _ | Server.Thrown st' _ =>
      Server.rendezvous st' = Server.rendezvous st
  end.
Proof. unfold Server.on_telemetry. by repeat case_scrutinee. Qed.

Lemma on_message_rendezvous (st : Server.state) (ws : nat) (raw : string)
    (t_rate t_stamp : Z) :
  match Server.on_message cfg st ws raw t_rate t_stamp with
  | Server.Done st' _ | Server.Thrown st' _ =>
      Server.rendezvous st' = Server.rendezvous st
  end.
Proof.
  unfold Server.on_message.
  destruct (Server.sockets st !! ws) as [w|]; [|done].
  pose proof (allowMessage_effect cfg st (Server.ws_clientIp w) t_rate)
    as (_ & _ & Hreg & _).
  destruct (Server.allowMessage cfg st (Server.ws_clientIp w) t_rate) as [ok st1].
  simpl in *. destruct ok; simpl; [|done].
  destruct (JSON_parse raw) as [message|]; [|done].
  destruct (strict_eq_str (get_prop message "type") "heartbeat") eqn:Hhb.
  { by destruct message. }
  destruct (strict_eq_str (get_prop message "type") "telemetry") eqn:Htel.
  { pose proof (on_telemetry_rendezvous
                  (Server.set_metrics Server.count_message st1) message) as Ht.
    destruct message; try done;
      by destruct (Server.on_telemetry _ _); rewrite Ht. }
  by destruct message.
Qed.

Lemma on_connection_rendezvous (st : Server.state) (ns room ip p : string)
    (t_register t_welcome : Z) :
  ∃ reg r,
    Rendezvous.register (Server.rendezvous st) (JStr ns) (JStr room) (Some (JStr p))
      (Some (JArr [JStr ip])) (Some (Num 60000))
      (Some (JObj (<["transport" := JStr "websocket"]> ∅))) t_register
    = Some (reg, r)
    ∧ Server.rendezvous (Server.on_connection st ns room ip p t_register t_welcome).1.1
      = reg.
Proof.
  unfold Server.on_connection. simpl. rewrite ensureRoom_rendezvous. simpl.
  by eexists _, _.
Qed.

Lemma step_registry_op (st st' : Server.state) (ev : Server.event) :
  Server.step cfg st ev = Some st' →
  registry_op (ttl_of_event ev) (Server.rendezvous st) (Server.rendezvous st').
Proof.
  destruct ev as [req t_id rnd t_register t_welcome|ws raw t_rate t_stamp|ws|ws
                 |req raw now|req now|now]; simpl.
  - (* upgrade *)
    intros [= <-]. unfold Server.on_upgrade.
    destruct (negb _); [constructor|].
    pose proof (allowConnection_rendezvous st (Server.ipOf req)) as Hconn.
    destruct (Server.allowConnection cfg st (Server.ipOf req)) as [ok st1].
    simpl in Hconn. destruct ok; [|simpl; rewrite Hconn; constructor].
    cbn [negb]. destruct (negb _); [simpl; rewrite Hconn; constructor|].
    destruct (Server.handshake req); [|simpl; rewrite Hconn; constructor..].
    match goal with
    | |- context [Server.on_connection ?s ?ns ?rm ?ip ?p ?t1 ?t2] =>
        destruct (on_connection_rendezvous s ns rm ip p t1 t2) as (reg & r & Hreg & Hst);
        destruct (Server.on_connection s ns rm ip p t1 t2) as [[st2 ws] out]
    end.
    simpl in *. subst reg. rewrite Hconn in Hreg.
    eapply op_register; [|exact Hreg]. done.
  - (* message *)
    destruct (Server.sockets st !! ws) as [w|]; [|intros [= <-]; constructor].
    destruct (Server.readyState w); try (intros [= <-]; constructor);
      pose proof (on_message_rendezvous st ws raw t_rate t_stamp) as Hm;
      destruct (Server.on_message cfg st ws raw t_rate t_stamp); intros [= <-];
      rewrite Hm; constructor.
  - (* closing *)
    destruct (Server.sockets st !! ws) as [w|]; [|intros [= <-]; constructor].
    destruct (Server.readyState w); intros [= <-]; constructor.
  - (* close *)
    destruct (Server.sockets st !! ws) as [w|] eqn:Hw; [|intros [= <-]; constructor].
    assert (Hclose : registry_op (ttl_of_event (Server.Close ws)) (Server.rendezvous st)
              (Server.rendezvous
                 (Server.on_close (Server.set_readyState ws Server.CLOSED st) ws))).
    { unfold Server.on_close. simpl. rewrite lookup_alter_eq, Hw. simpl.
      rewrite decrementConnection_rendezvous.
      destruct (Rendezvous.removePeer _ _ _ _) as [[reg removed]|] eqn:Hrm; simpl.
      - eapply op_removePeer. erewrite <- Hrm. f_equal. by repeat case_scrutinee.
      - repeat case_scrutinee; constructor. }
    destruct (Server.readyState w); intros [= <-]; try exact Hclose; constructor.
  - (* POST /rendezvous/register *)
    intros [= <-]. unfold Server.rendezvous_register.
    destruct (negb _); [constructor|].
    destruct (Server.parseJsonBody raw) as [body|] eqn:Hbody; simpl; [|constructor].
    destruct (Server.register_body (Server.rendezvous st) body now)
      as [[reg r]|] eqn:Hreg; simpl; [|constructor].
    unfold Server.register_body in Hreg.
    destruct (Server.ttlMs_of body) as [ttl|] eqn:Httl; simpl in Hreg;
      [|by destruct body].
    eapply (op_register _ _ _ _ _ _ (Some ttl)).
    + simpl. split; [done|]. by exists body.
    + destruct body; try done; exact Hreg.
  - (* GET /rendezvous/discover *)
    intros [= <-]. unfold Server.rendezvous_discover, Rendezvous.discover.
    rewrite roomKey_str. simpl.
    destruct (Rendezvous.pruneExpired (Server.rendezvous st) now !! _); simpl;
      constructor.
  - (* prune *)
    intros [= <-]. simpl. constructor.
Qed.

End ServerRegistry.

(** ** Expiry of registered records *)

Section Expiry.
Context `{Runtime}.
Variable cfg : Server.config.

Lemma run_all_records (P : Rendezvous.record → Prop) (evs : list Server.event)
    (st st' : Server.state) :
  (∀ reg ns room p addrs ttl meta now reg1 r ev,
     ev ∈ evs → ttl_of_event ev (default (Num 60000) ttl) now →
     Rendezvous.register reg ns room p addrs ttl meta now = Some (reg1, r) → P r) →
  Server.run cfg st evs = Some st' →
  all_records P (Server.rendezvous st) →
  all_records P (Server.rendezvous st').
Proof.
  revert st. induction evs as [|ev evs IH]; intros st HP; simpl.
  - by intros [= <-].
  - destruct (Server.step cfg st ev) as [st1|] eqn:Hstep; simpl; [|done].
    intros Hrun Hall. apply (IH st1); [|done|].
    + intros ??????????? Hin. apply HP. by right.
    + eapply registry_op_all_records; [exact (step_registry_op cfg _ _ _ Hstep)| |done].
      intros ?????????. apply HP. by left.
Qed.

Lemma lasting_expires_after_seen (ttl : jsnum) (now : Z) :
  lasting ttl now → num_gt (clock_add now ttl) (Num now) = true.
Proof.
  intros [(z & -> & Hz)|[Hnow Httl]]; [|by apply clock_add_after].
  unfold clock_add. destruct (Z.leb_spec (Z.abs z) 367199254740992); [|lia].
  apply Z.ltb_lt. lia.
Qed.

(** C6 (as amended): [register] stores [seenAt = now] and, as [expiresAt],
    the double that [now + ttlMs] gives.  For a whole number of
    milliseconds of magnitude up to [2 ^ 53 - 8.64e15] that is the exact
    sum, so [expiresAt > seenAt] holds exactly when the number is positive.
    At a reading of the clock, [expiresAt > seenAt] holds for every time to
    live of at least one millisecond and fails for every one that is not
    positive ([NaN] included); between the two the rounding of the sum
    decides, and a ten-thousandth of a millisecond at 1 700 000 000 000 is
    stored with [expiresAt = seenAt].  A sum that is no double is rounded
    to the nearest one, the even one of two: [2 ^ 53] milliseconds at 1001
    are stored with [expiresAt = 9007199254741992], one less than the
    sum.  In every state the server reaches by
    events whose registrations all carry a lasting time to live (the
    handshake's 60 000 always is), every record of the registry has
    [expiresAt > seenAt]. *)
Theorem register_expiry :
  (∀ reg ns room p addrs ttl meta now reg' r,
     Rendezvous.register reg ns room p addrs ttl meta now = Some (reg', r) →
     (∃ key roomMap, reg' !! key = Some roomMap ∧ (p, r) ∈ roomMap)
     ∧ Rendezvous.seenAt r = now
     ∧ Rendezvous.expiresAt r = clock_add now (default (Num 60000) ttl)
     ∧ (clock_reading now →
        Rendezvous.expiresAt r = num_add (Num now) (default (Num 60000) ttl))
     ∧ (∀ z, default (Num 60000) ttl = Num z → Z.abs z ≤ 367199254740992 →
             Rendezvous.expiresAt r = Num (now + z)
             ∧ (expires_after_seen r ↔ 0 < z))
     ∧ (clock_reading now → num_ge (default (Num 60000) ttl) (Num 1) = true →
        expires_after_seen r)
     ∧ (clock_reading now → num_gt (default (Num 60000) ttl) (Num 0) = false →
        ¬ expires_after_seen r))
  ∧ (∀ reg p addrs meta,
       ∃ reg' r,
         Rendezvous.register reg (JStr "n") (JStr "r") p addrs
           (Some (Frac 3689348814741910 66)) meta 1700000000000 = Some (reg', r)
         ∧ num_gt (Frac 3689348814741910 66) (Num 0) = true
         ∧ Rendezvous.expiresAt r = Num (Rendezvous.seenAt r))
  ∧ (∀ reg p addrs meta,
       ∃ reg' r,
         Rendezvous.register reg (JStr "n") (JStr "r") p addrs
           (Some (Num 9007199254740992)) meta 1001 = Some (reg', r)
         ∧ Rendezvous.expiresAt r = Num 9007199254741992
         ∧ Rendezvous.expiresAt r = num_add (Num 1001) (Num 9007199254740992))
  ∧ (∀ evs st,
       Server.run cfg Server.initial evs = Some st →
       Forall (λ ev, ∀ ttl now, ttl_of_event ev ttl now → lasting ttl now) evs →
       all_records expires_after_seen (Server.rendezvous st)).
Proof.
  split; [|split; [|split]].
  - intros reg ns room p addrs ttl meta now reg' r Hreg.
    split.
    { apply register_stored in Hreg as (key & roomMap & _ & ? & ?).
      by exists key, roomMap. }
    apply register_inv in Hreg as (key & _ & _ & _ & Hseen & Hexp).
    split; [done|]. split; [done|].
    unfold expires_after_seen. rewrite Hexp, Hseen.
    split; [|split; [|split]].
    + intros Hnow. apply clock_add_num_add. unfold clock_reading in Hnow. lia.
    + intros z -> Hz. unfold clock_add.
      destruct (Z.leb_spec (Z.abs z) 367199254740992); [|lia].
      split; [done|]. unfold num_gt, num_lt. rewrite Z.ltb_lt. lia.
    + intros Hnow Httl. by apply clock_add_after.
    + intros Hnow Httl. by rewrite clock_add_not_after.
  - intros reg p addrs meta. eexists _, _. split; [reflexivity|]. by vm_compute.
  - intros reg p addrs meta. eexists _, _. split; [reflexivity|]. by vm_compute.
  - intros evs st Hrun Hpos. eapply run_all_records; [|exact Hrun|].
    + intros reg ns room p addrs ttl meta now reg1 r ev Hev Httl
        (key & _ & _ & _ & Hseen & Hexp)%register_inv.
      unfold expires_after_seen. rewrite Hexp, Hseen.
      apply lasting_expires_after_seen.
      rewrite Forall_forall in Hpos. by apply (Hpos ev).
    + apply map_Forall_empty.
Qed.

(** X2: in every state the server reaches, the registry is well formed: no
    room is empty, no room holds two records under the same peer id, and
    each record is stored under its own peer id. *)
Theorem registry_ok_reachable (evs : list Server.event) (st : Server.state) :
  Server.run cfg Server.initial evs = Some st →
  registry_ok (Server.rendezvous st).
Proof.
  assert (Hgen : ∀ st0, registry_ok (Server.rendezvous st0) →
                        Server.run cfg st0 evs = Some st →
                        registry_ok (Server.rendezvous st)).
  { induction evs as [|ev evs IH]; intros st0 Hok; simpl.
    - by intros [= <-].
    - destruct (Server.step cfg st0 ev) as [st1|] eqn:Hstep; simpl; [|done].
      apply IH. eapply registry_op_ok; [|exact Hok].
      exact (step_registry_op cfg _ _ _ Hstep). }
  apply Hgen. apply map_Forall_empty.
Qed.

Lemma falsy_cases (v : jsval) :
  Server.jsval_truthy v = false
  ↔ v = None ∨ v = Some JNull ∨ v = Some (JBool false)
    ∨ v = Some (JNum (Num 0)) ∨ v = Some (JNum NaN) ∨ v = Some (JStr "").
Proof.
  split.
  - destruct v as [[|[]|[| |[| |]| |]|s| |]|]; simpl; intros Hv; try done; auto 7.
    apply negb_false_iff, String.eqb_eq in Hv as ->. auto 7.
  - by intros [->|[->|[->|[->|[->| ->]]]]].
Qed.

Lemma ttlMs_of_falsy (body : json) :
  Server.jsval_truthy (get_prop body "ttlMs") = false →
  Server.ttlMs_of body = Some (Num 60000).
Proof.
  unfold Server.ttlMs_of, or_else, Server.jsval_truthy.
  destruct (get_prop body "ttlMs") as [v|]; [|done]. by intros ->.
Qed.

Lemma ttlMs_of_truthy (body v : json) :
  get_prop body "ttlMs" = Some v → truthy v = true →
  Server.ttlMs_of body = Number v.
Proof. unfold Server.ttlMs_of, or_else. by intros -> ->. Qed.

Lemma truthy_number (x : jsnum) : truthy (JNum x) = true ↔ x ≠ Num 0 ∧ x ≠ NaN.
Proof.
  destruct x as [| |[| |]| |]; simpl; split; try done; try by intros [??].
Qed.

(** C10 (as amended): when [POST /rendezvous/register] stores a record, its
    time to live is [Number(body.ttlMs || 60_000)] and it expires at the
    double that [now] plus that number gives.  For a falsy [ttlMs] (absent,
    [null], [false], [0], [NaN] or the empty string) that is 60 000, not
    the supplied value.  Every other [ttlMs] is converted and handed to the
    registry: a number other than zero and [NaN] unchanged, negative and
    fractional ones included, and these are the only numbers that arrive
    unchanged; [true] as 1; a non-empty string as the number it spells,
    which is zero for some strings; an array or an object as its numeric
    conversion.  A whole number of milliseconds of magnitude up to
    [2 ^ 53 - 8.64e15] is added exactly. *)
Theorem register_route_ttl (st st' : Server.state) (req : Server.request)
    (raw : string) (body : json) (now : Z) (r : Rendezvous.record) :
  Server.parseJsonBody raw = Some body →
  Server.rendezvous_register cfg st req raw now = (st', Server.Ok_record r) →
  (∃ key roomMap, Server.rendezvous st' !! key = Some roomMap
                  ∧ (get_prop body "peerId", r) ∈ roomMap)
  ∧ Rendezvous.seenAt r = now
  ∧ (∃ ttl, Server.ttlMs_of body = Some ttl
            ∧ Rendezvous.expiresAt r = clock_add now ttl
            ∧ (clock_reading now → Rendezvous.expiresAt r = num_add (Num now) ttl)
            ∧ ∀ z, ttl = Num z → Z.abs z ≤ 367199254740992 →
                   Rendezvous.expiresAt r = Num (now + z))
  ∧ (get_prop body "ttlMs" = None ∨ get_prop body "ttlMs" = Some JNull
     ∨ get_prop body "ttlMs" = Some (JBool false)
     ∨ get_prop body "ttlMs" = Some (JNum (Num 0))
     ∨ get_prop body "ttlMs" = Some (JNum NaN)
     ∨ get_prop body "ttlMs" = Some (JStr "") →
     Server.ttlMs_of body = Some (Num 60000)
     ∧ Rendezvous.expiresAt r = Num (now + 60000))
  ∧ (∀ x, get_prop body "ttlMs" = Some (JNum x) →
          Server.ttlMs_of body = Some x ↔ x ≠ Num 0 ∧ x ≠ NaN)
  ∧ (get_prop body "ttlMs" = Some (JBool true) → Server.ttlMs_of body = Some (Num 1))
  ∧ (∀ s, get_prop body "ttlMs" = Some (JStr s) → s ≠ ""%string →
          Server.ttlMs_of body = Some (StringToNumber s))
  ∧ (∀ v, get_prop body "ttlMs" = Some v →
          (∃ l, v = JArr l) ∨ (∃ m, v = JObj m) →
          Server.ttlMs_of body = Object_toNumber v).
Proof.
  intros Hbody Hroute. unfold Server.rendezvous_register in Hroute.
  destruct (negb _); [done|]. rewrite Hbody in Hroute. simpl in Hroute.
  destruct (Server.register_body (Server.rendezvous st) body now)
    as [[reg r']|] eqn:Hreg; [|done].
  injection Hroute as <- <-.
  unfold Server.register_body in Hreg.
  destruct (Server.ttlMs_of body) as [ttl|] eqn:Httl; [|by destruct body].
  assert (Hr : (∃ key roomMap, reg !! key = Some roomMap
                               ∧ (get_prop body "peerId", r') ∈ roomMap)
               ∧ Rendezvous.seenAt r' = now
               ∧ Rendezvous.expiresAt r' = clock_add now ttl).
  { destruct body; try done;
      (split;
       [apply register_stored in Hreg as (key & roomMap & _ & ? & ?);
        by exists key, roomMap
       |by apply register_inv in Hreg as (key & _ & _ & _ & ? & ?)]). }
  destruct Hr as (Hstored & Hseen & Hexp).
  assert (Hexact : ∀ z, ttl = Num z → Z.abs z ≤ 367199254740992 →
                        Rendezvous.expiresAt r' = Num (now + z)).
  { intros z -> Hz. rewrite Hexp. unfold clock_add.
    by destruct (Z.leb_spec (Z.abs z) 367199254740992); [|lia]. }
  split; [done|]. split; [done|]. split.
  { exists ttl. split; [done|]. split; [done|]. split; [|done].
    intros Hnow. rewrite Hexp. apply clock_add_num_add. unfold clock_reading in Hnow. lia. }
  split; [|split; [|split; [|split]]].
  - intros Hfalsy%falsy_cases%ttlMs_of_falsy.
    rewrite Httl in Hfalsy. injection Hfalsy as ->.
    split; [done|]. apply Hexact; [done|lia].
  - intros x Hget. destruct (truthy (JNum x)) eqn:Hx.
    + rewrite (ttlMs_of_truthy body _ Hget Hx) in Httl. simpl in Httl.
      split; [by intros _; apply truthy_number | done].
    + assert (Hfalsy : Server.jsval_truthy (get_prop body "ttlMs") = false)
        by (by rewrite Hget).
      apply ttlMs_of_falsy in Hfalsy.
      rewrite Httl in Hfalsy. injection Hfalsy as ->.
      split.
      * intros [= <-]. done.
      * intros Htruthy%truthy_number. congruence.
  - intros Hget. by rewrite <- Httl, (ttlMs_of_truthy body _ Hget).
  - intros s Hget Hs. rewrite <- Httl, (ttlMs_of_truthy body _ Hget); [done|].
    simpl. by apply negb_true_iff, String.eqb_neq.
  - intros v Hget Hv. rewrite <- Httl, (ttlMs_of_truthy body _ Hget).
    + by destruct Hv as [[l ->]|[m ->]].
    + by destruct Hv as [[l ->]|[m ->]].
Qed.

End Expiry.

(** C6, as stated, fails: registered through the route with [ttlMs: -1] at
    clock reading 1000, the stored record has [seenAt = 1000] and
    [expiresAt = 999], so [expiresAt > seenAt] is false. *)
Lemma register_negative_ttl_expires_before_seen :
  let body := JObj (<["ttlMs" := JNum (-1)]> (<["peerId" := JStr "p"]>
                   (<["room" := JStr "r"]> (<["namespace" := JStr "n"]> ∅)))) in
  let R := runtime_reading body in
  let req := register_request in
  ∃ st r,
    Server.run (H := R) Server.default_config Server.initial
      [Server.PostRegister req "body" 1000] = Some st
    ∧ Server.rendezvous st !! "n::r"%string = Some [(Some (JStr "p"), r)]
    ∧ Rendezvous.seenAt r = 1000
    ∧ Rendezvous.expiresAt r = Num 999
    ∧ num_gt (Rendezvous.expiresAt r) (Num (Rendezvous.seenAt r)) = false.
Proof. intros body R req. eexists _, _. split; [vm_compute; reflexivity|]. by vm_compute. Qed.

(** C10, as stated, fails: registered through the route with
    [ttlMs: '0'], a string, which is truthy, the registry is handed the
    time to live [Number('0')], which is zero, and the record it stores at
    clock reading 1000 has [expiresAt = 1000]: it is expired from the
    start. *)
Lemma register_text_zero_ttl_expires_at_once :
  let body := JObj (<["ttlMs" := JStr "0"]> (<["peerId" := JStr "p"]>
                   (<["room" := JStr "r"]> (<["namespace" := JStr "n"]> ∅)))) in
  let R := runtime_reading body in
  let req := register_request in
  ∃ st r,
    Server.run (H := R) Server.default_config Server.initial
      [Server.PostRegister req "body" 1000] = Some st
    ∧ Server.rendezvous st !! "n::r"%string = Some [(Some (JStr "p"), r)]
    ∧ Server.jsval_truthy (get_prop body "ttlMs") = true
    ∧ Server.ttlMs_of (H := R) body = Some (Num 0)
    ∧ Rendezvous.seenAt r = 1000
    ∧ Rendezvous.expiresAt r = Num 1000
    ∧ Rendezvous.expired 1000 r = true
    ∧ Rendezvous.pruneExpired (Server.rendezvous st) 1000 = ∅.
Proof. intros body R req. eexists _, _. split; [vm_compute; reflexivity|]. by vm_compute. Qed.

(** ** Register, discover, remove *)

Section RoundTrip.
Context `{Runtime}.
Implicit Types (reg : Rendezvous.registry) (r : Rendezvous.record).

Lemma insert_desc_Permutation r (l : list Rendezvous.record) :
  Rendezvous.insert_desc r l ≡ₚ r :: l.
Proof.
  induction l as [|y l IH]; simpl; [done|].
  destruct (Rendezvous.seenAt r <? Rendezvous.seenAt y); [|done].
  by rewrite IH, Permutation_swap.
Qed.

Lemma sort_desc_Permutation (l : list Rendezvous.record) :
  Rendezvous.sort_desc l ≡ₚ l.
Proof.
  unfold Rendezvous.sort_desc. induction l as [|x l IH]; simpl; [done|].
  by rewrite insert_desc_Permutation, IH.
Qed.

Lemma slice0_sublist {A : Type} (limit : jsnum) (l : list A) :
  slice0 limit l `sublist_of` l.
Proof.
  assert (Hto : ∀ z, slice_to z l `sublist_of` l).
  { intros z. unfold slice_to. destruct (z <? 0); apply sublist_take. }
  destruct limit as [| |z|n k|]; simpl; try apply sublist_nil_l; done.
Qed.

Lemma count_peer_sublist (p : string) (l k : list Rendezvous.record) :
  l `sublist_of` k → (count_peer p l ≤ count_peer p k)%nat.
Proof.
  intros Hsub. unfold count_peer. apply sublist_length.
  induction Hsub as [|x l k _ IH|x l k _ IH]; [done|..]; rewrite !filter_cons.
  - case_decide; [by apply sublist_skip | done].
  - case_decide; [by apply sublist_cons | done].
Qed.

Lemma count_peer_values (p : string) (m : jsmap Rendezvous.record) :
  Forall (λ e, Rendezvous.peerId e.2 = e.1) m →
  count_peer p (map_values m) = length (entries_of p m).
Proof.
  unfold count_peer, entries_of, map_values.
  induction 1 as [|[k r] m Hk _ IH]; [done|].
  rewrite fmap_cons, !filter_cons. simpl in *. rewrite Hk.
  case_decide; simpl; by rewrite IH.
Qed.

Lemma entries_of_filter {V : Type} (p : string) (Q : jsval * V → Prop)
    `{∀ e, Decision (Q e)} (m : jsmap V) :
  entries_of p (filter Q m) = filter Q (entries_of p m).
Proof.
  unfold entries_of. induction m as [|e m IH]; [done|].
  rewrite !filter_cons. repeat case_decide; rewrite ?filter_cons;
    repeat case_decide; try done; by rewrite IH.
Qed.

Lemma entries_of_elem {V : Type} (p : string) (m : jsmap V) (e : jsval * V) :
  e ∈ entries_of p m → e ∈ m.
Proof. by intros [_ ?]%list_elem_of_filter. Qed.

Lemma map_get_entries_of {V : Type} (p : string) (m : jsmap V) :
  is_Some (map_get (Some (JStr p)) m) ↔ entries_of p m ≠ [].
Proof.
  unfold entries_of. induction m as [|[k v] m IH]; simpl.
  - split; [by intros [? ?] | done].
  - rewrite filter_cons. simpl.
    by destruct (same_value_zero k (Some (JStr p))); case_decide.
Qed.

Lemma discover_str reg (ns room : string) (limit : option jsnum) (t : Z) :
  Rendezvous.discover reg (JStr ns) (JStr room) limit t
  = Some (Rendezvous.pruneExpired reg t,
          match Rendezvous.pruneExpired reg t !! (ns +:+ "::" +:+ room) with
          | None => []
          | Some roomMap =>
              slice0 (default (Num 32) limit) (Rendezvous.sort_desc (map_values roomMap))
          end).
Proof.
  unfold Rendezvous.discover. rewrite roomKey_str. simpl.
  by destruct (Rendezvous.pruneExpired reg t !! _).
Qed.

Lemma slice0_covers {A : Type} (limit : option jsnum) (l : list A) (n : nat) :
  limit_covers limit n → (length l ≤ n)%nat → slice0 (default (Num 32) limit) l = l.
Proof.
  assert (Hto : ∀ z, Z.of_nat n ≤ z → (length l ≤ n)%nat → slice_to z l = l).
  { intros z Hz Hl. unfold slice_to. destruct (Z.ltb_spec z 0); [lia|].
    apply take_ge. lia. }
  unfold limit_covers.
  destruct (default (Num 32) limit) as [| |z|m k|]; cbn [slice0]; try done; apply Hto.
Qed.

(** What [discover] finds for [p] in a well-formed registry: as many
    records as the room holds unexpired entries under [p], unless the limit
    cuts them off. *)
Lemma discover_count reg (ns room p : string) (limit : option jsnum) (t : Z)
    (roomMap : jsmap Rendezvous.record) :
  registry_ok reg →
  reg !! (ns +:+ "::" +:+ room) = Some roomMap →
  ∃ reg' found,
    Rendezvous.discover reg (JStr ns) (JStr room) limit t = Some (reg', found)
    ∧ (count_peer p found
       ≤ length (filter (λ e, negb (Rendezvous.expired t e.2)) (entries_of p roomMap)))%nat
    ∧ (limit_covers limit (length roomMap) →
       count_peer p found
       = length (filter (λ e, negb (Rendezvous.expired t e.2)) (entries_of p roomMap))
       ∧ ∀ e, e ∈ entries_of p roomMap → Rendezvous.expired t e.2 = false → e.2 ∈ found).
Proof.
  intros Hok Hroom. rewrite discover_str. eexists _, _. split; [done|].
  destruct (Hok _ _ Hroom) as (_ & _ & Hkeys).
  rewrite lookup_pruneExpired, Hroom.
  set (kept := filter (λ e, negb (Rendezvous.expired t e.2)) roomMap).
  assert (Hcount : count_peer p (Rendezvous.sort_desc (map_values kept))
                   = length (filter (λ e, negb (Rendezvous.expired t e.2))
                               (entries_of p roomMap))).
  { unfold count_peer. rewrite sort_desc_Permutation. fold (count_peer p (map_values kept)).
    unfold kept. rewrite count_peer_values, entries_of_filter; [done|].
    rewrite Forall_forall in Hkeys. apply Forall_forall.
    intros e [_ He]%list_elem_of_filter. by apply Hkeys. }
  assert (Hfound : ∀ e, e ∈ entries_of p roomMap → Rendezvous.expired t e.2 = false →
                        e.2 ∈ Rendezvous.sort_desc (map_values kept)).
  { intros e He Hexp. rewrite sort_desc_Permutation. unfold map_values.
    apply list_elem_of_fmap. exists e. split; [done|].
    apply list_elem_of_filter. split; [|by eapply entries_of_elem].
    apply Is_true_true. by rewrite Hexp. }
  assert (Hlen : (length (Rendezvous.sort_desc (map_values kept)) ≤ length roomMap)%nat).
  { rewrite sort_desc_Permutation. unfold map_values. rewrite length_fmap.
    apply length_filter. }
  destruct kept as [|e0 kept'] eqn:Hkept.
  - simpl in *. split; [lia|]. intros _. split; [done|].
    intros e He Hexp. by apply Hfound.
  - split.
    + rewrite <- Hcount. apply count_peer_sublist, slice0_sublist.
    + intros Hcov. by rewrite (slice0_covers _ _ _ Hcov Hlen).
Qed.






Lemma register_str reg (ns room p : string) (addrs : jsval) (ttl : option jsnum)
    (meta : jsval) (t : Z) :
  registry_ok reg →
  ∃ reg' r roomMap,
    Rendezvous.register reg (JStr ns) (JStr room) (Some (JStr p)) addrs ttl meta t
    = Some (reg', r)
    ∧ registry_ok reg'
    ∧ reg' !! (ns +:+ "::" +:+ room) = Some roomMap
    ∧ entries_of p roomMap = [(Some (JStr p), r)]
    ∧ Rendezvous.peerId r = Some (JStr p)
    ∧ Rendezvous.seenAt r = t
    ∧ Rendezvous.expiresAt r = clock_add t (default (Num 60000) ttl).
Proof.
  intros Hok.
  destruct (Rendezvous.register reg (JStr ns) (JStr room) (Some (JStr p)) addrs ttl meta t)
    as [[reg' r]|] eqn:Hreg; [|done].
  assert (Hop : registry_op (λ _ _, True) reg reg') by (by eapply op_register).
  pose proof (registry_op_ok _ _ _ Hop Hok) as Hok'.
  apply register_inv in Hreg as (key & Hkey & -> & Hp & Hseen & Hexp).
  rewrite roomKey_str in Hkey. injection Hkey as <-.
  eexists _, _, _. split; [done|]. split; [done|].
  split; [apply lookup_insert_eq|]. split; [|done].
  apply entries_of_set.
  destruct (reg !! (ns +:+ "::" +:+ room)) as [roomMap|] eqn:Hroom; simpl; [|done].
  by destruct (Hok _ _ Hroom) as (_ & ? & _).
Qed.

Lemma removePeer_str reg (ns room : string) (p : jsval) :
  ∃ reg' removed,
    Rendezvous.removePeer reg (JStr ns) (JStr room) p = Some (reg', removed).
Proof.
  unfold Rendezvous.removePeer. rewrite roomKey_str. simpl.
  destruct (reg !! _) as [roomMap|]; [|by eexists _, _].
  destruct (map_delete p roomMap) as [b [|e roomMap']]; by eexists _, _.
Qed.

(** C8 (as amended): in a well-formed registry, [register] of the peer [p]
    leaves exactly one record under [p] in the room, the one just stored,
    with [seenAt] the time of this call, also when [p] was registered
    before.  While that record is unexpired, [discover] returns a list in
    which [p] appears exactly once provided the limit does not cut the
    room's records (it is [Infinity], or at least the number of records in
    the room; the default is 32), and with any limit one in which [p]
    appears at most once.  After [removePeer], which then returns [true],
    [p] does not appear in [discover].  [removePeer] returns [true] iff a
    record of [p] existed. *)
Theorem register_discover_removePeer reg (ns room p : string) (addrs : jsval)
    (ttl : option jsnum) (meta : jsval) (t0 : Z) :
  registry_ok reg →
  (∃ reg1 r roomMap,
     Rendezvous.register reg (JStr ns) (JStr room) (Some (JStr p)) addrs ttl meta t0
     = Some (reg1, r)
     ∧ registry_ok reg1
     ∧ reg1 !! (ns +:+ "::" +:+ room) = Some roomMap
     ∧ entries_of p roomMap = [(Some (JStr p), r)]
     ∧ Rendezvous.seenAt r = t0
     ∧ (∀ addrs' ttl' meta' t2, ∃ reg2 r2 roomMap2,
          Rendezvous.register reg1 (JStr ns) (JStr room) (Some (JStr p)) addrs' ttl' meta' t2
          = Some (reg2, r2)
          ∧ reg2 !! (ns +:+ "::" +:+ room) = Some roomMap2
          ∧ entries_of p roomMap2 = [(Some (JStr p), r2)]
          ∧ Rendezvous.seenAt r2 = t2)
     ∧ (∀ limit t1, Rendezvous.expired t1 r = false →
          ∃ reg2 found,
            Rendezvous.discover reg1 (JStr ns) (JStr room) limit t1 = Some (reg2, found)
            ∧ (count_peer p found ≤ 1)%nat
            ∧ (limit_covers limit (length roomMap) →
               count_peer p found = 1%nat ∧ r ∈ found))
     ∧ (∃ reg3,
          Rendezvous.removePeer reg1 (JStr ns) (JStr room) (Some (JStr p)) = Some (reg3, true)
          ∧ ∀ limit t1, ∃ reg4 found,
              Rendezvous.discover reg3 (JStr ns) (JStr room) limit t1 = Some (reg4, found)
              ∧ count_peer p found = 0%nat))
  ∧ (∃ reg' removed,
       Rendezvous.removePeer reg (JStr ns) (JStr room) (Some (JStr p)) = Some (reg', removed)
       ∧ (removed = true
          ↔ ∃ roomMap r0, reg !! (ns +:+ "::" +:+ room) = Some roomMap
                          ∧ map_get (Some (JStr p)) roomMap = Some r0)).
Proof.
  intros Hok. split.
  - destruct (register_str reg ns room p addrs ttl meta t0 Hok)
      as (reg1 & r & roomMap & Hreg & Hok1 & Hroom & Hentries & _ & Hseen & _).
    exists reg1, r, roomMap. do 5 (split; [done|]). split; [|split].
    + intros addrs' ttl' meta' t2.
      destruct (register_str reg1 ns room p addrs' ttl' meta' t2 Hok1)
        as (reg2 & r2 & roomMap2 & Hreg2 & _ & Hroom2 & Hentries2 & _ & Hseen2 & _).
      by exists reg2, r2, roomMap2.
    + intros limit t1 Hexp.
      destruct (discover_count reg1 ns room p limit t1 roomMap Hok1 Hroom)
        as (reg2 & found & Hdisc & Hle & Hinf).
      exists reg2, found. split; [done|].
      rewrite Hentries, filter_cons in Hle, Hinf. simpl in Hle, Hinf.
      rewrite Hexp in Hle, Hinf. simpl in Hle, Hinf.
      split; [done|].
      intros Hlim. destruct (Hinf Hlim) as [Hcount Hfound]. split; [done|].
      apply (Hfound (Some (JStr p), r)); [by left | done].
    + destruct (removePeer_str reg1 ns room (Some (JStr p))) as (reg3 & removed & Hrm).
      rewrite Hrm.
      assert (Hop : registry_op (λ _ _, True) reg1 reg3) by (by eapply op_removePeer).
      pose proof (registry_op_ok _ _ _ Hop Hok1) as Hok3.
      apply removePeer_inv in Hrm as (key & Hkey & Hrm).
      rewrite roomKey_str in Hkey. injection Hkey as <-.
      rewrite Hroom in Hrm. destruct Hrm as [Hremoved Hreg3].
      destruct (map_delete_spec (Some (JStr p)) roomMap) as (Hb & _).
      assert (Hsome : is_Some (map_get (Some (JStr p)) roomMap)).
      { apply map_get_entries_of. by rewrite Hentries. }
      rewrite Hb, bool_decide_eq_true_2 in Hremoved by done. subst removed.
      exists reg3. split; [done|]. intros limit t1.
      destruct (Hok1 _ _ Hroom) as (_ & Hdist & _).
      pose proof (entries_of_delete p roomMap Hdist) as Hgone.
      destruct (map_delete (Some (JStr p)) roomMap).2 as [|e roomMap'] eqn:Hdel.
      * subst reg3. rewrite discover_str. eexists _, _. split; [done|].
        by rewrite lookup_pruneExpired, lookup_delete_eq.
      * assert (Hroom3 : reg3 !! (ns +:+ "::" +:+ room) = Some (e :: roomMap'))
          by (subst reg3; apply lookup_insert_eq).
        destruct (discover_count reg3 ns room p limit t1 _ Hok3 Hroom3)
          as (reg4 & found & Hdisc & Hle & _).
        exists reg4, found. split; [done|]. rewrite Hgone in Hle. simpl in Hle. lia.
  - destruct (removePeer_str reg ns room (Some (JStr p))) as (reg' & removed & Hrm).
    exists reg', removed. split; [done|].
    apply removePeer_inv in Hrm as (key & Hkey & Hrm).
    rewrite roomKey_str in Hkey. injection Hkey as <-.
    destruct (reg !! (ns +:+ "::" +:+ room)) as [roomMap|] eqn:Hroom.
    + destruct Hrm as [-> _].
      destruct (map_delete_spec (Some (JStr p)) roomMap) as (-> & _).
      rewrite bool_decide_eq_true. split.
      * intros [r0 Hr0]. by exists roomMap, r0.
      * intros (? & r0 & [= <-] & Hr0). by exists r0.
    + destruct Hrm as [_ ->]. split; [done|]. by intros (? & ? & ? & _).
Qed.

End RoundTrip.

(** C8, as stated, fails for [discover(ns, room)] with its default limit
    of 32: when 32 peers and then [p] have registered in one room within the
    same millisecond, [discover] returns 32 records and none of them is
    [p]'s, although [p]'s record is stored and unexpired. *)
Lemma discover_default_limit_misses_peer :
  let R := demo_runtime in
  let join reg (q : string) :=
    match Rendezvous.register (H := R) reg (JStr "n") (JStr "r") (Some (JStr q))
            None None None 1000 with
    | Some (reg', _) => reg'
    | None => reg
    end in
  let others := (λ i : nat, ("q" +:+ pretty i)%string) <$> seq 0 32 in
  let reg := foldl join Rendezvous.empty others in
  ∃ reg1 r reg2 found,
    Rendezvous.register (H := R) reg (JStr "n") (JStr "r") (Some (JStr "p"))
      None None None 1000 = Some (reg1, r)
    ∧ Rendezvous.expired 1001 r = false
    ∧ Rendezvous.discover (H := R) reg1 (JStr "n") (JStr "r") None 1001
      = Some (reg2, found)
    ∧ length found = 32%nat
    ∧ count_peer "p" found = 0%nat.
Proof.
  intros R join others reg. eexists _, _, _, _.
  split; [vm_compute; reflexivity|]. split; [by vm_compute|].
  split; [vm_compute; reflexivity|]. by vm_compute.
Qed.

(** ** The connection counters *)

(** *** Sums over maps *)

Section SumOver.
Context {K V : Type} `{Countable K} (f : V → Z).
Implicit Types (m : gmap K V).

Lemma sum_over_empty : sum_over f (∅ : gmap K V) = 0.
Proof. apply map_fold_empty. Qed.

Lemma sum_over_insert_None m (k : K) (v : V) :
  m !! k = None → sum_over f (<[k := v]> m) = sum_over f m + f v.
Proof.
  intros Hk. unfold sum_over. rewrite map_fold_insert_L; [done| |done].
  intros. lia.
Qed.

Lemma sum_over_delete m (k : K) :
  sum_over f (delete k m) = sum_over f m - from_option f 0 (m !! k).
Proof.
  destruct (m !! k) as [v|] eqn:Hk; simpl.
  - unfold sum_over.
    rewrite (map_fold_delete_L _ _ k v m); [lia| |done]. intros. lia.
  - rewrite delete_id by done. lia.
Qed.

Lemma sum_over_insert m (k : K) (v : V) :
  sum_over f (<[k := v]> m) = sum_over f m - from_option f 0 (m !! k) + f v.
Proof.
  rewrite <- insert_delete_eq, sum_over_insert_None by apply lookup_delete_eq.
  by rewrite sum_over_delete.
Qed.

Lemma sum_over_alter (g : V → V) m (k : K) :
  sum_over f (alter g k m)
  = sum_over f m - from_option f 0 (m !! k) + from_option (λ v, f (g v)) 0 (m !! k).
Proof.
  rewrite alter_alt. destruct (m !! k) as [v|] eqn:Hk; simpl; [|lia].
  by rewrite sum_over_insert, Hk.
Qed.

Lemma sum_over_nonneg m : (∀ v, 0 ≤ f v) → 0 ≤ sum_over f m.
Proof.
  intros Hf. unfold sum_over.
  apply (map_fold_weak_ind (λ r _, 0 ≤ r)); [done|].
  intros k v m' r _ Hr. specialize (Hf v). lia.
Qed.

Lemma sum_over_lookup_le m (k : K) (v : V) :
  (∀ v, 0 ≤ f v) → m !! k = Some v → f v ≤ sum_over f m.
Proof.
  intros Hf Hk. pose proof (sum_over_delete m k) as Hdel. rewrite Hk in Hdel.
  simpl in Hdel. pose proof (sum_over_nonneg (delete k m) Hf). lia.
Qed.

End SumOver.

(** *** Events that leave the hub alone, joins and leaves *)

Section Hub.
Context `{Runtime}.
Variable cfg : Server.config.

Lemma same_hub_refl (st : Server.state) : same_hub st st.
Proof. by repeat split. Qed.

Lemma same_hub_inv (st st' : Server.state) :
  same_hub st st' →
  hub_ok st ∧ counters_agree st → hub_ok st' ∧ counters_agree st'.
Proof.
  intros (Hrooms & Hsockets & Halloc & Hconn & Hactive).
  unfold hub_ok, counters_agree, total_members, total_connections, live_total, live_at.
  by rewrite Hrooms, Hsockets, Halloc, Hconn, Hactive.
Qed.

Lemma allowMessage_same_hub (st : Server.state) (ip : string) (now : Z) :
  same_hub st (Server.allowMessage cfg st ip now).2.
Proof.
  unfold Server.allowMessage.
  repeat (match goal with
          | |- context [if ?c then _ else _] => destruct c
          | |- context [match ?c with _ => _ end] => destruct c
          end; simpl); by repeat split.
Qed.

Lemma on_telemetry_same_hub (st : Server.state) (message : json) :
  match Server.on_telemetry st message with
  | Server.Done st' _ | Server.Thrown st' _ => same_hub st st'
  end.
Proof. unfold Server.on_telemetry. repeat case_scrutinee; by repeat split. Qed.

Lemma same_hub_trans (st1 st2 st3 : Server.state) :
  same_hub st1 st2 → same_hub st2 st3 → same_hub st1 st3.
Proof.
  intros (? & ? & ? & ? & ?) (? & ? & ? & ? & ?).
  repeat split; congruence.
Qed.

Lemma on_message_same_hub (st : Server.state) (ws : nat) (raw : string)
    (t_rate t_stamp : Z) :
  match Server.on_message cfg st ws raw t_rate t_stamp with
  | Server.Done st' _ | Server.Thrown st' _ => same_hub st st'
  end.
Proof.
  unfold Server.on_message.
  destruct (Server.sockets st !! ws) as [w|]; [|apply same_hub_refl].
  pose proof (allowMessage_same_hub st (Server.ws_clientIp w) t_rate) as Hallow.
  destruct (Server.allowMessage cfg st (Server.ws_clientIp w) t_rate) as [ok st1].
  simpl in Hallow. destruct ok; simpl; [|done].
  assert (Hcount : same_hub st (Server.set_metrics Server.count_message st1)).
  { eapply same_hub_trans; [exact Hallow|]. by repeat split. }
  destruct (JSON_parse raw) as [message|]; [|done].
  destruct (strict_eq_str (get_prop message "type") "heartbeat").
  { by destruct message. }
  destruct (strict_eq_str (get_prop message "type") "telemetry").
  { pose proof (on_telemetry_same_hub
                  (Server.set_metrics Server.count_message st1) message) as Ht.
    destruct message; try done;
      destruct (Server.on_telemetry _ _); by eapply same_hub_trans. }
  by destruct message.
Qed.

Lemma rendezvous_register_same_hub (st : Server.state) (req : Server.request)
    (raw : string) (now : Z) :
  same_hub st (Server.rendezvous_register cfg st req raw now).1.
Proof.
  unfold Server.rendezvous_register. repeat case_scrutinee; by repeat split.
Qed.

Lemma rendezvous_discover_same_hub (st : Server.state) (req : Server.request) (now : Z) :
  same_hub st (Server.rendezvous_discover st req now).1.
Proof.
  unfold Server.rendezvous_discover.
  destruct (Rendezvous.discover _ _ _ _ _) as [[reg found]|]; by repeat split.
Qed.


Lemma on_upgrade_spec (st : Server.state) (req : Server.request) (t_id : Z)
    (rnd : string) (t_register t_welcome : Z) :
  let r := Server.on_upgrade cfg st req t_id rnd t_register t_welcome in
  (((∃ code, r.2 = Server.Refused code) ∨ r.2 = Server.Dropped)
   ∧ (Server.validateToken cfg (Server.parseAuthToken req) = true →
      Server.handshake req = Server.Well_formed →
      same_hub st r.1))
  ∨ (∃ out w,
       r.2 = Server.Upgraded (Server.allocated st) out
       ∧ Server.ws_clientIp w = Server.ipOf req
       ∧ Server.is_live w = true
       ∧ Server.sockets r.1 = <[Server.allocated st := w]> (Server.sockets st)
       ∧ Server.allocated r.1 = S (Server.allocated st)
       ∧ Server.rooms r.1
         = <[Server.roomKey (Server.ws_namespace w) (Server.ws_room w) :=
               Server.set_add (Server.allocated st)
                 (default [] (Server.rooms st
                                !! Server.roomKey (Server.ws_namespace w) (Server.ws_room w)))]>
             (Server.rooms st)
       ∧ Server.connectionsByIp r.1
         = <[Server.ipOf req :=
               default 0 (Server.connectionsByIp st !! Server.ipOf req) + 1]>
             (Server.connectionsByIp st)
       ∧ Server.wsActiveConnections (Server.metrics r.1)
         = Server.wsActiveConnections (Server.metrics st) + 1).
Proof.
  unfold Server.on_upgrade.
  destruct (negb (String.eqb (Server.pathname req) "/signal")).
  { left. split; [left; by eexists|]. intros _ _. apply same_hub_refl. }
  unfold Server.allowConnection.
  destruct (num_gt _ (Server.MAX_CONNECTIONS_PER_IP cfg)); cbn [negb].
  { left. split; [left; by eexists|]. intros _ _. by repeat split. }
  destruct (Server.validateToken cfg (Server.parseAuthToken req)); cbn [negb].
  2:{ left. split; [left; by eexists|]. done. }
  destruct (Server.handshake req) as [|status|].
  2:{ left. split; [left; by eexists|]. done. }
  2:{ left. split; [by right|]. done. }
  right. unfold Server.on_connection, Server.ensureRoom. simpl.
  set (ns := Server.param_or req "namespace" "global").
  set (rm := Server.param_or req "room" "public").
  set (pid := Server.param_or req "peerId" _).
  eexists _, {| Server.ws_peerId := pid; Server.ws_namespace := ns; Server.ws_room := rm;
                Server.ws_clientIp := Server.ipOf req; Server.readyState := Server.OPEN |}.
  simpl. fold (Server.roomKey ns rm).
  destruct (Server.rooms st !! Server.roomKey ns rm) as [members|] eqn:Hroom; simpl.
  - repeat split; try done. by apply alter_alt_Some.
  - repeat split; try done. by rewrite alter_insert_eq.
Qed.

Lemma on_close_fields (st : Server.state) (ws : nat) (w : Server.socket) :
  Server.sockets st !! ws = Some w →
  let st' := Server.on_close st ws in
  let key := Server.roomKey (Server.ws_namespace w) (Server.ws_room w) in
  let ip := Server.ws_clientIp w in
  Server.sockets st' = Server.sockets st
  ∧ Server.allocated st' = Server.allocated st
  ∧ Server.rooms st'
    = match Server.rooms st !! key with
      | Some members =>
          match Server.set_delete ws members with
          | [] => delete key (Server.rooms st)
          | members' => <[key := members']> (Server.rooms st)
          end
      | None => Server.rooms st
      end
  ∧ Server.connectionsByIp st'
    = (let current := match Server.connectionsByIp st !! ip with
                      | Some v => if v =? 0 then 1 else v
                      | None => 1
                      end in
       if current - 1 <=? 0 then delete ip (Server.connectionsByIp st)
       else <[ip := current - 1]> (Server.connectionsByIp st))
  ∧ Server.wsActiveConnections (Server.metrics st')
    = Z.max 0 (Server.wsActiveConnections (Server.metrics st) - 1).
Proof.
  intros Hw. cbv zeta. unfold Server.on_close. rewrite Hw.
  destruct (Rendezvous.removePeer _ _ _ _) as [[reg b]|];
    unfold Server.decrementConnection;
    (destruct (Server.rooms st !! _) as [members|];
       [destruct (Server.set_delete ws members) as [|x members']|]);
    simpl;
    match goal with
    | |- context [if ?c then _ else _] => destruct c
    end; by repeat split.
Qed.

Lemma on_close_spec (st : Server.state) (ws : nat) (w : Server.socket) :
  Server.sockets st !! ws = Some w →
  let st' := Server.on_close (Server.set_readyState ws Server.CLOSED st) ws in
  let key := Server.roomKey (Server.ws_namespace w) (Server.ws_room w) in
  let ip := Server.ws_clientIp w in
  ∃ w',
    Server.is_live w' = false
    ∧ Server.sockets st' = <[ws := w']> (Server.sockets st)
    ∧ Server.allocated st' = Server.allocated st
    ∧ Server.rooms st'
      = match Server.rooms st !! key with
        | Some members =>
            match Server.set_delete ws members with
            | [] => delete key (Server.rooms st)
            | members' => <[key := members']> (Server.rooms st)
            end
        | None => Server.rooms st
        end
    ∧ Server.connectionsByIp st'
      = (let current := match Server.connectionsByIp st !! ip with
                        | Some v => if v =? 0 then 1 else v
                        | None => 1
                        end in
         if current - 1 <=? 0 then delete ip (Server.connectionsByIp st)
         else <[ip := current - 1]> (Server.connectionsByIp st))
    ∧ Server.wsActiveConnections (Server.metrics st')
      = Z.max 0 (Server.wsActiveConnections (Server.metrics st) - 1).
Proof.
  intros Hw. cbv zeta.
  set (w' := {| Server.ws_peerId := Server.ws_peerId w;
                Server.ws_namespace := Server.ws_namespace w;
                Server.ws_room := Server.ws_room w;
                Server.ws_clientIp := Server.ws_clientIp w;
                Server.readyState := Server.CLOSED |}).
  assert (Hw' : Server.sockets (Server.set_readyState ws Server.CLOSED st) !! ws = Some w').
  { simpl. by rewrite lookup_alter_eq, Hw. }
  destruct (on_close_fields _ ws w' Hw') as (Hs & Ha & Hr & Hc & Hm).
  exists w'. split; [done|].
  rewrite Hs, Ha, Hr, Hc, Hm. simpl. repeat split; try done.
  by rewrite (alter_alt_Some _ _ _ _ Hw).
Qed.


Lemma live_at_nonneg (st : Server.state) (addr : string) : 0 ≤ live_at st addr.
Proof. apply sum_over_nonneg. intros w. by destruct (_ && _). Qed.

Lemma counter_is_live_at (st : Server.state) (addr : string) :
  counters_agree st →
  default 0 (Server.connectionsByIp st !! addr) = live_at st addr.
Proof.
  intros (_ & _ & _ & Haddr). rewrite Haddr.
  destruct (Z.eqb_spec (live_at st addr) 0) as [->|]; done.
Qed.

Lemma set_delete_length (ws : nat) (members : list nat) :
  NoDup members → ws ∈ members →
  (length (Server.set_delete ws members) + 1 = length members)%nat.
Proof.
  unfold Server.set_delete. induction 1 as [|x l Hx Hl IH]; [by intros ?%elem_of_nil|].
  rewrite filter_cons. intros [Heq|Hin]%elem_of_cons.
  - subst x. case_decide; [done|]. simpl. f_equal.
    assert (Hid : filter (λ y, y ≠ ws) l = l); [|rewrite Hid; lia].
    clear IH Hl. induction l as [|y l IH]; [done|].
    rewrite filter_cons. apply not_elem_of_cons in Hx as [Hne Hx].
    case_decide; [by rewrite IH | congruence].
  - case_decide; simpl; [by rewrite IH|]. subst. done.
Qed.

Lemma join_inv (st st' : Server.state) (w : Server.socket) :
  let a := Server.allocated st in
  let key := Server.roomKey (Server.ws_namespace w) (Server.ws_room w) in
  let ip := Server.ws_clientIp w in
  Server.is_live w = true →
  Server.sockets st' = <[a := w]> (Server.sockets st) →
  Server.allocated st' = S a →
  Server.rooms st'
  = <[key := Server.set_add a (default [] (Server.rooms st !! key))]> (Server.rooms st) →
  Server.connectionsByIp st'
  = <[ip := default 0 (Server.connectionsByIp st !! ip) + 1]> (Server.connectionsByIp st) →
  Server.wsActiveConnections (Server.metrics st')
  = Server.wsActiveConnections (Server.metrics st) + 1 →
  hub_ok st ∧ counters_agree st → hub_ok st' ∧ counters_agree st'.
Proof.
  intros a key ip Hlive Hsockets Halloc Hrooms Hconn Hactive [Hhub Hcount].
  pose proof Hhub as (Hroom & Hmember & Hfresh).
  assert (Ha : Server.sockets st !! a = None) by (by apply Hfresh).
  assert (Hnotin : ∀ k members, Server.rooms st !! k = Some members → a ∉ members).
  { intros k members Hk Hin. destruct (Hroom k members Hk) as (_ & _ & Hall).
    destruct (Hall a Hin) as (w0 & Hw0 & _). congruence. }
  assert (Hadd : Server.set_add a (default [] (Server.rooms st !! key))
                 = default [] (Server.rooms st !! key) ++ [a]).
  { unfold Server.set_add. rewrite bool_decide_eq_false_2; [done|].
    destruct (Server.rooms st !! key) as [members|] eqn:Hk; simpl.
    - by eapply Hnotin.
    - apply not_elem_of_nil. }
  rewrite Hadd in Hrooms. clear Hadd. split.
  - (* the hub *)
    split; [|split].
    + intros k members. rewrite Hrooms. destruct (decide (key = k)) as [<-|Hne].
      * rewrite lookup_insert_eq. intros [= <-]. split; [by destruct (default _ _)|].
        split.
        { apply NoDup_app. split; [|split].
          - destruct (Server.rooms st !! key) as [members|] eqn:Hk; simpl.
            + by destruct (Hroom key members Hk) as (_ & ? & _).
            + constructor.
          - intros x Hx ->%list_elem_of_singleton.
            destruct (Server.rooms st !! key) as [members|] eqn:Hk; simpl in Hx.
            + by eapply Hnotin.
            + by apply elem_of_nil in Hx.
          - apply NoDup_singleton. }
        intros ws [Hin| ->%list_elem_of_singleton]%elem_of_app.
        { destruct (Server.rooms st !! key) as [members|] eqn:Hk; simpl in Hin;
            [|by apply elem_of_nil in Hin].
          destruct (Hroom key members Hk) as (_ & _ & Hall).
          destruct (Hall ws Hin) as (w0 & Hw0 & Hl0 & Hk0).
          exists w0. rewrite Hsockets, lookup_insert_ne; [done|]. congruence. }
        exists w. by rewrite Hsockets, lookup_insert_eq.
      * rewrite lookup_insert_ne by done. intros Hk.
        destruct (Hroom k members Hk) as (Hnil & Hnodup & Hall).
        split; [done|]. split; [done|]. intros ws Hin.
        destruct (Hall ws Hin) as (w0 & Hw0 & Hl0 & Hk0).
        exists w0. rewrite Hsockets, lookup_insert_ne; [done|]. congruence.
    + intros ws w0. rewrite Hsockets, Hrooms.
      destruct (decide (a = ws)) as [<-|Hne].
      * rewrite lookup_insert_eq. intros [= <-] _. fold key.
        rewrite lookup_insert_eq. eexists. split; [done|].
        apply elem_of_app. right. by left.
      * rewrite lookup_insert_ne by done. intros Hw0 Hl0.
        destruct (Hmember ws w0 Hw0 Hl0) as (members & Hk & Hin).
        destruct (decide (key = Server.roomKey (Server.ws_namespace w0) (Server.ws_room w0)))
          as [Heq|Hkne].
        { rewrite <- Heq in *. rewrite lookup_insert_eq. eexists. split; [done|].
          rewrite Hk. simpl. apply elem_of_app. by left. }
        rewrite lookup_insert_ne by done. by exists members.
    + intros ws Hws. rewrite Hsockets, Halloc in *.
      rewrite lookup_insert_ne by lia. apply Hfresh. lia.
  - (* the counters *)
    pose proof (counter_is_live_at st ip Hcount) as Hip.
    destruct Hcount as (Hmem & Hact & Htot & Haddr).
    assert (Hlt : live_total st' = live_total st + 1).
    { unfold live_total. rewrite Hsockets, sum_over_insert_None by done.
      by rewrite Hlive. }
    assert (Hla : ∀ addr, live_at st' addr
                          = live_at st addr + if String.eqb ip addr then 1 else 0).
    { intros addr. unfold live_at. rewrite Hsockets, sum_over_insert_None by done.
      by rewrite Hlive. }
    split; [|split; [|split]].
    + unfold total_members. rewrite Hrooms, sum_over_insert, Hlt, <- Hmem.
      unfold total_members. rewrite length_app. simpl.
      destruct (Server.rooms st !! key); simpl; lia.
    + rewrite Hactive, Hlt. lia.
    + unfold total_connections. rewrite Hconn, sum_over_insert, Hlt, <- Htot.
      unfold total_connections.
      destruct (Server.connectionsByIp st !! ip); simpl; lia.
    + intros addr. rewrite Hconn, Hla.
      destruct (String.eqb_spec ip addr) as [<-|Hne].
      * rewrite lookup_insert_eq, Hip.
        pose proof (live_at_nonneg st ip).
        destruct (Z.eqb_spec (live_at st ip + 1) 0); [lia|done].
      * rewrite lookup_insert_ne by done. rewrite Z.add_0_r. apply Haddr.
Qed.


Lemma close_inv (st st' : Server.state) (ws : nat) (w w' : Server.socket) :
  let key := Server.roomKey (Server.ws_namespace w) (Server.ws_room w) in
  let ip := Server.ws_clientIp w in
  Server.sockets st !! ws = Some w →
  Server.is_live w = true →
  Server.is_live w' = false →
  Server.sockets st' = <[ws := w']> (Server.sockets st) →
  Server.allocated st' = Server.allocated st →
  Server.rooms st'
  = match Server.rooms st !! key with
    | Some members =>
        match Server.set_delete ws members with
        | [] => delete key (Server.rooms st)
        | members' => <[key := members']> (Server.rooms st)
        end
    | None => Server.rooms st
    end →
  Server.connectionsByIp st'
  = (let current := match Server.connectionsByIp st !! ip with
                    | Some v => if v =? 0 then 1 else v
                    | None => 1
                    end in
     if current - 1 <=? 0 then delete ip (Server.connectionsByIp st)
     else <[ip := current - 1]> (Server.connectionsByIp st)) →
  Server.wsActiveConnections (Server.metrics st')
  = Z.max 0 (Server.wsActiveConnections (Server.metrics st) - 1) →
  hub_ok st ∧ counters_agree st → hub_ok st' ∧ counters_agree st'.
Proof.
  intros key ip Hw Hlive Hdead Hsockets Halloc Hrooms Hconn Hactive [Hhub Hcount].
  pose proof Hhub as (Hroom & Hmember & Hfresh).
  destruct (Hmember ws w Hw Hlive) as (members & Hkey & Hin). fold key in Hkey.
  destruct (Hroom key members Hkey) as (_ & Hnodup & Hall).
  pose proof (set_delete_length ws members Hnodup Hin) as Hlen.
  rewrite Hkey in Hrooms.
  assert (Hothers : ∀ k ms x, k ≠ key → Server.rooms st !! k = Some ms → x ∈ ms → x ≠ ws).
  { intros k ms x Hne Hk Hx ->. destruct (Hroom k ms Hk) as (_ & _ & Hall').
    destruct (Hall' ws Hx) as (w0 & Hw0 & _ & Hk0). by simplify_eq. }
  assert (Hrooms_key : Server.rooms st' !! key
                       = match Server.set_delete ws members with
                         | [] => None
                         | members' => Some members'
                         end).
  { rewrite Hrooms. destruct (Server.set_delete ws members);
      [apply lookup_delete_eq | apply lookup_insert_eq]. }
  assert (Hrooms_ne : ∀ k, k ≠ key → Server.rooms st' !! k = Server.rooms st !! k).
  { intros k Hne. rewrite Hrooms. destruct (Server.set_delete ws members);
      [by apply lookup_delete_ne | by apply lookup_insert_ne]. }
  split.
  - (* the hub *)
    split; [|split].
    + intros k ms. destruct (decide (k = key)) as [->|Hne].
      * rewrite Hrooms_key.
        destruct (Server.set_delete ws members) as [|y ms'] eqn:Hdel; [done|].
        intros [= <-]. split; [done|]. split.
        { rewrite <- Hdel. by apply NoDup_filter. }
        intros x Hx. rewrite <- Hdel in Hx.
        apply list_elem_of_filter in Hx as [Hne Hx].
        destruct (Hall x Hx) as (w0 & Hw0 & Hl0 & Hk0).
        exists w0. by rewrite Hsockets, lookup_insert_ne.
      * rewrite Hrooms_ne by done. intros Hk.
        destruct (Hroom k ms Hk) as (Hnil & Hnd & Hall').
        split; [done|]. split; [done|]. intros x Hx.
        destruct (Hall' x Hx) as (w0 & Hw0 & Hl0 & Hk0).
        exists w0. rewrite Hsockets, lookup_insert_ne; [done|].
        intros Heq. by apply (Hothers k ms x Hne Hk Hx).
    + intros x w0. rewrite Hsockets. destruct (decide (ws = x)) as [<-|Hne].
      { rewrite lookup_insert_eq. intros [= <-]. congruence. }
      rewrite lookup_insert_ne by done. intros Hw0 Hl0.
      destruct (Hmember x w0 Hw0 Hl0) as (ms & Hk & Hx).
      destruct (decide (Server.roomKey (Server.ws_namespace w0) (Server.ws_room w0) = key))
        as [Heq|Hkne].
      * rewrite Heq in *. rewrite Hrooms_key. simplify_eq.
        assert (Hx' : x ∈ Server.set_delete ws members).
        { apply list_elem_of_filter. split; [congruence | done]. }
        destruct (Server.set_delete ws members) as [|y ms'];
          [by apply elem_of_nil in Hx' | by eexists].
      * rewrite Hrooms_ne by done. by exists ms.
    + intros x Hx. rewrite Hsockets. rewrite Halloc in Hx.
      rewrite lookup_insert_ne; [by apply Hfresh|].
      intros ->. rewrite Hfresh in Hw; done.
  - (* the counters *)
    pose proof (counter_is_live_at st ip Hcount) as Hip.
    destruct Hcount as (Hmem & Hact & Htot & Haddr).
    assert (Hlt : live_total st' = live_total st - 1).
    { unfold live_total. rewrite Hsockets, sum_over_insert, Hw. simpl.
      rewrite Hlive, Hdead. lia. }
    assert (Hla : ∀ addr, live_at st' addr
                          = live_at st addr - if String.eqb ip addr then 1 else 0).
    { intros addr. unfold live_at. rewrite Hsockets, sum_over_insert, Hw. simpl.
      rewrite Hlive, Hdead. simpl. fold ip. destruct (String.eqb ip addr); lia. }
    assert (Hone : 1 ≤ live_at st ip).
    { unfold live_at.
      etransitivity; [|apply (sum_over_lookup_le _ _ ws w); [|done]].
      - cbv beta. rewrite Hlive. fold ip. by rewrite String.eqb_refl.
      - intros w0. by destruct (_ && _). }
    assert (Hpos : 1 ≤ live_total st).
    { unfold live_total.
      etransitivity; [|apply (sum_over_lookup_le _ _ ws w); [|done]].
      - cbv beta. by rewrite Hlive.
      - intros w0. by destruct (Server.is_live w0). }
    assert (Hcur : Server.connectionsByIp st !! ip = Some (live_at st ip)).
    { rewrite Haddr. destruct (Z.eqb_spec (live_at st ip) 0); [lia|done]. }
    rewrite Hcur in Hconn. simpl in Hconn.
    destruct (Z.eqb_spec (live_at st ip) 0) as [|_]; [lia|].
    split; [|split; [|split]].
    + unfold total_members. rewrite Hrooms, Hlt, <- Hmem. unfold total_members.
      destruct (Server.set_delete ws members) as [|y ms'] eqn:Hdel.
      * rewrite sum_over_delete, Hkey. simpl in *. lia.
      * rewrite sum_over_insert, Hkey. simpl in *. lia.
    + rewrite Hactive, Hlt, Hact. lia.
    + unfold total_connections. rewrite Hconn, Hlt, <- Htot. unfold total_connections.
      destruct (Z.leb_spec (live_at st ip - 1) 0).
      * rewrite sum_over_delete, Hcur. simpl. lia.
      * rewrite sum_over_insert, Hcur. simpl. lia.
    + intros addr. rewrite Hconn, Hla.
      destruct (String.eqb_spec ip addr) as [<-|Hne].
      * destruct (Z.leb_spec (live_at st ip - 1) 0).
        { rewrite lookup_delete_eq.
          destruct (Z.eqb_spec (live_at st ip - 1) 0); [done|lia]. }
        rewrite lookup_insert_eq.
        destruct (Z.eqb_spec (live_at st ip - 1) 0); [lia|done].
      * rewrite Z.sub_0_r.
        destruct (live_at st ip - 1 <=? 0);
          [rewrite lookup_delete_ne by done | rewrite lookup_insert_ne by done];
          apply Haddr.
Qed.

Lemma closing_inv (st : Server.state) (ws : nat) (w : Server.socket) :
  Server.sockets st !! ws = Some w →
  Server.is_live w = true →
  hub_ok st ∧ counters_agree st →
  hub_ok (Server.set_readyState ws Server.CLOSING st)
  ∧ counters_agree (Server.set_readyState ws Server.CLOSING st).
Proof.
  intros Hw Hlive [Hhub Hcount].
  set (w' := {| Server.ws_peerId := Server.ws_peerId w;
                Server.ws_namespace := Server.ws_namespace w;
                Server.ws_room := Server.ws_room w;
                Server.ws_clientIp := Server.ws_clientIp w;
                Server.readyState := Server.CLOSING |}).
  assert (Hsockets : Server.sockets (Server.set_readyState ws Server.CLOSING st)
                     = <[ws := w']> (Server.sockets st)).
  { simpl. by rewrite (alter_alt_Some _ _ _ _ Hw). }
  destruct Hhub as (Hroom & Hmember & Hfresh). split.
  - split; [|split].
    + intros k ms Hk. destruct (Hroom k ms Hk) as (Hnil & Hnd & Hall).
      split; [done|]. split; [done|]. intros x Hx.
      destruct (Hall x Hx) as (w0 & Hw0 & Hl0 & Hk0). rewrite Hsockets.
      destruct (decide (ws = x)) as [<-|Hne].
      * rewrite lookup_insert_eq. exists w'. by simplify_eq.
      * rewrite lookup_insert_ne by done. by exists w0.
    + intros x w0. rewrite Hsockets. destruct (decide (ws = x)) as [<-|Hne].
      * rewrite lookup_insert_eq. intros [= <-] _. by apply (Hmember ws w).
      * rewrite lookup_insert_ne by done. apply Hmember.
    + intros x Hx. rewrite Hsockets. simpl in Hx.
      rewrite lookup_insert_ne; [by apply Hfresh|].
      intros ->. rewrite Hfresh in Hw; done.
  - destruct Hcount as (Hmem & Hact & Htot & Haddr).
    assert (Hlt : live_total (Server.set_readyState ws Server.CLOSING st) = live_total st).
    { unfold live_total. rewrite Hsockets, sum_over_insert, Hw. simpl.
      rewrite Hlive. lia. }
    assert (Hla : ∀ addr, live_at (Server.set_readyState ws Server.CLOSING st) addr
                          = live_at st addr).
    { intros addr. unfold live_at. rewrite Hsockets, sum_over_insert, Hw. simpl.
      rewrite Hlive. simpl. lia. }
    unfold counters_agree. rewrite Hlt. split; [done|]. split; [done|].
    split; [done|]. intros addr. rewrite Hla. apply Haddr.
Qed.


Lemma initial_inv : hub_ok Server.initial ∧ counters_agree Server.initial.
Proof.
  split.
  - split; [|split]; simpl; intros *; by rewrite ?lookup_empty.
  - unfold counters_agree, total_members, total_connections, live_total, live_at.
    simpl. by rewrite !sum_over_empty.
Qed.

Lemma step_inv (st st' : Server.state) (ev : Server.event) :
  presents_valid_token cfg ev → completes_handshake ev →
  Server.step cfg st ev = Some st' →
  hub_ok st ∧ counters_agree st → hub_ok st' ∧ counters_agree st'.
Proof.
  destruct ev as [req t_id rnd t_register t_welcome|ws raw t_rate t_stamp|ws|ws
                 |req raw now|req now|now]; simpl; intros Hvalid Hcomplete.
  - (* upgrade *)
    intros [= <-].
    destruct (on_upgrade_spec st req t_id rnd t_register t_welcome)
      as [(_ & Hsame)|(out & w & _ & Hip & Hlive & Hs & Ha & Hr & Hc & Hm)].
    + apply same_hub_inv. by apply Hsame.
    + rewrite <- Hip in Hc. by apply (join_inv st _ w).
  - (* message *)
    destruct (Server.sockets st !! ws) as [w|]; [|by intros [= <-]].
    pose proof (on_message_same_hub st ws raw t_rate t_stamp) as Hm.
    destruct (Server.readyState w); try (by intros [= <-]);
      destruct (Server.on_message cfg st ws raw t_rate t_stamp); intros [= <-];
      by apply same_hub_inv.
  - (* closing *)
    destruct (Server.sockets st !! ws) as [w|] eqn:Hw; [|by intros [= <-]].
    destruct (Server.readyState w) eqn:Hr; intros [= <-]; try done;
      apply (closing_inv st ws w Hw); unfold Server.is_live; by rewrite Hr.
  - (* close *)
    destruct (Server.sockets st !! ws) as [w|] eqn:Hw; [|by intros [= <-]].
    destruct (on_close_spec st ws w Hw) as (w' & Hdead & Hs & Ha & Hrm & Hc & Hm).
    destruct (Server.readyState w) eqn:Hr; intros [= <-]; try done;
      apply (close_inv st _ ws w w'); try done; unfold Server.is_live; by rewrite Hr.
  - (* POST /rendezvous/register *)
    intros [= <-]. apply same_hub_inv, rendezvous_register_same_hub.
  - (* GET /rendezvous/discover *)
    intros [= <-]. apply same_hub_inv, rendezvous_discover_same_hub.
  - (* prune *)
    intros [= <-]. apply same_hub_inv. by repeat split.
Qed.

(** X1: when every handshake of a run presents a valid token (in particular
    when no digest is configured) and is one that the WebSocket library
    completes, every state the server reaches satisfies the invariants of
    the room hub and of the counters: the members of all rooms, the gauge
    and the connection counters all equal the number of live sessions, and
    the counter of an address is the number of its live sessions, absent at
    zero. *)
Theorem counters_agree_without_auth_refusals (evs : list Server.event) (st : Server.state) :
  Forall (presents_valid_token cfg) evs →
  Forall completes_handshake evs →
  Server.run cfg Server.initial evs = Some st →
  hub_ok st ∧ counters_agree st.
Proof.
  intros Hvalid Hcomplete Hrun.
  assert (Hgen : ∀ st0, hub_ok st0 ∧ counters_agree st0 →
                        Server.run cfg st0 evs = Some st → hub_ok st ∧ counters_agree st).
  { clear Hrun. induction evs as [|ev evs IH]; intros st0 Hinv; simpl.
    - by intros [= <-].
    - apply Forall_cons in Hvalid as [Hev Hvalid].
      apply Forall_cons in Hcomplete as [Hev' Hcomplete].
      destruct (Server.step cfg st0 ev) as [st1|] eqn:Hstep; simpl; [|done].
      apply IH; [done..|]. by eapply step_inv. }
  by apply (Hgen Server.initial initial_inv).
Qed.

End Hub.

Section Handshake.
Context `{Runtime}.
Variable cfg : Server.config.

(** X4: the handshake pipeline on [/signal], for any connection limit.
    With [N] the connection counter of the client address: the request is
    refused with 429 iff [N + 1] exceeds the limit, which for a limit that
    is a whole number [m] means [N ≥ m]; otherwise it is refused with 401
    iff the token is not valid; otherwise the WebSocket library decides: a
    malformed handshake is answered with the library's status, one on an
    unusable socket is dropped, and any other is upgraded, and the one frame
    sent is the welcome envelope for the new socket.  The envelope has the
    properties [type], which is [welcome], [peerId], [namespace] and [room],
    which are those of the query (defaults: a generated id, [global],
    [public]), and [now], and no other.  A handshake that the library does
    not complete has been counted by [allowConnection]: the counter of the
    address is up by one, and nothing else has changed. *)
Theorem handshake_outcomes (st : Server.state) (req : Server.request) (t_id : Z)
    (rnd : string) (t_register t_welcome : Z) :
  Server.pathname req = "/signal"%string →
  let N := default 0 (Server.connectionsByIp st !! Server.ipOf req) in
  let full := num_gt (Num (N + 1)) (Server.MAX_CONNECTIONS_PER_IP cfg) in
  let valid := Server.validateToken cfg (Server.parseAuthToken req) in
  let peerId := Server.param_or req "peerId"
                  ("peer-" +:+ Number_toString t_id +:+ "-" +:+ rnd) in
  let namespace := Server.param_or req "namespace" "global" in
  let room := Server.param_or req "room" "public" in
  let welcome := Server.welcome_envelope peerId namespace room t_welcome in
  match (Server.on_upgrade cfg st req t_id rnd t_register t_welcome).2 with
  | Server.Refused code =>
      (code = 429 ∧ full = true)
      ∨ (code = 401 ∧ full = false ∧ valid = false)
      ∨ (full = false ∧ valid = true ∧ Server.handshake req = Server.Malformed code)
  | Server.Dropped =>
      full = false ∧ valid = true ∧ Server.handshake req = Server.Unusable
  | Server.Upgraded ws out =>
      full = false ∧ valid = true ∧ Server.handshake req = Server.Well_formed
      ∧ ws = Server.allocated st
      ∧ out = [(ws, JSON_stringify welcome)]
  end
  ∧ (∀ m : Z, Server.MAX_CONNECTIONS_PER_IP cfg = Num m → full = true ↔ m ≤ N)
  ∧ get_prop welcome "type" = Some (JStr "welcome")
  ∧ get_prop welcome "peerId" = Some (JStr peerId)
  ∧ get_prop welcome "namespace" = Some (JStr namespace)
  ∧ get_prop welcome "room" = Some (JStr room)
  ∧ get_prop welcome "now" = Some (JStr (Server.nowIso t_welcome))
  ∧ (∀ k, k ∉ ["type"; "peerId"; "namespace"; "room"; "now"]%string →
          get_prop welcome k = None)
  ∧ (full = false → valid = true → Server.handshake req ≠ Server.Well_formed →
     let st' := (Server.on_upgrade cfg st req t_id rnd t_register t_welcome).1 in
     Server.connectionsByIp st' = <[Server.ipOf req := N + 1]> (Server.connectionsByIp st)
     ∧ Server.sockets st' = Server.sockets st
     ∧ Server.allocated st' = Server.allocated st
     ∧ Server.rooms st' = Server.rooms st
     ∧ Server.peers st' = Server.peers st
     ∧ Server.rendezvous st' = Server.rendezvous st
     ∧ Server.rateLimitByIp st' = Server.rateLimitByIp st
     ∧ Server.metrics st' = Server.metrics st).
Proof.
  intros Hpath N full valid peerId namespace room welcome.
  split; [|split; [|do 5 (split; [done|]); split]].
  - unfold Server.on_upgrade, Server.allowConnection.
    rewrite Hpath, String.eqb_refl. cbn [negb]. fold N full.
    destruct full; cbn [negb fst snd]; [by left|].
    fold valid. destruct valid; cbn [negb snd]; [|right; by left].
    destruct (Server.handshake req) as [|status|] eqn:Hhs; cbn [snd].
    + unfold Server.on_connection. by cbn.
    + right. by right.
    + done.
  - intros m Hm. unfold full, num_gt, num_lt. rewrite Hm, Z.ltb_lt. lia.
  - intros k Hk. rewrite !not_elem_of_cons in Hk.
    destruct Hk as (? & ? & ? & ? & ? & _).
    unfold welcome, Server.welcome_envelope. cbn [get_prop].
    by rewrite !lookup_insert_ne.
  - intros Hfull Hvalid Hhs. unfold Server.on_upgrade, Server.allowConnection.
    rewrite Hpath, String.eqb_refl. cbn [negb]. fold N full. rewrite Hfull.
    cbn [negb fst snd]. fold valid. rewrite Hvalid. cbn [negb].
    by destruct (Server.handshake req).
Qed.

End Handshake.

Section Counters.
Context `{Runtime}.

(** C1 fails on the code: with a digest configured, one handshake from
    10.0.0.1 that presents no token is refused with 401, yet it leaves
    [connectionsByIp] at 1 for that address, while no session is live, no
    room has a member and the gauge is 0.  [allowConnection] has counted the
    attempt, and the refusal returns without [decrementConnection]. *)
Theorem auth_rejection_leaks_connection_count :
  let cfg := {| Server.SHARED_TOKEN_HASH := "2bb80d537b1da3e38bd30361aa855686bde0eacd7162fef6a25fe97bf527a25b";
                Server.MAX_MESSAGES_PER_MINUTE := Num 300;
                Server.MAX_CONNECTIONS_PER_IP := Num 12 |} in
  let req := signal_request "A" in
  ∃ st,
    Server.on_upgrade cfg Server.initial req 0 "" 1 2 = (st, Server.Refused 401)
    ∧ Server.run cfg Server.initial [Server.Upgrade req 0 "" 1 2] = Some st
    ∧ Server.connectionsByIp st !! "10.0.0.1"%string = Some 1
    ∧ live_at st "10.0.0.1" = 0
    ∧ total_connections st = 1
    ∧ total_members st = 0
    ∧ Server.wsActiveConnections (Server.metrics st) = 0
    ∧ ¬ counters_agree st.
Proof.
  intros cfg req. eexists. split; [vm_compute; reflexivity|].
  split; [vm_compute; reflexivity|].
  do 5 (split; [by vm_compute|]).
  intros (_ & _ & Hsum & _). by vm_compute in Hsum.
Qed.

End Counters.

(** ** More on the registry *)

Section RegistryAlgebra.
Context `{Runtime}.

Lemma expired_mono (t1 t2 : Z) (r : Rendezvous.record) :
  t1 ≤ t2 → Rendezvous.expired t1 r = true → Rendezvous.expired t2 r = true.
Proof.
  unfold Rendezvous.expired. apply num_le_int_mono.
Qed.

Lemma filter_absorb {A : Type} (P Q : A → Prop) `{∀ x, Decision (P x)}
    `{∀ x, Decision (Q x)} (l : list A) :
  (∀ x, Q x → P x) → filter Q (filter P l) = filter Q l.
Proof.
  intros HQP. induction l as [|x l IH]; [done|].
  rewrite !filter_cons. destruct (decide (P x)) as [HP|HP].
  - rewrite filter_cons. destruct (decide (Q x)); by rewrite IH.
  - destruct (decide (Q x)) as [HQ|HQ]; [by destruct HP; apply HQP|done].
Qed.

(** X5: pruning at a later time absorbs an earlier pruning. *)
Theorem pruneExpired_absorbs (reg : Rendezvous.registry) (t1 t2 : Z) :
  t1 ≤ t2 →
  Rendezvous.pruneExpired (Rendezvous.pruneExpired reg t1) t2
  = Rendezvous.pruneExpired reg t2.
Proof.
  intros Hle. apply map_eq. intros key.
  rewrite !lookup_pruneExpired.
  assert (Habs : ∀ roomMap : jsmap Rendezvous.record,
            filter (λ e, negb (Rendezvous.expired t2 e.2))
              (filter (λ e, negb (Rendezvous.expired t1 e.2)) roomMap)
            = filter (λ e, negb (Rendezvous.expired t2 e.2)) roomMap).
  { intros roomMap. apply filter_absorb. intros e He.
    destruct (Rendezvous.expired t1 e.2) eqn:E1; [|done].
    by rewrite (expired_mono t1 t2 _ Hle E1) in He. }
  destruct (reg !! key) as [roomMap|]; [|done].
  specialize (Habs roomMap).
  destruct (filter (λ e, negb (Rendezvous.expired t1 e.2)) roomMap) as [|e kept] eqn:E.
  - rewrite <- Habs. by rewrite filter_nil.
  - by rewrite Habs.
Qed.

Lemma map_delete_absent {V : Type} (k : jsval) (m : jsmap V) :
  map_get k m = None → map_delete k m = (false, m).
Proof.
  induction m as [|[k' v'] m IH]; simpl; [done|].
  destruct (same_value_zero k' k); [done|].
  intros Hm. by rewrite IH.
Qed.

Lemma map_delete_set {V : Type} (k : jsval) (v : V) (m : jsmap V) :
  same_value_zero k k = true →
  map_get k m = None → map_delete k (map_set k v m) = (true, m).
Proof.
  intros Hk. induction m as [|[k' v'] m IH]; simpl.
  - by rewrite Hk.
  - destruct (same_value_zero k' k) eqn:E; [done|].
    intros Hm. simpl. rewrite E. by rewrite IH.
Qed.

Lemma removePeer_absent (reg : Rendezvous.registry) (ns room p : string) :
  registry_ok reg →
  (∀ roomMap, reg !! (ns +:+ "::" +:+ room) = Some roomMap →
              map_get (Some (JStr p)) roomMap = None) →
  Rendezvous.removePeer reg (JStr ns) (JStr room) (Some (JStr p)) = Some (reg, false).
Proof.
  intros Hok Habsent.
  unfold Rendezvous.removePeer. rewrite roomKey_str. simpl.
  destruct (reg !! (ns +:+ "::" +:+ room)) as [roomMap|] eqn:E; [|done].
  rewrite (map_delete_absent _ _ (Habsent _ eq_refl)).
  destruct roomMap as [|e roomMap]; [by destruct (Hok _ _ E) as [? _]|].
  by rewrite insert_id.
Qed.

Lemma removePeer_after_register (reg : Rendezvous.registry) (ns room p : string)
    (addrs : jsval) (ttl : option jsnum) (meta : jsval) (t : Z) reg1 r :
  registry_ok reg →
  (∀ roomMap, reg !! (ns +:+ "::" +:+ room) = Some roomMap →
              map_get (Some (JStr p)) roomMap = None) →
  Rendezvous.register reg (JStr ns) (JStr room) (Some (JStr p)) addrs ttl meta t
  = Some (reg1, r) →
  Rendezvous.removePeer reg1 (JStr ns) (JStr room) (Some (JStr p)) = Some (reg, true).
Proof.
  intros Hok Habsent Hreg.
  assert (Hpp : same_value_zero (Some (JStr p)) (Some (JStr p)) = true)
    by by apply same_value_zero_str.
  destruct (register_inv _ _ _ _ _ _ _ _ _ _ Hreg) as (key & Hkey & Hreg1 & _).
  rewrite roomKey_str in Hkey. injection Hkey as <-.
  unfold Rendezvous.removePeer. rewrite roomKey_str. simpl.
  rewrite Hreg1, lookup_insert_eq.
  destruct (reg !! (ns +:+ "::" +:+ room)) as [roomMap|] eqn:E; simpl.
  - rewrite (map_delete_set _ _ _ Hpp (Habsent _ eq_refl)).
    destruct roomMap as [|e roomMap]; [by destruct (Hok _ _ E) as [? _]|].
    by rewrite insert_insert_eq, insert_id.
  - rewrite String.eqb_refl. by rewrite delete_insert_eq, delete_id.
Qed.

(** X6: removing a peer that is not registered changes nothing, and
    registering such a peer and then removing it gives the registry back. *)
Theorem register_removePeer_round_trip (reg : Rendezvous.registry)
    (ns room p : string) (addrs : jsval) (ttl : option jsnum) (meta : jsval) (t : Z) :
  registry_ok reg →
  (∀ roomMap, reg !! (ns +:+ "::" +:+ room) = Some roomMap →
              map_get (Some (JStr p)) roomMap = None) →
  Rendezvous.removePeer reg (JStr ns) (JStr room) (Some (JStr p)) = Some (reg, false)
  ∧ ∃ reg1 r,
      Rendezvous.register reg (JStr ns) (JStr room) (Some (JStr p)) addrs ttl meta t
      = Some (reg1, r)
      ∧ reg1 ≠ reg
      ∧ Rendezvous.removePeer reg1 (JStr ns) (JStr room) (Some (JStr p))
        = Some (reg, true).
Proof.
  intros Hok Habsent.
  assert (Hpp : same_value_zero (Some (JStr p)) (Some (JStr p)) = true)
    by by apply same_value_zero_str.
  split; [by apply removePeer_absent|].
  destruct (register_str reg ns room p addrs ttl meta t Hok)
    as (reg1 & r & roomMap1 & Hreg & _ & _ & _ & _ & _ & _).
  exists reg1, r. split; [done|].
  split; [|by eapply removePeer_after_register].
  destruct (register_inv _ _ _ _ _ _ _ _ _ _ Hreg) as (key & Hkey & Hreg1 & _).
  rewrite roomKey_str in Hkey. injection Hkey as <-.
  intros Heq.
  assert (Hl : reg1 !! (ns +:+ "::" +:+ room) = reg !! (ns +:+ "::" +:+ room))
    by by rewrite Heq.
  rewrite Hreg1, lookup_insert_eq in Hl.
  destruct (reg !! (ns +:+ "::" +:+ room)) as [roomMap|] eqn:E; [|done].
  simpl in Hl. injection Hl as Hl.
  pose proof (map_set_elem p r roomMap) as Hin.
  rewrite Hl in Hin.
  pose proof (proj1 (map_get_None _ _) (Habsent _ eq_refl)) as Hall.
  rewrite Forall_forall in Hall. specialize (Hall _ Hin).
  change (same_value_zero (Some (JStr p)) (Some (JStr p)) = false) in Hall.
  by rewrite Hpp in Hall.
Qed.

End RegistryAlgebra.

Section RegistryFrame.
Context `{Runtime}.

Lemma map_set_keys {V : Type} (k : jsval) (v : V) (m : jsmap V) :
  (map_set k v m).*1
  = m.*1 ++ match map_get k m with Some _ => [] | None => [k] end.
Proof.
  induction m as [|[k' v'] m IH]; [done|]. cbn [map_set map_get].
  destruct (same_value_zero k' k).
  - rewrite !fmap_cons. simpl. by rewrite app_nil_r.
  - rewrite !fmap_cons, IH. done.
Qed.

Lemma map_get_set_eq {V : Type} (k : jsval) (v : V) (m : jsmap V) :
  same_value_zero k k = true → map_get k (map_set k v m) = Some v.
Proof.
  intros Hk. induction m as [|[k' v'] m IH]; simpl.
  - by rewrite Hk.
  - destruct (same_value_zero k' k) eqn:E; simpl; by rewrite E.
Qed.

(** X7: a registration touches one peer of one room: the other rooms and
    the other peers of the room keep their records, the peers of the room
    keep their order, and the peer is appended unless it was registered. *)
Theorem register_frame (reg : Rendezvous.registry) (ns room : json) (p addrs : jsval)
    (ttl : option jsnum) (meta : jsval) (t : Z) reg1 r :
  Rendezvous.register reg ns room p addrs ttl meta t = Some (reg1, r) →
  ∃ key roomMap1,
    Rendezvous.roomKey ns room = Some key
    ∧ reg1 !! key = Some roomMap1
    ∧ (∀ key', key' ≠ key → reg1 !! key' = reg !! key')
    ∧ (∀ q, same_value_zero p q = false →
            map_get q roomMap1 = map_get q (default [] (reg !! key)))
    ∧ (same_value_zero p p = true → map_get p roomMap1 = Some r)
    ∧ roomMap1.*1
      = (default [] (reg !! key)).*1
        ++ match map_get p (default [] (reg !! key)) with
           | Some _ => []
           | None => [p]
           end.
Proof.
  intros Hreg.
  destruct (register_inv _ _ _ _ _ _ _ _ _ _ Hreg) as (key & Hkey & -> & _).
  exists key, (map_set p r (default [] (reg !! key))).
  split; [done|]. split; [by rewrite lookup_insert_eq|].
  split; [by intros key' Hne; rewrite lookup_insert_ne|].
  split; [by intros q Hq; apply map_get_set_ne|].
  split; [by apply map_get_set_eq|].
  apply map_set_keys.
Qed.

Lemma insert_desc_filter (s : Z) (x : Rendezvous.record) (l : list Rendezvous.record) :
  filter (λ r, Rendezvous.seenAt r = s) (Rendezvous.insert_desc x l)
  = filter (λ r, Rendezvous.seenAt r = s) (x :: l).
Proof.
  induction l as [|y l IH]; [done|]. simpl.
  destruct (Rendezvous.seenAt x <? Rendezvous.seenAt y) eqn:E; [|done].
  apply Z.ltb_lt in E.
  rewrite (filter_cons _ y), IH, !filter_cons.
  destruct (decide (Rendezvous.seenAt y = s)), (decide (Rendezvous.seenAt x = s));
    try done; lia.
Qed.

(** X8: the sort of [discover] keeps the records seen at the same time in
    the order they had. *)
Theorem sort_desc_stable (s : Z) (l : list Rendezvous.record) :
  filter (λ r, Rendezvous.seenAt r = s) (Rendezvous.sort_desc l)
  = filter (λ r, Rendezvous.seenAt r = s) l.
Proof.
  induction l as [|x l IH]; [done|].
  change (Rendezvous.sort_desc (x :: l))
    with (Rendezvous.insert_desc x (Rendezvous.sort_desc l)).
  by rewrite insert_desc_filter, !filter_cons, IH.
Qed.

End RegistryFrame.

Section RoomKeys.
Context `{Runtime}.

Lemma colon_free_cons (c : Ascii.ascii) (s : string) :
  colon_free (String c s) ↔ c ≠ Server.colon ∧ colon_free s.
Proof. unfold colon_free. simpl. by rewrite Forall_cons. Qed.

Lemma append_assoc (a b c : string) : (a +:+ b) +:+ c = a +:+ (b +:+ c).
Proof.
  induction a as [|x a IH]; [done|].
  change (String x ((a +:+ b) +:+ c) = String x (a +:+ (b +:+ c))).
  by rewrite IH.
Qed.

Lemma roomKey_prefix_inj (ns ns' room room' : string) :
  colon_free ns → colon_free ns' →
  ns +:+ "::" +:+ room = ns' +:+ "::" +:+ room' → ns = ns' ∧ room = room'.
Proof.
  revert ns'. induction ns as [|c ns IH]; intros [|c' ns'] Hns Hns' Heq.
  - simpl in Heq. by simplify_eq.
  - apply colon_free_cons in Hns' as [Hc _]. simpl in Heq.
    injection Heq as Hc' _. by destruct Hc.
  - apply colon_free_cons in Hns as [Hc _]. simpl in Heq.
    injection Heq as Hc' _. by destruct Hc.
  - apply colon_free_cons in Hns as [_ Hns].
    apply colon_free_cons in Hns' as [_ Hns'].
    simpl in Heq. injection Heq as -> Heq.
    destruct (IH ns' Hns Hns' Heq) as [-> ->]. done.
Qed.

(** X9: the room key tells two rooms apart when neither namespace holds a
    colon, and in general it does not. *)
Theorem roomKey_injective (ns ns' room room' : string) :
  (colon_free ns → colon_free ns' →
   Server.roomKey ns room = Server.roomKey ns' room' → ns = ns' ∧ room = room')
  ∧ (colon_free ns → colon_free ns' →
     Rendezvous.roomKey (JStr ns) (JStr room) = Rendezvous.roomKey (JStr ns') (JStr room') →
     ns = ns' ∧ room = room')
  ∧ Server.roomKey (ns +:+ "::" +:+ ns') room = Server.roomKey ns (ns' +:+ "::" +:+ room)
  ∧ Rendezvous.roomKey (JStr (ns +:+ "::" +:+ ns')) (JStr room)
    = Rendezvous.roomKey (JStr ns) (JStr (ns' +:+ "::" +:+ room)).
Proof.
  pose proof append_assoc as Hassoc.
  split; [|split; [|split]].
  - intros Hns Hns'. unfold Server.roomKey. by apply roomKey_prefix_inj.
  - intros Hns Hns'. rewrite !roomKey_str. intros Heq. injection Heq as Heq.
    by apply roomKey_prefix_inj.
  - unfold Server.roomKey. by rewrite !Hassoc.
  - rewrite !roomKey_str. by rewrite !Hassoc.
Qed.

End RoomKeys.

(** ** The message listener, branch by branch *)

Section Listener.
Context `{Runtime}.
Variable cfg : Server.config.

Lemma allowMessage_same_telemetry (st : Server.state) (ip : string) (now : Z) :
  same_telemetry st (Server.allowMessage cfg st ip now).2.
Proof.
  unfold Server.allowMessage, same_telemetry.
  destruct (Server.rateLimitByIp st !! ip) as [b|]; simpl;
    repeat match goal with |- context [if ?c then _ else _] => destruct c; simpl end;
    done.
Qed.

(** X10: a heartbeat is answered to its sender and goes no further. *)
Theorem heartbeat_acknowledged (st st1 : Server.state) (ws : nat) (w : Server.socket)
    (raw : string) (message : json) (t_rate t_stamp : Z) :
  Server.sockets st !! ws = Some w →
  Server.allowMessage cfg st (Server.ws_clientIp w) t_rate = (true, st1) →
  JSON_parse raw = Some message →
  get_prop message "type" = Some (JStr "heartbeat") →
  ∃ st' ack,
    Server.on_message cfg st ws raw t_rate t_stamp
    = Server.Done st' [(ws, JSON_stringify (JObj ack))]
    ∧ ack !! "type" = Some (JStr "heartbeat-ack")
    ∧ ack !! "now" = Some (JStr (toISOString t_stamp))
    ∧ dom ack = {["type"; "now"]}
    ∧ Server.wsMessagesTotal (Server.metrics st')
      = Server.wsMessagesTotal (Server.metrics st) + 1
    ∧ Server.wsRateLimitedTotal (Server.metrics st')
      = Server.wsRateLimitedTotal (Server.metrics st)
    ∧ same_hub st st'
    ∧ same_telemetry st st'
    ∧ Server.rendezvous st' = Server.rendezvous st.
Proof.
  intros Hw Hallow Hparse Htype.
  pose proof (allowMessage_effect cfg st (Server.ws_clientIp w) t_rate) as Heff.
  pose proof (allowMessage_same_hub cfg st (Server.ws_clientIp w) t_rate) as Hhub.
  pose proof (allowMessage_same_telemetry st (Server.ws_clientIp w) t_rate) as Htel.
  rewrite Hallow in Heff, Hhub, Htel. simpl in Heff, Hhub, Htel.
  destruct Heff as (_ & _ & Hreg & _ & Hmsg & Hrl).
  exists (Server.set_metrics Server.count_message st1),
    (<["now" := JStr (Server.nowIso t_stamp)]> (<["type" := JStr "heartbeat-ack"]> ∅)).
  split.
  { unfold Server.on_message. rewrite Hw, Hallow. simpl. rewrite Hparse.
    destruct message; simpl in Htype; try done.
    simpl. by rewrite Htype. }
  split; [done|]. split; [done|].
  split; [by rewrite !dom_insert_L, dom_empty_L; set_solver|].
  split; [by simpl; rewrite Hmsg|].
  split; [by simpl; rewrite Hrl; lia|].
  split; [exact Hhub|]. split; [exact Htel|]. exact Hreg.
Qed.


(** X11: a frame that is no JSON text is answered with the [invalid_json]
    error and counted; the session stays in its room. *)
Theorem invalid_json_answered (st st1 : Server.state) (ws : nat) (w : Server.socket)
    (raw : string) (t_rate t_stamp : Z) :
  Server.sockets st !! ws = Some w →
  Server.allowMessage cfg st (Server.ws_clientIp w) t_rate = (true, st1) →
  JSON_parse raw = None →
  ∃ st',
    Server.on_message cfg st ws raw t_rate t_stamp
    = Server.Done st' [(ws, JSON_stringify (Server.error_envelope "invalid_json"))]
    ∧ get_prop (Server.error_envelope "invalid_json") "type" = Some (JStr "error")
    ∧ get_prop (Server.error_envelope "invalid_json") "code" = Some (JStr "invalid_json")
    ∧ Server.step cfg st (Server.Message ws raw t_rate t_stamp)
      = Some (if Server.is_closed (Server.readyState w) then st else st')
    ∧ Server.wsMessagesTotal (Server.metrics st')
      = Server.wsMessagesTotal (Server.metrics st) + 1
    ∧ Server.wsRateLimitedTotal (Server.metrics st')
      = Server.wsRateLimitedTotal (Server.metrics st)
    ∧ same_hub st st'
    ∧ same_telemetry st st'
    ∧ Server.rendezvous st' = Server.rendezvous st.
Proof.
  intros Hw Hallow Hparse.
  pose proof (allowMessage_effect cfg st (Server.ws_clientIp w) t_rate) as Heff.
  pose proof (allowMessage_same_hub cfg st (Server.ws_clientIp w) t_rate) as Hhub.
  pose proof (allowMessage_same_telemetry st (Server.ws_clientIp w) t_rate) as Htel.
  rewrite Hallow in Heff, Hhub, Htel. simpl in Heff, Hhub, Htel.
  destruct Heff as (_ & _ & Hreg & _ & Hmsg & Hrl).
  assert (Hon : Server.on_message cfg st ws raw t_rate t_stamp
                = Server.Done (Server.set_metrics Server.count_message st1)
                    [(ws, JSON_stringify (Server.error_envelope "invalid_json"))]).
  { unfold Server.on_message. rewrite Hw, Hallow. simpl. by rewrite Hparse. }
  exists (Server.set_metrics Server.count_message st1).
  split; [exact Hon|]. split; [done|]. split; [done|].
  split.
  { unfold Server.step. rewrite Hw, Hon. by destruct (Server.readyState w). }
  split; [by simpl; rewrite Hmsg|].
  split; [by simpl; rewrite Hrl; lia|].
  split; [exact Hhub|]. split; [exact Htel|]. exact Hreg.
Qed.

(** X12: a frame whose text is the JSON literal [null] passes the rate
    check and is counted; then reading its [type] throws: nothing is sent,
    and the exception leaves the listener. *)
Theorem null_frame_throws (st st1 : Server.state) (ws : nat) (w : Server.socket)
    (raw : string) (t_rate t_stamp : Z) :
  Server.sockets st !! ws = Some w →
  Server.allowMessage cfg st (Server.ws_clientIp w) t_rate = (true, st1) →
  JSON_parse raw = Some JNull →
  ∃ st',
    Server.on_message cfg st ws raw t_rate t_stamp = Server.Thrown st' []
    ∧ Server.wsMessagesTotal (Server.metrics st')
      = Server.wsMessagesTotal (Server.metrics st) + 1
    ∧ (Server.readyState w ≠ Server.CLOSED →
       Server.step cfg st (Server.Message ws raw t_rate t_stamp) = None).
Proof.
  intros Hw Hallow Hparse.
  pose proof (allowMessage_effect cfg st (Server.ws_clientIp w) t_rate) as Heff.
  rewrite Hallow in Heff. simpl in Heff.
  destruct Heff as (_ & _ & _ & _ & Hmsg & _).
  assert (Hon : Server.on_message cfg st ws raw t_rate t_stamp
                = Server.Thrown (Server.set_metrics Server.count_message st1) []).
  { unfold Server.on_message. rewrite Hw, Hallow. simpl. by rewrite Hparse. }
  exists (Server.set_metrics Server.count_message st1).
  split; [exact Hon|]. split; [by simpl; rewrite Hmsg|].
  intros Hopen. unfold Server.step. rewrite Hw, Hon.
  by destruct (Server.readyState w).
Qed.


Lemma tally_metricMapInc (m : jsmap Z) (key : json) (k : jsval) :
  tally k (Server.metricMapInc m key 1)
  = tally k m + (if same_value_zero (Some key) k then 1 else 0).
Proof.
  unfold tally, Server.metricMapInc.
  destruct (same_value_zero (Some key) k) eqn:E.
  - pose proof (same_value_zero_eq _ _ E) as <-.
    by rewrite map_get_set_eq.
  - rewrite map_get_set_ne by done. lia.
Qed.

(** X13: a telemetry report is tallied and never relayed: no frame is sent
    to anyone, the tally of its [iceState] (['unknown'] when missing) grows
    by one, the one of its [failureReason] does when there is one,
    [relayUsageTotal] does when [relayUsed] is truthy, and the tally of
    [region::carrier] does when either is given.  The listener throws only
    if a region or a carrier cannot be turned into a string, after the
    other tallies. *)
Theorem telemetry_tallied (st st1 : Server.state) (ws : nat) (w : Server.socket)
    (raw : string) (message : json) (t_rate t_stamp : Z) :
  Server.sockets st !! ws = Some w →
  Server.allowMessage cfg st (Server.ws_clientIp w) t_rate = (true, st1) →
  JSON_parse raw = Some message →
  get_prop message "type" = Some (JStr "telemetry") →
  let ice := or_else (get_prop message "iceState") (JStr "unknown") in
  let located := Server.jsval_truthy (get_prop message "region")
                 || Server.jsval_truthy (get_prop message "carrier") in
  let place :=
    region ← ToString (or_else (get_prop message "region") (JStr "unknown"));
    carrier ← ToString (or_else (get_prop message "carrier") (JStr "unknown"));
    Some (region +:+ "::" +:+ carrier) in
  ∃ st',
    Server.on_message cfg st ws raw t_rate t_stamp
    = (if located && negb (bool_decide (is_Some place))
       then Server.Thrown st' [] else Server.Done st' [])
    ∧ Server.wsMessagesTotal (Server.metrics st')
      = Server.wsMessagesTotal (Server.metrics st) + 1
    ∧ (∀ k, tally k (Server.iceState (Server.metrics st'))
            = tally k (Server.iceState (Server.metrics st))
              + (if same_value_zero (Some ice) k then 1 else 0))
    ∧ (∀ k, tally k (Server.failureReason (Server.metrics st'))
            = tally k (Server.failureReason (Server.metrics st))
              + (if Server.jsval_truthy (get_prop message "failureReason")
                    && same_value_zero (get_prop message "failureReason") k
                 then 1 else 0))
    ∧ Server.relayUsageTotal (Server.metrics st')
      = Server.relayUsageTotal (Server.metrics st)
        + (if Server.jsval_truthy (get_prop message "relayUsed") then 1 else 0)
    ∧ (∀ k, tally k (Server.byRegionCarrier (Server.metrics st'))
            = tally k (Server.byRegionCarrier (Server.metrics st))
              + (if located
                 then match place with
                      | Some key => if same_value_zero (Some (JStr key)) k then 1 else 0
                      | None => 0
                      end
                 else 0))
    ∧ same_hub st st'
    ∧ Server.rendezvous st' = Server.rendezvous st.
Proof.
  intros Hw Hallow Hparse Htype ice located place.
  pose proof (allowMessage_effect cfg st (Server.ws_clientIp w) t_rate) as Heff.
  pose proof (allowMessage_same_hub cfg st (Server.ws_clientIp w) t_rate) as Hhub.
  pose proof (allowMessage_same_telemetry st (Server.ws_clientIp w) t_rate) as Htel.
  rewrite Hallow in Heff, Hhub, Htel. simpl in Heff, Hhub, Htel.
  destruct Heff as (_ & _ & Hreg & _ & Hmsg & _).
  destruct Htel as (Hice & Hfail & Hplace & Hrelay).
  assert (Hon : Server.on_message cfg st ws raw t_rate t_stamp
                = Server.on_telemetry (Server.set_metrics Server.count_message st1) message).
  { unfold Server.on_message. rewrite Hw, Hallow. simpl. rewrite Hparse.
    destruct message; simpl in Htype; try done. simpl. by rewrite Htype. }
  rewrite Hon. clear Hon.
  destruct Hhub as (Hrooms & Hsockets & Halloc & Hconn & Hactive).
  unfold Server.on_telemetry.
  fold ice. fold located.
  subst place.
  destruct (get_prop message "failureReason") as [r|] eqn:Er;
    [destruct (truthy r) eqn:Etr|];
    destruct (Server.jsval_truthy (get_prop message "relayUsed")) eqn:Eru;
    destruct located eqn:Eloc;
    try (destruct (ToString (or_else (get_prop message "region") (JStr "unknown")))
           as [region|] eqn:Eregion;
         [destruct (ToString (or_else (get_prop message "carrier") (JStr "unknown")))
           as [carrier|] eqn:Ecarrier|]);
    eexists; (split; [reflexivity|]); simpl;
    rewrite ?Etr, ?Hmsg, ?Hice, ?Hfail, ?Hplace, ?Hrelay, ?Hreg;
    (split; [done|]);
    (split; [by intros k; rewrite tally_metricMapInc|]);
    (split; [by intros k; rewrite ?tally_metricMapInc; simpl; lia|]);
    (split; [lia|]);
    (split; [by intros k; rewrite ?tally_metricMapInc; simpl; lia|]);
    by repeat split.
Qed.

End Listener.

(** ** Reading the token and the client address *)

Section RequestFields.
Context `{Runtime}.

Lemma substring_all (s : string) : String.substring 0 (String.length s) s = s.
Proof. induction s as [|c s IH]; [done|]. simpl. by rewrite IH. Qed.

Lemma slice_from_Bearer (t : string) : Server.slice_from 7 ("Bearer " +:+ t) = t.
Proof.
  unfold Server.slice_from. cbv beta iota fix delta [String.append].
  simpl. rewrite ?Nat.sub_0_r. apply substring_all.
Qed.

Lemma str_or_empty (s : string) : str_or s "" = s.
Proof. unfold str_or. by destruct (String.eqb_spec s "") as [->|]. Qed.

(** X14: a header [Authorization: Bearer t] supplies the token, trimmed,
    whatever the query string says; without such a header the token is the
    first [token] parameter of the query, or the empty string. *)
Theorem parseAuthToken_sources (req : Server.request) :
  (∀ t, Server.authorization req = Some ("Bearer " +:+ t) →
        Server.parseAuthToken req = trim t)
  ∧ (Server.authorization req = None →
     Server.parseAuthToken req
     = default "" (Server.searchParams_get "token" (Server.searchParams req)))
  ∧ (∀ auth, Server.authorization req = Some auth →
             String.prefix "Bearer " auth = false →
             Server.parseAuthToken req
             = default "" (Server.searchParams_get "token" (Server.searchParams req))).
Proof.
  unfold Server.parseAuthToken. split; [|split].
  - intros t ->. cbn [default from_option id]. rewrite str_or_empty.
    replace (String.prefix "Bearer " ("Bearer " +:+ t)) with true
      by (cbv beta iota fix delta [String.append]; simpl; by destruct t).
    by rewrite slice_from_Bearer.
  - intros ->. simpl. by rewrite str_or_empty.
  - intros auth -> Hpre. cbn [default from_option id]. rewrite !str_or_empty.
    by rewrite Hpre.
Qed.

Lemma before_comma_app (a rest : string) :
  comma_free a → Server.before_comma (a +:+ String Server.comma rest) = a.
Proof.
  induction a as [|c a IH]; intros Ha.
  - cbv beta iota fix delta [String.append]. simpl. by rewrite ?Ascii.eqb_refl.
  - unfold comma_free in Ha. simpl in Ha. apply Forall_cons in Ha as [Hc Ha].
    change (Server.before_comma (String c (a +:+ String Server.comma rest)) = String c a).
    simpl. destruct (Ascii.eqb_spec c Server.comma) as [->|_]; [done|].
    by rewrite IH.
Qed.

Lemma before_comma_free (a : string) : comma_free a → Server.before_comma a = a.
Proof.
  induction a as [|c a IH]; intros Ha; [done|].
  unfold comma_free in Ha. simpl in Ha. apply Forall_cons in Ha as [Hc Ha].
  simpl. destruct (Ascii.eqb_spec c Server.comma) as [->|_]; [done|].
  by rewrite IH.
Qed.

(** X15: the client address is the first hop of [X-Forwarded-For],
    trimmed; without the header, or with an empty one, it is the socket's
    remote address, or ['unknown']. *)
Theorem ipOf_first_hop (req : Server.request) :
  (∀ a rest, Server.x_forwarded_for req = Some (a +:+ String Server.comma rest) →
             comma_free a → Server.ipOf req = trim a)
  ∧ (∀ a, Server.x_forwarded_for req = Some a → a ≠ ""%string → comma_free a →
          Server.ipOf req = trim a)
  ∧ (Server.x_forwarded_for req = None ∨ Server.x_forwarded_for req = Some ""%string →
     Server.ipOf req
     = match Server.remoteAddress req with
       | Some addr => if String.eqb addr "" then "unknown"%string else addr
       | None => "unknown"%string
       end).
Proof.
  unfold Server.ipOf. split; [|split].
  - intros a rest -> Ha.
    replace (0 <? String.length (a +:+ String Server.comma rest))%nat with true.
    + by rewrite before_comma_app.
    + symmetry. apply Nat.ltb_lt.
      destruct a; cbv beta iota fix delta [String.append]; simpl; lia.
  - intros a -> Hne Ha.
    replace (0 <? String.length a)%nat with true.
    + by rewrite before_comma_free.
    + symmetry. apply Nat.ltb_lt. destruct a; [done|]. simpl. lia.
  - intros [->| ->]; simpl; by destruct (Server.remoteAddress req).
Qed.

End RequestFields.

(** ** The connection limit, in every run *)

Section ConnectionLimit.
Context `{Runtime}.
Variable cfg : Server.config.

Lemma limit_respected_same (st st' : Server.state) :
  Server.sockets st' = Server.sockets st →
  Server.connectionsByIp st' = Server.connectionsByIp st →
  limit_respected cfg st → limit_respected cfg st'.
Proof.
  intros Hs Hc Hinv addr. unfold live_at. rewrite Hs, Hc. apply Hinv.
Qed.

Lemma num_gt_pred (v : Z) (max : jsnum) :
  num_gt (Num v) max = false → num_gt (Num (v - 1)) max = false.
Proof.
  unfold num_gt. destruct max; cbn [num_lt numer expo]; try done; rewrite !Z.ltb_ge.
  - lia.
  - intros. pose proof (Z.pow_pos_nonneg 2 (Z.pos k)). nia.
Qed.

(** What a handshake does to the heap and to the counters. *)
Lemma on_upgrade_counters (st : Server.state) (req : Server.request) (t_id : Z)
    (rnd : string) (t_register t_welcome : Z) :
  let r := Server.on_upgrade cfg st req t_id rnd t_register t_welcome in
  let ip := Server.ipOf req in
  let next := default 0 (Server.connectionsByIp st !! ip) + 1 in
  (Server.sockets r.1 = Server.sockets st
   ∧ Server.connectionsByIp r.1 = Server.connectionsByIp st)
  ∨ (num_gt (Num next) (Server.MAX_CONNECTIONS_PER_IP cfg) = false
     ∧ Server.connectionsByIp r.1 = <[ip := next]> (Server.connectionsByIp st)
     ∧ (Server.sockets r.1 = Server.sockets st
        ∨ ∃ w, Server.ws_clientIp w = ip
               ∧ Server.sockets r.1 = <[Server.allocated st := w]> (Server.sockets st))).
Proof.
  unfold Server.on_upgrade.
  destruct (negb (String.eqb (Server.pathname req) "/signal")); [by left|].
  unfold Server.allowConnection.
  destruct (num_gt _ (Server.MAX_CONNECTIONS_PER_IP cfg)) eqn:Egt; cbn [negb];
    [by left|].
  right. split; [done|].
  destruct (Server.validateToken cfg (Server.parseAuthToken req)); cbn [negb].
  2:{ split; [done|]. by left. }
  destruct (Server.handshake req) as [|status|]; [|split; [done|]; by left..].
  unfold Server.on_connection, Server.ensureRoom. simpl.
  set (ns := Server.param_or req "namespace" "global").
  set (rm := Server.param_or req "room" "public").
  set (pid := Server.param_or req "peerId" _).
  fold (Server.roomKey ns rm).
  split.
  { by destruct (Server.rooms st !! Server.roomKey ns rm). }
  right. eexists {| Server.ws_peerId := pid; Server.ws_namespace := ns;
                    Server.ws_room := rm; Server.ws_clientIp := Server.ipOf req;
                    Server.readyState := Server.OPEN |}.
  split; [done|].
  by destruct (Server.rooms st !! Server.roomKey ns rm).
Qed.

Lemma live_at_insert_le (st : Server.state) (ws : nat) (w : Server.socket)
    (addr : string) (sockets' : gmap nat Server.socket) :
  sockets' = <[ws := w]> (Server.sockets st) →
  sum_over (λ w, if Server.is_live w && String.eqb (Server.ws_clientIp w) addr
                 then 1 else 0) sockets'
  ≤ live_at st addr + (if String.eqb (Server.ws_clientIp w) addr then 1 else 0).
Proof.
  intros ->. rewrite sum_over_insert. fold (live_at st addr).
  assert (0 ≤ from_option
            (λ w, if Server.is_live w && String.eqb (Server.ws_clientIp w) addr
                  then 1 else 0) 0 (Server.sockets st !! ws)).
  { destruct (Server.sockets st !! ws) as [w0|]; simpl; [|done].
    by destruct (_ && _). }
  destruct (Server.is_live w), (String.eqb (Server.ws_clientIp w) addr); simpl; lia.
Qed.

Lemma limit_respected_step (st st' : Server.state) (ev : Server.event) :
  Server.step cfg st ev = Some st' →
  limit_respected cfg st → limit_respected cfg st'.
Proof.
  destruct ev as [req t_id rnd t_register t_welcome|ws raw t_rate t_stamp|ws|ws
                 |req raw now|req now|now]; simpl.
  - (* upgrade *)
    intros [= <-] Hinv.
    destruct (on_upgrade_counters st req t_id rnd t_register t_welcome)
      as [[Hs Hc]|(Hgt & Hc & Hs)].
    { by apply (limit_respected_same st). }
    intros addr. destruct (Hinv addr) as [Hle Hpos].
    assert (Hlive : live_at (Server.on_upgrade cfg st req t_id rnd t_register t_welcome).1 addr
                    ≤ live_at st addr
                      + (if String.eqb (Server.ipOf req) addr then 1 else 0)).
    { destruct Hs as [Hs|(w & Hip & Hs)].
      - unfold live_at at 1. rewrite Hs. fold (live_at st addr).
        destruct (String.eqb _ _); lia.
      - unfold live_at at 1. rewrite <- Hip. by eapply live_at_insert_le. }
    rewrite Hc. destruct (String.eqb_spec (Server.ipOf req) addr) as [<-|Hne].
    + rewrite lookup_insert_eq. simpl. split; [lia|].
      intros v [= <-]. split; [|done].
      pose proof (live_at_nonneg st (Server.ipOf req)). lia.
    + rewrite lookup_insert_ne by done. split; [lia|done].
  - (* message *)
    destruct (Server.sockets st !! ws) as [w|]; [|by intros [= <-]].
    pose proof (on_message_same_hub cfg st ws raw t_rate t_stamp) as Hm.
    destruct (Server.readyState w); try (by intros [= <-]);
      destruct (Server.on_message cfg st ws raw t_rate t_stamp); intros [= <-];
      destruct Hm as (_ & Hs & _ & Hc & _); by apply limit_respected_same.
  - (* closing *)
    destruct (Server.sockets st !! ws) as [w|] eqn:Hw; [|by intros [= <-]].
    assert (Hclosing : Server.is_live w = true → limit_respected cfg st →
              limit_respected cfg (Server.set_readyState ws Server.CLOSING st)).
    { intros Hlive Hinv addr. destruct (Hinv addr) as [Hle Hpos]. split; [|done].
      etrans; [|exact Hle]. unfold live_at at 1. simpl.
      rewrite (alter_alt_Some _ _ _ _ Hw).
      rewrite sum_over_insert, Hw. fold (live_at st addr). simpl.
      rewrite Hlive. simpl. lia. }
    destruct (Server.readyState w) eqn:Hr; intros [= <-]; try done;
      apply Hclosing; unfold Server.is_live; by rewrite Hr.
  - (* close *)
    destruct (Server.sockets st !! ws) as [w|] eqn:Hw; [|by intros [= <-]].
    destruct (on_close_spec st ws w Hw) as (w' & Hdead & Hs & _ & _ & Hc & _).
    assert (Hclose : Server.is_live w = true → limit_respected cfg st →
              limit_respected cfg (Server.on_close (Server.set_readyState ws Server.CLOSED st) ws)).
    { intros Hlive Hinv addr. destruct (Hinv addr) as [Hle Hpos].
      assert (Hla : live_at (Server.on_close (Server.set_readyState ws Server.CLOSED st) ws) addr
                    = live_at st addr
                      - (if String.eqb (Server.ws_clientIp w) addr then 1 else 0)).
      { unfold live_at at 1. rewrite Hs, sum_over_insert, Hw. fold (live_at st addr).
        cbn [from_option]. rewrite Hlive. rewrite Hdead. simpl. lia. }
      assert (Hone : 1 ≤ live_at st (Server.ws_clientIp w)).
      { etrans; [|apply (sum_over_lookup_le _ _ ws w); [|exact Hw]].
        - cbv beta. by rewrite Hlive, String.eqb_refl.
        - intros w0. by destruct (_ && _). }
      destruct (Hinv (Server.ws_clientIp w)) as [Hle0 Hpos0].
      rewrite Hla, Hc. clear Hla Hc Hs.
      destruct (Server.connectionsByIp st !! Server.ws_clientIp w) as [v|] eqn:Ev;
        simpl in Hle0; [|lia].
      destruct (Hpos0 v eq_refl) as [Hv Hgt].
      destruct (Z.eqb_spec v 0) as [->|_]; [lia|]. cbv zeta.
      destruct (Z.leb_spec (v - 1) 0).
      - destruct (String.eqb_spec (Server.ws_clientIp w) addr) as [<-|Hne].
        + rewrite lookup_delete_eq. simpl. split; [lia|done].
        + rewrite lookup_delete_ne by done. split; [lia|done].
      - destruct (String.eqb_spec (Server.ws_clientIp w) addr) as [<-|Hne].
        + rewrite lookup_insert_eq. simpl. split; [lia|].
          intros ? [= <-]. split; [lia|]. by apply num_gt_pred.
        + rewrite lookup_insert_ne by done. split; [lia|done]. }
    destruct (Server.readyState w) eqn:Hr; intros [= <-]; try done;
      apply Hclose; unfold Server.is_live; by rewrite Hr.
  - (* POST /rendezvous/register *)
    intros [= <-].
    destruct (rendezvous_register_same_hub cfg st req raw now) as (_ & Hs & _ & Hc & _).
    by apply limit_respected_same.
  - (* GET /rendezvous/discover *)
    intros [= <-].
    destruct (rendezvous_discover_same_hub st req now) as (_ & Hs & _ & Hc & _).
    by apply limit_respected_same.
  - (* prune *)
    intros [= <-]. by apply limit_respected_same.
Qed.

(** X16: in every run, whatever the tokens presented, the counter of an
    address is at least the number of its live sessions, a stored counter
    is positive and within the limit, and so an address never has more live
    sessions than a numeric limit allows. *)
Theorem connection_limit_respected (evs : list Server.event) (st : Server.state) :
  Server.run cfg Server.initial evs = Some st →
  limit_respected cfg st
  ∧ ∀ m addr, Server.MAX_CONNECTIONS_PER_IP cfg = Num m →
              0 ≤ live_at st addr ≤ Z.max 0 m.
Proof.
  assert (Hrun : ∀ evs st0 st1, Server.run cfg st0 evs = Some st1 →
                   limit_respected cfg st0 → limit_respected cfg st1).
  { clear. intros evs. induction evs as [|ev evs IH]; intros st0 st1; simpl.
    - by intros [= <-].
    - destruct (Server.step cfg st0 ev) as [st'|] eqn:Hstep; [|done]. simpl.
      intros Hrun Hinv. apply (IH _ _ Hrun). by apply (limit_respected_step st0 _ ev). }
  intros Hst.
  assert (Hinv : limit_respected cfg st).
  { apply (Hrun _ _ _ Hst). intros addr. split; [|done].
    unfold live_at. simpl. by rewrite sum_over_empty. }
  split; [done|]. intros m addr Hm.
  split; [apply live_at_nonneg|].
  destruct (Hinv addr) as [Hle Hpos].
  destruct (Server.connectionsByIp st !! addr) as [v|]; simpl in Hle; [|lia].
  destruct (Hpos v eq_refl) as [_ Hgt]. rewrite Hm in Hgt.
  unfold num_gt in Hgt. simpl in Hgt. apply Z.ltb_ge in Hgt. lia.
Qed.

End ConnectionLimit.

(** ** The metrics, in every run *)

Section Metrics.
Context `{Runtime}.
Variable cfg : Server.config.

Lemma metrics_step_refl (m : Server.metrics_t) : metrics_step m m.
Proof.
  split; [|done]. unfold totals_le. repeat split; lia.
Qed.

Lemma metrics_step_trans (m1 m2 m3 : Server.metrics_t) :
  metrics_step m1 m2 → metrics_step m2 m3 → metrics_step m1 m3.
Proof.
  intros [(H1 & H2 & H3 & H4 & H5 & H6) G12] [(K1 & K2 & K3 & K4 & K5 & K6) G23].
  split; [|by auto].
  repeat split; try lia; destruct (H6 k) as (? & ? & ?), (K6 k) as (? & ? & ?); lia.
Qed.

Lemma tally_metricMapInc_le (m : jsmap Z) (key : json) (k : jsval) :
  tally k m ≤ tally k (Server.metricMapInc m key 1).
Proof. rewrite tally_metricMapInc. destruct (same_value_zero _ _); lia. Qed.

Ltac metrics_crush :=
  unfold metrics_step, totals_le, gauge_ok; simpl;
  repeat split; try lia; try apply tally_metricMapInc_le;
  try (etrans; [|apply tally_metricMapInc_le]; try apply tally_metricMapInc_le; done).

Lemma allowMessage_metrics (st : Server.state) (ip : string) (now : Z) :
  metrics_step (Server.metrics st) (Server.metrics (Server.allowMessage cfg st ip now).2).
Proof.
  unfold Server.allowMessage.
  destruct (Server.rateLimitByIp st !! ip) as [b|]; simpl;
    repeat match goal with |- context [if ?c then _ else _] => destruct c; simpl end;
    metrics_crush.
Qed.

Lemma on_telemetry_metrics (st : Server.state) (message : json) :
  match Server.on_telemetry st message with
  | Server.Done st' _ | Server.Thrown st' _ =>
      metrics_step (Server.metrics st) (Server.metrics st')
  end.
Proof.
  unfold Server.on_telemetry.
  destruct (get_prop message "failureReason") as [r|]; [destruct (truthy r)|];
    destruct (Server.jsval_truthy (get_prop message "relayUsed"));
    destruct (_ || _);
    try (destruct (ToString (or_else (get_prop message "region") (JStr "unknown")));
         [destruct (ToString (or_else (get_prop message "carrier") (JStr "unknown")))|]);
    metrics_crush.
Qed.

Lemma on_message_metrics (st : Server.state) (ws : nat) (raw : string)
    (t_rate t_stamp : Z) :
  match Server.on_message cfg st ws raw t_rate t_stamp with
  | Server.Done st' _ | Server.Thrown st' _ =>
      metrics_step (Server.metrics st) (Server.metrics st')
  end.
Proof.
  unfold Server.on_message.
  destruct (Server.sockets st !! ws) as [w|]; [|apply metrics_step_refl].
  pose proof (allowMessage_metrics st (Server.ws_clientIp w) t_rate) as Hallow.
  destruct (Server.allowMessage cfg st (Server.ws_clientIp w) t_rate) as [allowed st1].
  simpl in Hallow.
  destruct allowed; cbn [negb]; [|done].
  assert (Hcount : metrics_step (Server.metrics st)
                     (Server.metrics (Server.set_metrics Server.count_message st1))).
  { eapply metrics_step_trans; [exact Hallow|]. metrics_crush. }
  destruct (JSON_parse raw) as [message|]; [|done].
  destruct message; try done;
    (destruct (strict_eq_str _ "heartbeat"); [done|]);
    (destruct (strict_eq_str _ "telemetry"); [|done]);
    match goal with
    | |- context [Server.on_telemetry ?s ?m] =>
        pose proof (on_telemetry_metrics s m) as Htel;
        destruct (Server.on_telemetry s m)
    end; by eapply metrics_step_trans.
Qed.

Lemma on_upgrade_metrics (st : Server.state) (req : Server.request) (t_id : Z)
    (rnd : string) (t_register t_welcome : Z) :
  metrics_step (Server.metrics st)
    (Server.metrics (Server.on_upgrade cfg st req t_id rnd t_register t_welcome).1).
Proof.
  unfold Server.on_upgrade.
  destruct (negb (String.eqb (Server.pathname req) "/signal")); [apply metrics_step_refl|].
  unfold Server.allowConnection.
  destruct (num_gt _ (Server.MAX_CONNECTIONS_PER_IP cfg)); cbn [negb]; [metrics_crush|].
  destruct (Server.validateToken cfg (Server.parseAuthToken req)); cbn [negb];
    [|metrics_crush].
  destruct (Server.handshake req) as [|status|]; [|metrics_crush..].
  unfold Server.on_connection, Server.ensureRoom. simpl.
  destruct (Server.rooms st !! _); metrics_crush.
Qed.

Lemma on_close_metrics (st : Server.state) (ws : nat) :
  metrics_step (Server.metrics st) (Server.metrics (Server.on_close st ws)).
Proof.
  unfold Server.on_close.
  destruct (Server.sockets st !! ws) as [w|]; [|apply metrics_step_refl].
  unfold Server.decrementConnection.
  destruct (Rendezvous.removePeer _ _ _ _) as [[reg removed]|];
    destruct (Server.rooms st !! _) as [members|];
    try destruct (Server.set_delete ws members);
    simpl; destruct (_ <=? 0); metrics_crush.
Qed.

Lemma step_metrics (st st' : Server.state) (ev : Server.event) :
  Server.step cfg st ev = Some st' →
  metrics_step (Server.metrics st) (Server.metrics st').
Proof.
  destruct ev as [req t_id rnd t_register t_welcome|ws raw t_rate t_stamp|ws|ws
                 |req raw now|req now|now]; simpl.
  - intros [= <-]. apply on_upgrade_metrics.
  - destruct (Server.sockets st !! ws) as [w|]; [|intros [= <-]; apply metrics_step_refl].
    pose proof (on_message_metrics st ws raw t_rate t_stamp) as Hm.
    destruct (Server.readyState w); try (intros [= <-]; apply metrics_step_refl);
      destruct (Server.on_message cfg st ws raw t_rate t_stamp); by intros [= <-].
  - destruct (Server.sockets st !! ws) as [w|]; [|intros [= <-]; apply metrics_step_refl].
    destruct (Server.readyState w); intros [= <-]; apply metrics_step_refl.
  - destruct (Server.sockets st !! ws) as [w|]; [|intros [= <-]; apply metrics_step_refl].
    destruct (Server.readyState w); intros [= <-]; try apply metrics_step_refl;
      apply (on_close_metrics (Server.set_readyState ws Server.CLOSED st) ws).
  - intros [= <-]. unfold Server.rendezvous_register.
    destruct (negb _); [metrics_crush|].
    destruct (_ ≫= _) as [[reg record]|]; apply metrics_step_refl.
  - intros [= <-]. unfold Server.rendezvous_discover.
    destruct (Rendezvous.discover _ _ _ _ _) as [[reg records]|]; apply metrics_step_refl.
  - intros [= <-]. apply metrics_step_refl.
Qed.

(** X17: the five totals and the tally of every label never decrease, and
    the gauge of active connections stays between zero and the total of
    connections. *)
Theorem counters_monotone (evs : list Server.event) (st st' : Server.state) :
  Server.run cfg st evs = Some st' →
  totals_le (Server.metrics st) (Server.metrics st')
  ∧ (gauge_ok (Server.metrics st) → gauge_ok (Server.metrics st'))
  ∧ (st = Server.initial → gauge_ok (Server.metrics st')).
Proof.
  intros Hrun.
  assert (Hstep : metrics_step (Server.metrics st) (Server.metrics st')).
  { revert st Hrun. induction evs as [|ev evs IH]; intros st; simpl.
    - intros [= <-]. apply metrics_step_refl.
    - destruct (Server.step cfg st ev) as [st1|] eqn:Hstep; [|done]. simpl.
      intros Hrun. eapply metrics_step_trans; [by eapply step_metrics|by apply IH]. }
  destruct Hstep as [Hle Hgauge]. split; [done|]. split; [done|].
  intros ->. by apply Hgauge.
Qed.

End Metrics.

(** ** The message buckets, in every run *)

Section Buckets.
Context `{Runtime}.
Variable cfg : Server.config.

Lemma buckets_step_same (st st' : Server.state) :
  Server.rateLimitByIp st' = Server.rateLimitByIp st → buckets_step cfg st st'.
Proof. intros Heq. unfold buckets_step, buckets_ok. by rewrite Heq. Qed.

Lemma buckets_step_trans (st1 st2 st3 : Server.state) :
  buckets_step cfg st1 st2 → buckets_step cfg st2 st3 → buckets_step cfg st1 st3.
Proof. intros [H1 G1] [H2 G2]. split; auto. Qed.

Lemma allowMessage_buckets (st : Server.state) (ip : string) (now : Z) :
  buckets_step cfg st (Server.allowMessage cfg st ip now).2.
Proof.
  unfold Server.allowMessage. split.
  - intros ip' Hsome.
    destruct (Server.rateLimitByIp st !! ip) as [b|] eqn:Eb; simpl;
      repeat match goal with |- context [if ?c then _ else _] => destruct c; simpl end;
      try done;
      (destruct (decide (ip = ip')) as [<-|Hne];
       [rewrite ?lookup_insert_eq; done
       |rewrite ?lookup_insert_ne by done; done]).
  - intros Hok ip' b'.
    destruct (Server.rateLimitByIp st !! ip) as [b|] eqn:Eb; simpl.
    + destruct (Hok ip b Eb) as [Hnn Hb].
      destruct (Server.windowStart b + 60000 <=? now); simpl.
      * destruct (num_ge (Num 0) _) eqn:Ege; simpl.
        { destruct (decide (ip = ip')) as [<-|Hne].
          - rewrite lookup_insert_eq. intros [= <-]. simpl. split; [done|by left].
          - rewrite lookup_insert_ne by done. apply Hok. }
        { destruct (decide (ip = ip')) as [<-|Hne].
          - rewrite lookup_insert_eq. intros [= <-]. simpl. split; [done|by right].
          - rewrite !lookup_insert_ne by done. apply Hok. }
      * destruct (num_ge (Num (Server.count b)) _) eqn:Ege; simpl; [apply Hok|].
        destruct (decide (ip = ip')) as [<-|Hne].
        { rewrite lookup_insert_eq. intros [= <-]. simpl. split; [lia|]. right.
          by replace (Server.count b + 1 - 1) with (Server.count b) by lia. }
        { rewrite lookup_insert_ne by done. apply Hok. }
    + destruct (num_ge (Num 0) _) eqn:Ege; simpl.
      { destruct (decide (ip = ip')) as [<-|Hne].
        - rewrite lookup_insert_eq. intros [= <-]. simpl. split; [done|by left].
        - rewrite lookup_insert_ne by done. apply Hok. }
      { destruct (decide (ip = ip')) as [<-|Hne].
        - rewrite lookup_insert_eq. intros [= <-]. simpl. split; [done|by right].
        - rewrite !lookup_insert_ne by done. apply Hok. }
Qed.

Lemma on_telemetry_buckets (st : Server.state) (message : json) :
  match Server.on_telemetry st message with
  | Server.Done st' _ | Server.Thrown st' _ =>
      Server.rateLimitByIp st' = Server.rateLimitByIp st
  end.
Proof.
  unfold Server.on_telemetry.
  destruct (get_prop message "failureReason") as [r|]; [destruct (truthy r)|];
    destruct (Server.jsval_truthy (get_prop message "relayUsed"));
    destruct (_ || _);
    try (destruct (ToString (or_else (get_prop message "region") (JStr "unknown")));
         [destruct (ToString (or_else (get_prop message "carrier") (JStr "unknown")))|]);
    done.
Qed.

Lemma on_message_buckets (st : Server.state) (ws : nat) (raw : string)
    (t_rate t_stamp : Z) :
  match Server.on_message cfg st ws raw t_rate t_stamp with
  | Server.Done st' _ | Server.Thrown st' _ => buckets_step cfg st st'
  end.
Proof.
  unfold Server.on_message.
  destruct (Server.sockets st !! ws) as [w|]; [|by apply buckets_step_same].
  pose proof (allowMessage_buckets st (Server.ws_clientIp w) t_rate) as Hallow.
  destruct (Server.allowMessage cfg st (Server.ws_clientIp w) t_rate) as [allowed st1].
  simpl in Hallow.
  destruct allowed; cbn [negb]; [|done].
  assert (Hcount : buckets_step cfg st (Server.set_metrics Server.count_message st1)).
  { eapply buckets_step_trans; [exact Hallow|]. by apply buckets_step_same. }
  destruct (JSON_parse raw) as [message|]; [|done].
  destruct message; try done;
    (destruct (strict_eq_str _ "heartbeat"); [done|]);
    (destruct (strict_eq_str _ "telemetry"); [|done]);
    match goal with
    | |- context [Server.on_telemetry ?s ?m] =>
        pose proof (on_telemetry_buckets s m) as Htel;
        destruct (Server.on_telemetry s m)
    end; (eapply buckets_step_trans; [exact Hcount|by apply buckets_step_same]).
Qed.

Lemma on_upgrade_rateLimit (st : Server.state) (req : Server.request) (t_id : Z)
    (rnd : string) (t_register t_welcome : Z) :
  Server.rateLimitByIp (Server.on_upgrade cfg st req t_id rnd t_register t_welcome).1
  = Server.rateLimitByIp st.
Proof.
  unfold Server.on_upgrade.
  destruct (negb (String.eqb (Server.pathname req) "/signal")); [done|].
  unfold Server.allowConnection.
  destruct (num_gt _ (Server.MAX_CONNECTIONS_PER_IP cfg)); cbn [negb]; [done|].
  destruct (Server.validateToken cfg (Server.parseAuthToken req)); cbn [negb]; [|done].
  destruct (Server.handshake req) as [|status|]; [|done..].
  unfold Server.on_connection, Server.ensureRoom. simpl.
  by destruct (Server.rooms st !! _).
Qed.

Lemma on_close_rateLimit (st : Server.state) (ws : nat) :
  Server.rateLimitByIp (Server.on_close st ws) = Server.rateLimitByIp st.
Proof.
  unfold Server.on_close. destruct (Server.sockets st !! ws) as [w|]; [|done].
  unfold Server.decrementConnection.
  destruct (Rendezvous.removePeer _ _ _ _) as [[reg removed]|];
    destruct (Server.rooms st !! _) as [members|];
    try destruct (Server.set_delete ws members);
    simpl; by destruct (_ <=? 0).
Qed.

Lemma rendezvous_register_rateLimit (st : Server.state) (req : Server.request)
    (raw : string) (now : Z) :
  Server.rateLimitByIp (Server.rendezvous_register cfg st req raw now).1
  = Server.rateLimitByIp st.
Proof.
  unfold Server.rendezvous_register. destruct (negb _); [done|].
  by destruct (_ ≫= _) as [[reg record]|].
Qed.

Lemma rendezvous_discover_rateLimit (st : Server.state) (req : Server.request) (now : Z) :
  Server.rateLimitByIp (Server.rendezvous_discover st req now).1
  = Server.rateLimitByIp st.
Proof.
  unfold Server.rendezvous_discover.
  by destruct (Rendezvous.discover _ _ _ _ _) as [[reg records]|].
Qed.

Lemma on_request_rateLimit (st : Server.state) (method : string) (req : Server.request)
    (raw : string) (t : Z) (url : option string) :
  Server.rateLimitByIp (Server.on_request cfg st method req raw t url).1
  = Server.rateLimitByIp st.
Proof.
  unfold Server.on_request.
  pose proof (rendezvous_register_rateLimit st req raw t) as Hreg.
  pose proof (rendezvous_discover_rateLimit st req t) as Hdis.
  destruct (Server.rendezvous_register cfg st req raw t) as [st1 r1].
  destruct (Server.rendezvous_discover st req t) as [st2 r2].
  repeat (match goal with |- context [if ?c then _ else _] => destruct c end); done.
Qed.

Lemma on_message_rateLimit (st : Server.state) (ws : nat) (w : Server.socket)
    (raw : string) (t_rate t_stamp : Z) :
  Server.sockets st !! ws = Some w →
  match Server.on_message cfg st ws raw t_rate t_stamp with
  | Server.Done st' _ | Server.Thrown st' _ =>
      Server.rateLimitByIp st'
      = Server.rateLimitByIp (Server.allowMessage cfg st (Server.ws_clientIp w) t_rate).2
  end.
Proof.
  intros Hw. unfold Server.on_message. rewrite Hw.
  destruct (Server.allowMessage cfg st (Server.ws_clientIp w) t_rate) as [allowed st1].
  destruct allowed; cbn [negb snd]; [|done].
  destruct (JSON_parse raw) as [message|]; [|done].
  destruct message; try done;
    (destruct (strict_eq_str _ "heartbeat"); [done|]);
    (destruct (strict_eq_str _ "telemetry"); [|done]);
    match goal with
    | |- context [Server.on_telemetry ?s ?m] =>
        pose proof (on_telemetry_buckets s m) as Htel;
        destruct (Server.on_telemetry s m)
    end; done.
Qed.

(** The buckets after an event are those that the event's call of
    [allowMessage], if it makes one, leaves. *)
Lemma step_rateLimit (st st' : Server.state) (ev : Server.event) :
  Server.step cfg st ev = Some st' →
  Server.rateLimitByIp st'
  = Server.rateLimitByIp (allowMessage_run cfg st (call_of st ev)).
Proof.
  destruct ev as [req t_id rnd t_register t_welcome|ws raw t_rate t_stamp|ws|ws
                 |req raw now|req now|now]; simpl.
  - intros [= <-]. apply on_upgrade_rateLimit.
  - destruct (Server.sockets st !! ws) as [w|] eqn:Hw; [|by intros [= <-]].
    pose proof (on_message_rateLimit st ws w raw t_rate t_stamp Hw) as Hm.
    unfold Server.is_live.
    destruct (Server.readyState w); simpl; try (by intros [= <-]);
      destruct (Server.on_message cfg st ws raw t_rate t_stamp); by intros [= <-].
  - destruct (Server.sockets st !! ws) as [w|]; [|by intros [= <-]].
    by destruct (Server.readyState w); intros [= <-].
  - destruct (Server.sockets st !! ws) as [w|] eqn:Hw; [|by intros [= <-]].
    destruct (Server.readyState w); intros [= <-]; try done;
      by rewrite on_close_rateLimit.
  - intros [= <-]. apply rendezvous_register_rateLimit.
  - intros [= <-]. apply rendezvous_discover_rateLimit.
  - by intros [= <-].
Qed.

Lemma step_buckets (st st' : Server.state) (ev : Server.event) :
  Server.step cfg st ev = Some st' → buckets_step cfg st st'.
Proof.
  destruct ev as [req t_id rnd t_register t_welcome|ws raw t_rate t_stamp|ws|ws
                 |req raw now|req now|now]; simpl.
  - intros [= <-]. apply buckets_step_same, on_upgrade_rateLimit.
  - destruct (Server.sockets st !! ws) as [w|]; [|intros [= <-]; by apply buckets_step_same].
    pose proof (on_message_buckets st ws raw t_rate t_stamp) as Hm.
    destruct (Server.readyState w); try (intros [= <-]; by apply buckets_step_same);
      destruct (Server.on_message cfg st ws raw t_rate t_stamp); by intros [= <-].
  - destruct (Server.sockets st !! ws) as [w|]; [|intros [= <-]; by apply buckets_step_same].
    destruct (Server.readyState w); intros [= <-]; by apply buckets_step_same.
  - destruct (Server.sockets st !! ws) as [w|] eqn:Hw;
      [|intros [= <-]; by apply buckets_step_same].
    destruct (Server.readyState w); intros [= <-]; apply buckets_step_same; try done;
      by rewrite on_close_rateLimit.
  - intros [= <-]. apply buckets_step_same, rendezvous_register_rateLimit.
  - intros [= <-]. apply buckets_step_same, rendezvous_discover_rateLimit.
  - intros [= <-]. by apply buckets_step_same.
Qed.

Lemma allowMessage_ext (st1 st2 : Server.state) (ip : string) (now : Z) :
  Server.rateLimitByIp st1 = Server.rateLimitByIp st2 →
  (Server.allowMessage cfg st1 ip now).1 = (Server.allowMessage cfg st2 ip now).1
  ∧ Server.rateLimitByIp (Server.allowMessage cfg st1 ip now).2
    = Server.rateLimitByIp (Server.allowMessage cfg st2 ip now).2.
Proof.
  intros Heq. unfold Server.allowMessage. rewrite Heq.
  repeat (match goal with
          | |- context [if ?c then _ else _] => destruct c
          | |- context [match ?c with _ => _ end] => destruct c
          end; simpl); by rewrite ?Heq.
Qed.

Lemma allowMessage_run_ext (calls : list (string * Z)) (st1 st2 : Server.state) :
  Server.rateLimitByIp st1 = Server.rateLimitByIp st2 →
  Server.rateLimitByIp (allowMessage_run cfg st1 calls)
  = Server.rateLimitByIp (allowMessage_run cfg st2 calls).
Proof.
  revert st1 st2. unfold allowMessage_run.
  induction calls as [|[ip t] calls IH]; intros st1 st2 Heq; simpl; [done|].
  apply IH. by apply allowMessage_ext.
Qed.

(** The buckets after a run are those that the run's calls of
    [allowMessage] leave. *)
Lemma run_rateLimit (evs : list Server.event) (st st' : Server.state) :
  Server.run cfg st evs = Some st' →
  Server.rateLimitByIp st'
  = Server.rateLimitByIp (allowMessage_run cfg st (calls_of cfg st evs)).
Proof.
  revert st. induction evs as [|ev evs IH]; intros st; simpl.
  - by intros [= <-].
  - destruct (Server.step cfg st ev) as [st1|] eqn:Hstep; [|done]. simpl.
    intros Hrun. rewrite (IH _ Hrun).
    unfold allowMessage_run at 2. rewrite foldl_app.
    fold (allowMessage_run cfg st (call_of st ev)).
    fold (allowMessage_run cfg (allowMessage_run cfg st (call_of st ev))
            (calls_of cfg st1 evs)).
    apply allowMessage_run_ext. by apply step_rateLimit.
Qed.

(** C5: per address, with [M] the number of messages the address has sent
    in the current 60 s window (the window resets when
    [now ≥ window_start + 60_000]), the next message is refused by
    [allowMessage] iff [M ≥ max]: after any sequence of calls of
    [allowMessage], and in every state the server reaches, where [M] counts
    the frames that the run received from the address on sockets that were
    not closed.  Only such a frame changes a bucket: a handshake, a close,
    an HTTP request and the pruning of the registry leave every bucket as it
    is.  A refused message makes the listener send the envelope with the two
    properties [type], which is [error], and [code], which is
    [rate_limited], to the offender and nothing else, leaves
    [messages_total], the rooms, the sockets and the registry as they were
    and adds one to [rate_limited_total]. *)
Theorem message_rate_limit :
  (∀ (st : Server.state) (calls : list (string * Z)) (ip : string) (now : Z),
     Server.rateLimitByIp st !! ip = None →
     let M := spec_M (spec_run None (times_of ip calls)) now in
     (Server.allowMessage cfg (allowMessage_run cfg st calls) ip now).1 = false
     ↔ num_ge (Num M) (Server.MAX_MESSAGES_PER_MINUTE cfg) = true)
  ∧ (∀ (evs : list Server.event) (st : Server.state) (ip : string) (now : Z),
       Server.run cfg Server.initial evs = Some st →
       let M := spec_M (spec_run None (times_of ip (calls_of cfg Server.initial evs))) now in
       (Server.allowMessage cfg st ip now).1 = false
       ↔ num_ge (Num M) (Server.MAX_MESSAGES_PER_MINUTE cfg) = true)
  ∧ (∀ (st st' : Server.state) (ev : Server.event),
       Server.step cfg st ev = Some st' → call_of st ev = [] →
       Server.rateLimitByIp st' = Server.rateLimitByIp st)
  ∧ (∀ (st : Server.state) (method : string) (req : Server.request) (raw : string)
       (t : Z) (url : option string),
       Server.rateLimitByIp (Server.on_request cfg st method req raw t url).1
       = Server.rateLimitByIp st)
  ∧ (∀ (st : Server.state) (ws : nat) (w : Server.socket) (raw : string)
       (t_rate t_stamp : Z),
       Server.sockets st !! ws = Some w →
       (Server.allowMessage cfg st (Server.ws_clientIp w) t_rate).1 = false →
       ∃ st',
         Server.on_message cfg st ws raw t_rate t_stamp
         = Server.Done st' [(ws, JSON_stringify (Server.error_envelope "rate_limited"))]
         ∧ Server.wsMessagesTotal (Server.metrics st')
           = Server.wsMessagesTotal (Server.metrics st)
         ∧ Server.wsRateLimitedTotal (Server.metrics st')
           = Server.wsRateLimitedTotal (Server.metrics st) + 1
         ∧ Server.rooms st' = Server.rooms st
         ∧ Server.sockets st' = Server.sockets st
         ∧ Server.rendezvous st' = Server.rendezvous st)
  ∧ get_prop (Server.error_envelope "rate_limited") "type" = Some (JStr "error")
  ∧ get_prop (Server.error_envelope "rate_limited") "code" = Some (JStr "rate_limited")
  ∧ (∀ k, k ∉ ["type"; "code"]%string →
          get_prop (Server.error_envelope "rate_limited") k = None).
Proof.
  assert (Hcalls : ∀ (st : Server.state) (calls : list (string * Z)) (ip : string)
                     (now : Z),
            Server.rateLimitByIp st !! ip = None →
            (Server.allowMessage cfg (allowMessage_run cfg st calls) ip now).1 = false
            ↔ num_ge (Num (spec_M (spec_run None (times_of ip calls)) now))
                (Server.MAX_MESSAGES_PER_MINUTE cfg) = true).
  { intros st calls ip now Hnone.
    pose proof (allowMessage_run_agrees cfg calls st ip None) as Hagree.
    rewrite Hnone in Hagree. specialize (Hagree I).
    destruct (allowMessage_step cfg _ _ now _ Hagree) as [-> _].
    by rewrite negb_false_iff. }
  split; [exact Hcalls|]. split; [|split; [|split; [|split]]].
  - intros evs st ip now Hrun M.
    destruct (allowMessage_ext st
                (allowMessage_run cfg Server.initial (calls_of cfg Server.initial evs))
                ip now (run_rateLimit _ _ _ Hrun)) as [-> _].
    by apply Hcalls.
  - intros st st' ev Hstep Hnone. rewrite (step_rateLimit _ _ _ Hstep), Hnone. done.
  - apply on_request_rateLimit.
  - intros st ws w raw t_rate t_stamp Hw Hrej.
    pose proof (allowMessage_effect cfg st (Server.ws_clientIp w) t_rate) as Heff.
    unfold Server.on_message. rewrite Hw.
    destruct (Server.allowMessage cfg st (Server.ws_clientIp w) t_rate) as [ok st1].
    simpl in *. subst ok. simpl. exists st1. split; [done|].
    destruct Heff as (Hrooms & Hsockets & Hreg & _ & Hmsg & Hrl). by repeat split.
  - unfold Server.error_envelope. cbn [get_prop].
    do 2 (split; [done|]).
    intros k Hk. rewrite !not_elem_of_cons in Hk. destruct Hk as (? & ? & _).
    by rewrite !lookup_insert_ne.
Qed.

(** X18: no run drops the bucket of an address, and in every run from the
    start a stored count is never negative, and it is zero or one more than
    a count that was below the limit.  So it is at most every whole number
    from zero on that the limit does not exceed: at most [max(0, m)] for a
    limit that is a whole number [m], and at most 3 for the limit 2.5. *)
Theorem message_buckets_bounded (evs : list Server.event) (st st' : Server.state) :
  Server.run cfg st evs = Some st' →
  (∀ ip, is_Some (Server.rateLimitByIp st !! ip) → is_Some (Server.rateLimitByIp st' !! ip))
  ∧ (st = Server.initial →
     ∀ ip b, Server.rateLimitByIp st' !! ip = Some b →
             0 ≤ Server.count b
             ∧ (Server.count b = 0
                ∨ num_ge (Num (Server.count b - 1))
                    (Server.MAX_MESSAGES_PER_MINUTE cfg) = false)
             ∧ (∀ c : Z, 0 ≤ c →
                         num_le (Server.MAX_MESSAGES_PER_MINUTE cfg) (Num c) = true →
                         Server.count b ≤ c)
             ∧ (∀ m : Z, Server.MAX_MESSAGES_PER_MINUTE cfg = Num m →
                         Server.count b ≤ Z.max 0 m)
             ∧ (Server.MAX_MESSAGES_PER_MINUTE cfg = Frac 2 1 → Server.count b ≤ 3)).
Proof.
  intros Hrun.
  assert (Hstep : buckets_step cfg st st').
  { revert st Hrun. induction evs as [|ev evs IH]; intros st; simpl.
    - intros [= <-]. by apply buckets_step_same.
    - destruct (Server.step cfg st ev) as [st1|] eqn:Hstep; [|done]. simpl.
      intros Hrun. eapply buckets_step_trans; [by eapply step_buckets|by apply IH]. }
  destruct Hstep as [Hdom Hok]. split; [done|].
  intros -> ip b Hb.
  destruct (Hok (λ ip b (Hip : (∅ : gmap string Server.bucket) !! ip = Some b),
                 match lookup_empty_Some _ _ Hip with end) ip b Hb) as [Hnn Hc].
  split; [done|]. split; [done|].
  assert (Hbound : ∀ c : Z, 0 ≤ c →
            num_le (Server.MAX_MESSAGES_PER_MINUTE cfg) (Num c) = true →
            Server.count b ≤ c).
  { intros c Hc0 Hle. destruct Hc as [->|Hc]; [done|].
    destruct (Z.le_gt_cases (Server.count b) c) as [|Hgt]; [done|].
    unfold num_ge in Hc.
    rewrite (num_le_int_mono _ c (Server.count b - 1)) in Hc; [done|lia|done]. }
  split; [exact Hbound|]. split.
  - intros m Hm. apply Hbound; [lia|]. rewrite Hm. apply Z.leb_le. lia.
  - intros Hm. apply Hbound; [lia|]. by rewrite Hm.
Qed.

End Buckets.

(** ** Handshakes refused for their token *)

Section RefusedHandshakes.
Context `{Runtime}.
Variable cfg : Server.config.




End RefusedHandshakes.

(** ** The life of a session *)

Section Lifecycle.
Context `{Runtime}.
Variable cfg : Server.config.

(** What the close listener does to the registry and to [peers]. *)
Lemma on_close_registry (st : Server.state) (ws : nat) (w : Server.socket) :
  Server.sockets st !! ws = Some w →
  let st' := Server.on_close (Server.set_readyState ws Server.CLOSED st) ws in
  (∃ reg removed,
     Rendezvous.removePeer (Server.rendezvous st) (JStr (Server.ws_namespace w))
       (JStr (Server.ws_room w)) (Some (JStr (Server.ws_peerId w))) = Some (reg, removed)
     ∧ Server.rendezvous st' = reg)
  ∧ Server.peers st' = delete (Server.ws_peerId w) (Server.peers st).
Proof.
  intros Hw. cbv zeta.
  destruct (removePeer_str (Server.rendezvous st) (Server.ws_namespace w)
              (Server.ws_room w) (Some (JStr (Server.ws_peerId w))))
    as (reg & removed & Hrem).
  unfold Server.on_close. simpl. rewrite lookup_alter_eq, Hw. simpl.
  unfold Server.decrementConnection.
  (destruct (Server.rooms st !! _) as [members|];
     [destruct (Server.set_delete ws members) as [|x members']|]);
    simpl; rewrite Hrem; simpl;
    match goal with
    | |- context [if ?c then _ else _] => destruct c
    end; (split; [by exists reg, removed|done]).
Qed.

Lemma is_live_false (w : Server.socket) :
  Server.is_live w = false → Server.readyState w = Server.CLOSED.
Proof. unfold Server.is_live. by destruct (Server.readyState w). Qed.

Lemma set_delete_not_elem (ws : nat) (members : list nat) :
  ws ∉ Server.set_delete ws members.
Proof.
  unfold Server.set_delete. intros Hin.
  apply list_elem_of_filter in Hin as [Hne _]. done.
Qed.

(** X20: when a live session closes, its socket is in no room any more
    and no room is left empty, no later fan-out reaches it, the registry
    holds no record of its peer id in its room, and whatever the socket
    emits afterwards changes nothing. *)
Theorem close_removes_session (st : Server.state) (ws : nat) (w : Server.socket) :
  hub_ok st →
  registry_ok (Server.rendezvous st) →
  Server.sockets st !! ws = Some w →
  Server.is_live w = true →
  ∃ st' w',
    Server.step cfg st (Server.Close ws) = Some st'
    ∧ Server.sockets st' !! ws = Some w'
    ∧ Server.readyState w' = Server.CLOSED
    ∧ (∀ key members, Server.rooms st' !! key = Some members →
                      (ws ∉ members) ∧ members ≠ [])
    ∧ (∀ ns room sender payload text,
         (ws, text) ∉ Server.relayToRoom st' ns room sender payload)
    ∧ (∀ roomMap,
         Server.rendezvous st'
           !! Server.roomKey (Server.ws_namespace w) (Server.ws_room w) = Some roomMap →
         map_get (Some (JStr (Server.ws_peerId w))) roomMap = None)
    ∧ Server.peers st' !! Server.ws_peerId w = None
    ∧ (∀ raw t_rate t_stamp,
         Server.step cfg st' (Server.Message ws raw t_rate t_stamp) = Some st')
    ∧ Server.step cfg st' (Server.Closing ws) = Some st'
    ∧ Server.step cfg st' (Server.Close ws) = Some st'.
Proof.
  intros (Hroom & Hmember & Hfresh) Hreg Hw Hlive.
  destruct (on_close_spec st ws w Hw) as (w' & Hdead & Hs & _ & Hrm & _ & _).
  destruct (on_close_registry st ws w Hw) as [(reg & removed & Hrem & Hreg') Hpeers].
  set (st' := Server.on_close (Server.set_readyState ws Server.CLOSED st) ws) in *.
  assert (Hw' : Server.sockets st' !! ws = Some w') by by rewrite Hs, lookup_insert_eq.
  assert (Hclosed : Server.readyState w' = Server.CLOSED) by by apply is_live_false.
  exists st', w'.
  split.
  { simpl. rewrite Hw. unfold Server.is_live in Hlive.
    by destruct (Server.readyState w). }
  split; [done|]. split; [done|].
  split.
  { intros key members. rewrite Hrm.
    destruct (Hmember ws w Hw Hlive) as (members0 & Hkey0 & Hin0).
    rewrite Hkey0.
    destruct (decide (key = Server.roomKey (Server.ws_namespace w) (Server.ws_room w)))
      as [->|Hne].
    - destruct (Server.set_delete ws members0) as [|x members'] eqn:Hdel.
      + by rewrite lookup_delete_eq.
      + rewrite lookup_insert_eq. intros [= <-]. split; [|done].
        rewrite <- Hdel. apply set_delete_not_elem.
    - assert (Hother : Server.rooms st !! key = Some members →
                       (ws ∉ members) ∧ members ≠ []).
      { intros Hk. destruct (Hroom key members Hk) as (Hnil & _ & Hall).
        split; [|done]. intros Hin.
        destruct (Hall ws Hin) as (w0 & Hw0 & _ & Hk0). congruence. }
      destruct (Server.set_delete ws members0) as [|x members'].
      + by rewrite lookup_delete_ne.
      + by rewrite lookup_insert_ne. }
  split.
  { intros ns room sender payload text Hin.
    apply elem_of_relayToRoom in Hin as (_ & members & _ & _ & Htarget).
    apply relay_target_spec in Htarget as (w0 & Hw0 & Hopen & _).
    rewrite Hw' in Hw0. injection Hw0 as <-. congruence. }
  split.
  { rewrite Hreg'. intros roomMap.
    destruct (removePeer_inv _ _ _ _ _ _ Hrem) as (key & Hkey & Hcase).
    rewrite roomKey_str in Hkey. injection Hkey as <-.
    fold (Server.roomKey (Server.ws_namespace w) (Server.ws_room w)) in Hcase.
    fold (Server.roomKey (Server.ws_namespace w) (Server.ws_room w)).
    destruct (Server.rendezvous st
                !! Server.roomKey (Server.ws_namespace w) (Server.ws_room w))
      as [roomMap0|] eqn:E.
    - destruct Hcase as [_ ->].
      destruct (Hreg _ _ E) as (_ & Hdistinct & _).
      pose proof (entries_of_delete (Server.ws_peerId w) roomMap0 Hdistinct) as Hnone.
      destruct ((map_delete (Some (JStr (Server.ws_peerId w))) roomMap0).2)
        as [|e roomMap1] eqn:Hdel.
      + by rewrite lookup_delete_eq.
      + rewrite lookup_insert_eq. intros [= <-].
        destruct (map_get (Some (JStr (Server.ws_peerId w))) (e :: roomMap1)) eqn:Hget;
          [|done].
        assert (Hsome : is_Some (map_get (Some (JStr (Server.ws_peerId w))) (e :: roomMap1)))
          by by rewrite Hget.
        apply map_get_entries_of in Hsome. by destruct Hsome.
    - destruct Hcase as [-> _]. by rewrite E. }
  split; [by rewrite Hpeers, lookup_delete_eq|].
  split; [intros raw t_rate t_stamp|split]; simpl; by rewrite Hw', Hclosed.
Qed.


(** What a completed handshake leaves: the socket, and the registration
    made for it. *)
Lemma on_upgrade_session (st st1 : Server.state) (req : Server.request) (t_id : Z)
    (rnd : string) (t_register t_welcome : Z) (ws : nat) (out : list Server.frame) :
  Server.on_upgrade cfg st req t_id rnd t_register t_welcome
  = (st1, Server.Upgraded ws out) →
  ∃ w reg r,
    ws = Server.allocated st
    ∧ Server.ws_clientIp w = Server.ipOf req
    ∧ Server.ws_namespace w = Server.param_or req "namespace" "global"
    ∧ Server.ws_room w = Server.param_or req "room" "public"
    ∧ Server.ws_peerId w
      = Server.param_or req "peerId" ("peer-" +:+ Number_toString t_id +:+ "-" +:+ rnd)
    ∧ Server.readyState w = Server.OPEN
    ∧ Server.sockets st1 = <[ws := w]> (Server.sockets st)
    ∧ Server.allocated st1 = S ws
    ∧ Server.rooms st1
      = <[Server.roomKey (Server.ws_namespace w) (Server.ws_room w) :=
            Server.set_add ws
              (default [] (Server.rooms st
                             !! Server.roomKey (Server.ws_namespace w) (Server.ws_room w)))]>
          (Server.rooms st)
    ∧ Server.connectionsByIp st1
      = <[Server.ipOf req :=
            default 0 (Server.connectionsByIp st !! Server.ipOf req) + 1]>
          (Server.connectionsByIp st)
    ∧ Server.wsActiveConnections (Server.metrics st1)
      = Server.wsActiveConnections (Server.metrics st) + 1
    ∧ Server.wsConnectionsTotal (Server.metrics st1)
      = Server.wsConnectionsTotal (Server.metrics st) + 1
    ∧ Rendezvous.register (Server.rendezvous st) (JStr (Server.ws_namespace w))
        (JStr (Server.ws_room w)) (Some (JStr (Server.ws_peerId w)))
        (Some (JArr [JStr (Server.ws_clientIp w)])) (Some (Num 60000))
        (Some (JObj (<["transport" := JStr "websocket"]> ∅))) t_register
      = Some (reg, r)
    ∧ Server.rendezvous st1 = reg.
Proof.
  unfold Server.on_upgrade.
  destruct (negb (String.eqb (Server.pathname req) "/signal")); [done|].
  unfold Server.allowConnection.
  destruct (num_gt _ (Server.MAX_CONNECTIONS_PER_IP cfg)); cbn [negb]; [done|].
  destruct (Server.validateToken cfg (Server.parseAuthToken req)); cbn [negb]; [|done].
  destruct (Server.handshake req) as [|status|]; [|done..].
  set (ns := Server.param_or req "namespace" "global").
  set (rm := Server.param_or req "room" "public").
  set (pid := Server.param_or req "peerId" _).
  set (st0 := Server.set_connectionsByIp _ st).
  destruct (on_connection_rendezvous st0 ns rm (Server.ipOf req) pid t_register t_welcome)
    as (reg & r & Hreg & Hreg1).
  destruct (Server.on_connection st0 ns rm (Server.ipOf req) pid t_register t_welcome)
    as [[st1' ws'] out'] eqn:Hconn.
  intros [= <- <- <-].
  exists {| Server.ws_peerId := pid; Server.ws_namespace := ns; Server.ws_room := rm;
            Server.ws_clientIp := Server.ipOf req; Server.readyState := Server.OPEN |},
    reg, r.
  simpl in Hreg1. cbn [Server.ws_peerId Server.ws_namespace Server.ws_room
                       Server.ws_clientIp Server.readyState].
  assert (Hrest : ws' = Server.allocated st
    ∧ Server.sockets st1'
      = <[ws' := {| Server.ws_peerId := pid; Server.ws_namespace := ns;
                    Server.ws_room := rm; Server.ws_clientIp := Server.ipOf req;
                    Server.readyState := Server.OPEN |}]> (Server.sockets st)
    ∧ Server.allocated st1' = S ws'
    ∧ Server.rooms st1'
      = <[Server.roomKey ns rm :=
            Server.set_add ws' (default [] (Server.rooms st !! Server.roomKey ns rm))]>
          (Server.rooms st)
    ∧ Server.connectionsByIp st1'
      = <[Server.ipOf req :=
            default 0 (Server.connectionsByIp st !! Server.ipOf req) + 1]>
          (Server.connectionsByIp st)
    ∧ Server.wsActiveConnections (Server.metrics st1')
      = Server.wsActiveConnections (Server.metrics st) + 1
    ∧ Server.wsConnectionsTotal (Server.metrics st1')
      = Server.wsConnectionsTotal (Server.metrics st) + 1).
  { revert Hconn. unfold Server.on_connection, Server.ensureRoom. simpl.
    fold (Server.roomKey ns rm).
    destruct (Server.rooms st !! Server.roomKey ns rm) as [members|] eqn:Hroom; simpl;
      intros [= <- <- <-]; simpl; repeat split; try done.
    - by apply alter_alt_Some.
    - by rewrite alter_insert_eq. }
  destruct Hrest as (-> & Hs & Ha & Hr & Hc & Hact & Htot).
  by repeat split.
Qed.


Lemma on_close_total (st : Server.state) (ws : nat) :
  Server.wsConnectionsTotal (Server.metrics (Server.on_close st ws))
  = Server.wsConnectionsTotal (Server.metrics st).
Proof.
  unfold Server.on_close.
  destruct (Server.sockets st !! ws) as [w|]; [|done].
  unfold Server.decrementConnection.
  destruct (Rendezvous.removePeer _ _ _ _) as [[reg removed]|];
    destruct (Server.rooms st !! _) as [members|];
    try destruct (Server.set_delete ws members);
    simpl; by destruct (_ <=? 0).
Qed.

Lemma set_delete_add (ws : nat) (members : list nat) :
  ws ∉ members → Server.set_delete ws (Server.set_add ws members) = members.
Proof.
  intros Hnotin. unfold Server.set_add, Server.set_delete.
  rewrite bool_decide_eq_false_2 by done.
  rewrite filter_app, filter_cons, filter_nil.
  destruct (decide (ws ≠ ws)); [done|]. rewrite app_nil_r.
  clear -Hnotin. induction members as [|x members IH]; [done|].
  apply not_elem_of_cons in Hnotin as [Hne Hnotin].
  rewrite filter_cons. destruct (decide (x ≠ ws)); [|done].
  by rewrite IH.
Qed.

(** X21: a session that joins and then closes leaves the rooms, the
    connection counters and the gauge of active connections as they were
    before it joined; so does the registry, when the peer was not
    registered in the room beforehand. *)
Theorem join_then_close_restores (st st1 : Server.state) (req : Server.request)
    (t_id : Z) (rnd : string) (t_register t_welcome : Z) (ws : nat)
    (out : list Server.frame) :
  hub_ok st →
  (∀ addr v, Server.connectionsByIp st !! addr = Some v → 1 ≤ v) →
  0 ≤ Server.wsActiveConnections (Server.metrics st) →
  Server.on_upgrade cfg st req t_id rnd t_register t_welcome
  = (st1, Server.Upgraded ws out) →
  ∃ st2 w,
    Server.sockets st1 !! ws = Some w
    ∧ Server.step cfg st1 (Server.Close ws) = Some st2
    ∧ Server.rooms st2 = Server.rooms st
    ∧ Server.connectionsByIp st2 = Server.connectionsByIp st
    ∧ Server.wsActiveConnections (Server.metrics st2)
      = Server.wsActiveConnections (Server.metrics st)
    ∧ Server.wsConnectionsTotal (Server.metrics st2)
      = Server.wsConnectionsTotal (Server.metrics st) + 1
    ∧ (registry_ok (Server.rendezvous st) →
       (∀ roomMap,
          Server.rendezvous st
            !! Server.roomKey (Server.ws_namespace w) (Server.ws_room w) = Some roomMap →
          map_get (Some (JStr (Server.ws_peerId w))) roomMap = None) →
       Server.rendezvous st2 = Server.rendezvous st).
Proof.
  intros (Hroom & Hmember & Hfresh) Hpos Hactive Hup.
  destruct (on_upgrade_session _ _ _ _ _ _ _ _ _ Hup)
    as (w & reg & r & -> & Hip & Hns & Hrm & Hpid & Hopen & Hs & Ha & Hr & Hc & Hact
        & Htot & Hreg & Hreg1).
  assert (Hw : Server.sockets st1 !! Server.allocated st = Some w)
    by by rewrite Hs, lookup_insert_eq.
  destruct (on_close_spec st1 _ w Hw) as (w' & Hdead & Hs2 & _ & Hr2 & Hc2 & Hact2).
  destruct (on_close_registry st1 _ w Hw) as [(reg2 & removed & Hrem & Hreg2) _].
  set (st2 := Server.on_close
                (Server.set_readyState (Server.allocated st) Server.CLOSED st1)
                (Server.allocated st)) in *.
  set (key := Server.roomKey (Server.ws_namespace w) (Server.ws_room w)) in *.
  exists st2, w. split; [done|].
  split.
  { simpl. rewrite Hw, Hopen. done. }
  assert (Hnotin : Server.allocated st ∉ default [] (Server.rooms st !! key)).
  { destruct (Server.rooms st !! key) as [members|] eqn:Hk; simpl.
    - intros Hin. destruct (Hroom key members Hk) as (_ & _ & Hall).
      destruct (Hall _ Hin) as (w0 & Hw0 & _). rewrite Hfresh in Hw0; done.
    - apply not_elem_of_nil. }
  split.
  { rewrite Hr2, Hr, lookup_insert_eq, (set_delete_add _ _ Hnotin).
    destruct (Server.rooms st !! key) as [members|] eqn:Hk; simpl.
    - destruct members as [|x members]; [by destruct (Hroom key [] Hk) as (? & _)|].
      by rewrite insert_insert_eq, insert_id.
    - by rewrite delete_insert_eq, delete_id. }
  split.
  { rewrite Hc2, Hip, Hc, lookup_insert_eq. cbv zeta.
    destruct (Server.connectionsByIp st !! Server.ipOf req) as [v|] eqn:Hv; simpl.
    - pose proof (Hpos _ _ Hv).
      destruct (Z.eqb_spec (v + 1) 0); [lia|].
      destruct (Z.leb_spec (v + 1 - 1) 0); [lia|].
      rewrite insert_insert_eq, insert_id; [done|]. rewrite Hv. f_equal. lia.
    - by rewrite delete_insert_eq, delete_id. }
  split; [rewrite Hact2, Hact; lia|].
  split; [by unfold st2; rewrite on_close_total|].
  intros Hok Habsent. rewrite Hreg2.
  rewrite Hreg1 in Hrem.
  pose proof (removePeer_after_register _ _ _ _ _ _ _ _ _ _ Hok Habsent Hreg) as Hback.
  rewrite Hback in Hrem. by injection Hrem as <- _.
Qed.


Lemma frames_leave_registry (frames : list Server.event) (st st' : Server.state) :
  Forall is_message frames →
  Server.run cfg st frames = Some st' →
  Server.rendezvous st' = Server.rendezvous st ∧ same_hub st st'.
Proof.
  intros Hall. revert st. induction Hall as [|ev frames Hev _ IH]; intros st; simpl.
  - intros [= <-]. split; [done|apply same_hub_refl].
  - destruct ev as [| ws raw t_rate t_stamp | | | | |]; try done. simpl.
    destruct (Server.sockets st !! ws) as [w|]; [|by apply IH].
    pose proof (on_message_rendezvous cfg st ws raw t_rate t_stamp) as Hreg.
    pose proof (on_message_same_hub cfg st ws raw t_rate t_stamp) as Hhub.
    destruct (Server.readyState w); try (by apply IH);
      (destruct (Server.on_message cfg st ws raw t_rate t_stamp) as [st1 o|st1 o];
         [|done]);
      simpl; intros Hrun; destruct (IH _ Hrun) as [Hr Hh];
      (split; [congruence|by eapply same_hub_trans]).
Qed.

(** X22: the record that the handshake registers for a session holds the
    client address, is seen at the handshake and expires 60 seconds later.
    No frame the server receives renews it: once that time has come a
    pruning drops it, while the session is still a member of its room. *)
Theorem session_record_lapses (st st1 : Server.state) (req : Server.request)
    (t_id : Z) (rnd : string) (t_register t_welcome : Z) (ws : nat)
    (out : list Server.frame) :
  registry_ok (Server.rendezvous st) →
  Server.on_upgrade cfg st req t_id rnd t_register t_welcome
  = (st1, Server.Upgraded ws out) →
  ∃ w r roomMap,
    let key := Server.roomKey (Server.ws_namespace w) (Server.ws_room w) in
    Server.sockets st1 !! ws = Some w
    ∧ Server.rendezvous st1 !! key = Some roomMap
    ∧ map_get (Some (JStr (Server.ws_peerId w))) roomMap = Some r
    ∧ Rendezvous.addresses r = JArr [JStr (Server.ipOf req)]
    ∧ Rendezvous.seenAt r = t_register
    ∧ Rendezvous.expiresAt r = Num (t_register + 60000)
    ∧ ∀ frames st2,
        Forall is_message frames →
        Server.run cfg st1 frames = Some st2 →
        Server.rendezvous st2 = Server.rendezvous st1
        ∧ (∃ members, Server.rooms st2 !! key = Some members ∧ ws ∈ members)
        ∧ ∀ now roomMap',
            t_register + 60000 ≤ now →
            Rendezvous.pruneExpired (Server.rendezvous st2) now !! key = Some roomMap' →
            map_get (Some (JStr (Server.ws_peerId w))) roomMap' = None.
Proof.
  intros Hok Hup.
  destruct (on_upgrade_session _ _ _ _ _ _ _ _ _ Hup)
    as (w & reg & r & -> & Hip & Hns & Hrm & Hpid & Hopen & Hs & Ha & Hr & Hc & Hact
        & Htot & Hreg & Hreg1).
  destruct (register_str (Server.rendezvous st) (Server.ws_namespace w) (Server.ws_room w)
              (Server.ws_peerId w) (Some (JArr [JStr (Server.ws_clientIp w)]))
              (Some (Num 60000)) (Some (JObj (<["transport" := JStr "websocket"]> ∅)))
              t_register Hok)
    as (reg' & r' & roomMap & Hreg' & Hok' & Hroom & Hentries & _ & Hseen & Hexp).
  rewrite Hreg in Hreg'. injection Hreg' as <- <-.
  destruct (register_inv _ _ _ _ _ _ _ _ _ _ Hreg) as (key0 & Hkey0 & Hregeq & _).
  rewrite roomKey_str in Hkey0. injection Hkey0 as <-.
  assert (Haddr : Rendezvous.addresses r = JArr [JStr (Server.ipOf req)]).
  { revert Hreg. unfold Rendezvous.register. rewrite roomKey_str. simpl.
    intros [= _ <-]. simpl. by rewrite Hip. }
  exists w, r, roomMap. cbv zeta.
  fold (Server.roomKey (Server.ws_namespace w) (Server.ws_room w)) in Hroom, Hregeq.
  set (key := Server.roomKey (Server.ws_namespace w) (Server.ws_room w)) in *.
  split; [by rewrite Hs, lookup_insert_eq|].
  split; [by rewrite Hreg1|].
  split.
  { rewrite Hregeq, lookup_insert_eq in Hroom. injection Hroom as <-.
    apply map_get_set_eq. by apply same_value_zero_str. }
  split; [done|]. split; [done|]. split; [done|].
  intros frames st2 Hframes Hrun.
  destruct (frames_leave_registry frames st1 st2 Hframes Hrun) as [Hreg2 Hhub].
  split; [done|]. split.
  { destruct Hhub as (-> & _). rewrite Hr. fold key. rewrite lookup_insert_eq.
    eexists. split; [done|]. unfold Server.set_add.
    case_bool_decide as Hin; [done|].
    apply elem_of_app. right. by left. }
  intros now roomMap' Hnow. rewrite Hreg2, Hreg1.
  intros (_ & roomMap0 & Hroom0 & ->)%pruneExpired_Some.
  rewrite Hroom in Hroom0. injection Hroom0 as <-.
  destruct (map_get (Some (JStr (Server.ws_peerId w)))
              (filter (λ e, negb (Rendezvous.expired now e.2)) roomMap)) eqn:Hget; [|done].
  assert (Hsome : is_Some (map_get (Some (JStr (Server.ws_peerId w)))
                    (filter (λ e, negb (Rendezvous.expired now e.2)) roomMap)))
    by by rewrite Hget.
  apply map_get_entries_of in Hsome.
  rewrite (entries_of_filter (Server.ws_peerId w)
             (λ e : jsval * Rendezvous.record, negb (Rendezvous.expired now e.2))) in Hsome.
  rewrite Hentries, filter_cons, filter_nil in Hsome.
  destruct (decide _) as [Hlive|_]; [|done]. simpl in Hlive.
  unfold Rendezvous.expired in Hlive. rewrite Hexp in Hlive. simpl in Hlive.
  destruct (Z.leb_spec (t_register + 60000) now); [done|lia].
Qed.

End Lifecycle.

(** ** The HTTP routes *)

Section Routes.
Context `{Runtime}.
Variable cfg : Server.config.

Lemma sum_indicator_length {V : Type} (P : V → bool) (m : gmap nat V) (l : list nat) :
  NoDup l →
  (∀ i, i ∈ l ↔ ∃ v, m !! i = Some v ∧ P v = true) →
  sum_over (λ v, if P v then 1 else 0) m = Z.of_nat (length l).
Proof.
  revert l. induction m as [|i x m Hi IH] using map_ind; intros l Hnd Hl.
  - rewrite sum_over_empty. destruct l as [|j l]; [done|].
    destruct (proj1 (Hl j)) as (v & Hv & _); [by left|].
    by rewrite lookup_empty in Hv.
  - rewrite sum_over_insert_None by done.
    destruct (P x) eqn:HP.
    + assert (Hin : i ∈ l).
      { apply Hl. exists x. by rewrite lookup_insert_eq. }
      rewrite (IH (Server.set_delete i l)).
      * pose proof (set_delete_length i l Hnd Hin). lia.
      * by apply NoDup_filter.
      * intros j. unfold Server.set_delete. rewrite list_elem_of_filter, Hl.
        split.
        { intros (Hne & v & Hv & Hpv). rewrite lookup_insert_ne in Hv by done.
          by exists v. }
        { intros (v & Hv & Hpv).
          assert (Hne : j ≠ i) by (intros ->; congruence).
          split; [done|]. exists v. by rewrite lookup_insert_ne. }
    + rewrite (IH l Hnd); [lia|].
      intros j. rewrite Hl. split.
      * intros (v & Hv & Hpv). destruct (decide (i = j)) as [<-|Hne].
        { rewrite lookup_insert_eq in Hv. injection Hv as <-. congruence. }
        { rewrite lookup_insert_ne in Hv by done. by exists v. }
      * intros (v & Hv & Hpv).
        assert (Hne : i ≠ j) by (intros ->; congruence).
        exists v. by rewrite lookup_insert_ne.
Qed.

Lemma room_size_live_in (st : Server.state) (key : string) :
  hub_ok st →
  Z.of_nat (length (default [] (Server.rooms st !! key))) = live_in st key.
Proof.
  intros (Hroom & Hmember & _). unfold live_in. symmetry.
  apply (sum_indicator_length
           (λ w, Server.is_live w
                 && String.eqb (Server.roomKey (Server.ws_namespace w) (Server.ws_room w)) key)).
  - destruct (Server.rooms st !! key) as [members|] eqn:Hk; simpl; [|constructor].
    by destruct (Hroom key members Hk) as (_ & ? & _).
  - intros ws. split.
    + intros Hin. destruct (Server.rooms st !! key) as [members|] eqn:Hk; simpl in Hin;
        [|by apply elem_of_nil in Hin].
      destruct (Hroom key members Hk) as (_ & _ & Hall).
      destruct (Hall ws Hin) as (w & Hw & Hlive & Hkey).
      exists w. split; [done|]. rewrite Hlive, Hkey. by rewrite String.eqb_refl.
    + intros (w & Hw & [Hlive Hkey%String.eqb_eq]%andb_true_iff).
      destruct (Hmember ws w Hw Hlive) as (members & Hk & Hin).
      rewrite Hkey in Hk. by rewrite Hk.
Qed.

(** X23: [GET /bootstrap] answers with the namespace and the room asked
    for (['global'] and ['public'] by default), the signaling URL of the
    environment or the fixed default, and as [peers] the number of live
    sessions that joined under the key of that room. *)
Theorem bootstrap_counts_sessions (st : Server.state) (req : Server.request)
    (raw : string) (t : Z) (url : option string) :
  hub_ok st →
  Server.pathname req = "/bootstrap"%string →
  let namespace := Server.param_or req "namespace" "global" in
  let room := Server.param_or req "room" "public" in
  ∃ body,
    Server.on_request cfg st "GET" req raw t url = (st, Server.Bootstrap (JObj body))
    ∧ body !! "namespace" = Some (JStr namespace)
    ∧ body !! "room" = Some (JStr room)
    ∧ body !! "peers" = Some (JNum (live_in st (Server.roomKey namespace room)))
    ∧ body !! "signalingUrl"
      = Some (JStr (match url with
                    | Some u => if String.eqb u "" then "wss://example.com/signal" else u
                    | None => "wss://example.com/signal"
                    end))
    ∧ dom body = {["namespace"; "room"; "peers"; "signalingUrl"]}.
Proof.
  intros Hhub Hpath namespace room.
  eexists. split.
  { unfold Server.on_request. rewrite Hpath. simpl. reflexivity. }
  fold namespace room.
  split; [done|]. split; [done|].
  split; [by rewrite <- (room_size_live_in st _ Hhub)|].
  split; [by destruct url|].
  rewrite !dom_insert_L, dom_empty_L. set_solver.
Qed.


Lemma rendezvous_discover_prunes (st : Server.state) (req : Server.request) (now : Z) :
  ∃ records,
    Server.rendezvous_discover st req now
    = (Server.set_rendezvous (Rendezvous.pruneExpired (Server.rendezvous st) now) st,
       Server.Ok_peers (Server.param_or req "namespace" "global")
         (Server.param_or req "room" "public") records).
Proof.
  unfold Server.rendezvous_discover. rewrite discover_str. by eexists.
Qed.

(** X24: an HTTP request leaves the sessions alone: rooms, sockets,
    connection counters, gauge and message buckets are as before.  Only the
    two rendezvous routes change anything.  A request whose token is not
    valid adds no record to the registry, and the auth failures are counted
    once for each 401, which only [POST /rendezvous/register] answers. *)
Theorem http_request_effect (st : Server.state) (method : string)
    (req : Server.request) (raw : string) (t : Z) (url : option string) :
  let r := Server.on_request cfg st method req raw t url in
  same_hub st r.1
  ∧ Server.rateLimitByIp r.1 = Server.rateLimitByIp st
  ∧ Server.peers r.1 = Server.peers st
  ∧ ((∀ h, r.2 ≠ Server.Rendezvous_reply h) → r.1 = st)
  ∧ (Server.validateToken cfg (Server.parseAuthToken req) = false →
     ∀ key roomMap' e,
       Server.rendezvous r.1 !! key = Some roomMap' → e ∈ roomMap' →
       ∃ roomMap, Server.rendezvous st !! key = Some roomMap ∧ e ∈ roomMap)
  ∧ Server.wsAuthFailuresTotal (Server.metrics r.1)
    = Server.wsAuthFailuresTotal (Server.metrics st)
      + (if bool_decide (Server.status_of r.2 = Some 401) then 1 else 0)
  ∧ (Server.status_of r.2 = Some 401 →
     method = "POST"%string
     ∧ Server.pathname req = "/rendezvous/register"%string
     ∧ Server.validateToken cfg (Server.parseAuthToken req) = false).
Proof.
  cbv zeta. unfold Server.on_request.
  assert (Hsame : ∀ rp, Server.status_of rp ≠ Some 401 →
            same_hub st st
            ∧ Server.rateLimitByIp st = Server.rateLimitByIp st
            ∧ Server.peers st = Server.peers st
            ∧ ((∀ h, rp ≠ Server.Rendezvous_reply h) → st = st)
            ∧ (Server.validateToken cfg (Server.parseAuthToken req) = false →
               ∀ key roomMap' e,
                 Server.rendezvous st !! key = Some roomMap' → e ∈ roomMap' →
                 ∃ roomMap, Server.rendezvous st !! key = Some roomMap ∧ e ∈ roomMap)
            ∧ Server.wsAuthFailuresTotal (Server.metrics st)
              = Server.wsAuthFailuresTotal (Server.metrics st)
                + (if bool_decide (Server.status_of rp = Some 401) then 1 else 0)
            ∧ (Server.status_of rp = Some 401 →
               method = "POST"%string
               ∧ Server.pathname req = "/rendezvous/register"%string
               ∧ Server.validateToken cfg (Server.parseAuthToken req) = false)).
  { intros rp Hrp. split; [apply same_hub_refl|]. split; [done|]. split; [done|].
    split; [done|]. split; [by eauto|].
    rewrite bool_decide_eq_false_2 by done. split; [lia|done]. }
  destruct (String.eqb method "OPTIONS"); [by apply Hsame|].
  destruct (String.eqb (Server.pathname req) "/health"); [by apply Hsame|].
  destruct (String.eqb (Server.pathname req) "/metrics").
  { simpl. apply Hsame. by destruct (Server.renderMetrics st). }
  destruct (String.eqb (Server.pathname req) "/bootstrap" && String.eqb method "GET");
    [by apply Hsame|].
  destruct (String.eqb_spec (Server.pathname req) "/rendezvous/register") as [Hpath|_];
    [destruct (String.eqb_spec method "POST") as [Hmethod|_]|]; simpl.
  - (* POST /rendezvous/register *)
    unfold Server.rendezvous_register.
    destruct (Server.validateToken cfg (Server.parseAuthToken req)) eqn:Hvalid; simpl.
    + destruct (_ ≫= _) as [[reg record]|]; simpl;
        (split; [by repeat split|]); (split; [done|]); (split; [done|]);
        (split; [by intros Hno; destruct (Hno _ eq_refl)|]); (split; [done|]);
        (split; [lia|done]).
    + split; [by repeat split|]. split; [done|]. split; [done|].
      split; [by intros Hno; destruct (Hno _ eq_refl)|].
      split; [by eauto|]. split; [done|]. done.
  - replace (String.eqb (Server.pathname req) "/rendezvous/discover") with false
      by by rewrite Hpath.
    by apply Hsame.
  - destruct (String.eqb (Server.pathname req) "/rendezvous/discover" && String.eqb method "GET");
      [|by apply Hsame].
    destruct (rendezvous_discover_prunes st req t) as (records & ->). simpl.
    split; [by repeat split|]. split; [done|]. split; [done|].
    split; [by intros Hno; destruct (Hno _ eq_refl)|].
    split; [|split; [lia|done]].
    intros _ key roomMap' e (_ & roomMap0 & Hroom0 & ->)%pruneExpired_Some Hin.
    exists roomMap0. split; [done|].
    by apply list_elem_of_filter in Hin as [_ Hin].
Qed.


(** X25: [GET /rendezvous/discover] asks for no token, and lists a session
    from its handshake on: until 60 seconds have passed, a request for the
    session's room with no [limit], whatever its headers, is answered with
    a list that holds the session's record, with its peer id and the client
    address, provided the room holds at most 32 records. *)
Theorem session_is_discoverable (st st1 : Server.state) (req : Server.request)
    (t_id : Z) (rnd : string) (t_register t_welcome : Z) (ws : nat)
    (out : list Server.frame) (dreq : Server.request) (raw : string) (now : Z)
    (url : option string) :
  registry_ok (Server.rendezvous st) →
  Server.on_upgrade cfg st req t_id rnd t_register t_welcome
  = (st1, Server.Upgraded ws out) →
  let namespace := Server.param_or req "namespace" "global" in
  let room := Server.param_or req "room" "public" in
  let peerId := Server.param_or req "peerId"
                  ("peer-" +:+ Number_toString t_id +:+ "-" +:+ rnd) in
  Server.pathname dreq = "/rendezvous/discover"%string →
  Server.param_or dreq "namespace" "global" = namespace →
  Server.param_or dreq "room" "public" = room →
  Server.searchParams_get "limit" (Server.searchParams dreq) = None →
  now < t_register + 60000 →
  (∀ roomMap, Server.rendezvous st1 !! Server.roomKey namespace room = Some roomMap →
              (length roomMap ≤ 32)%nat) →
  ∃ st2 records r,
    Server.on_request cfg st1 "GET" dreq raw now url
    = (st2, Server.Rendezvous_reply (Server.Ok_peers namespace room records))
    ∧ r ∈ records
    ∧ Rendezvous.peerId r = Some (JStr peerId)
    ∧ Rendezvous.addresses r = JArr [JStr (Server.ipOf req)]
    ∧ Rendezvous.seenAt r = t_register.
Proof.
  intros Hok Hup namespace room peerId Hpath Hns Hroom Hlimit Hnow Hsize.
  destruct (on_upgrade_session _ _ _ _ _ _ _ _ _ _ Hup)
    as (w & reg & r & -> & Hip & Hwns & Hwrm & Hpid & Hopen & Hs & Ha & Hr & Hc & Hact
        & Htot & Hreg & Hreg1).
  fold namespace in Hwns. fold room in Hwrm. fold peerId in Hpid.
  rewrite Hwns, Hwrm, Hpid, Hip in Hreg.
  destruct (register_str (Server.rendezvous st) namespace room peerId
              (Some (JArr [JStr (Server.ipOf req)]))
              (Some (Num 60000)) (Some (JObj (<["transport" := JStr "websocket"]> ∅)))
              t_register Hok)
    as (reg' & r' & roomMap & Hreg' & Hok' & Hrm & Hentries & Hpeer & Hseen & Hexp).
  rewrite Hreg in Hreg'. injection Hreg' as <- <-.
  assert (Haddr : Rendezvous.addresses r = JArr [JStr (Server.ipOf req)]).
  { revert Hreg. unfold Rendezvous.register. rewrite roomKey_str. simpl.
    by intros [= _ <-]. }
  destruct (discover_count reg namespace room peerId (Some (Num 32)) now roomMap Hok' Hrm)
    as (reg2 & found & Hdisc & _ & Hcovers).
  destruct Hcovers as [_ Hfound].
  { unfold limit_covers. simpl. rewrite <- Hreg1 in Hrm.
    pose proof (Hsize _ Hrm). lia. }
  exists (Server.set_rendezvous reg2 st1), found, r.
  split.
  { unfold Server.on_request. rewrite Hpath. simpl.
    unfold Server.rendezvous_discover. rewrite Hns, Hroom, Hlimit, Hreg1, Hdisc. done. }
  split.
  { apply (Hfound (Some (JStr peerId), r)).
    - rewrite Hentries. by left.
    - unfold Rendezvous.expired. simpl. rewrite Hexp. simpl.
      apply Z.leb_gt. lia. }
  by repeat split.
Qed.

End Routes.

(** ** The metrics text *)

Section MetricsText.
Context `{Runtime}.
Variable cfg : Server.config.

Lemma split_colons_step (piece : list Ascii.ascii) (c : Ascii.ascii) (s : string) :
  c ≠ Server.colon →
  Server.split_colons piece (String c s) = Server.split_colons (c :: piece) s.
Proof.
  intros Hc. simpl.
  destruct (Ascii.eqb_spec c Server.colon) as [->|_]; [done|].
  by destruct s.
Qed.

Lemma split_colons_free (piece : list Ascii.ascii) (s : string) :
  colon_free s →
  Server.split_colons piece s
  = [String.string_of_list_ascii (rev piece ++ String.list_ascii_of_string s)].
Proof.
  revert piece. induction s as [|c s IH]; intros piece Hs.
  - simpl. by rewrite app_nil_r.
  - apply colon_free_cons in Hs as [Hc Hs].
    rewrite split_colons_step by done. rewrite IH by done.
    simpl. by rewrite <- app_assoc.
Qed.

Lemma split_colons_app (piece : list Ascii.ascii) (s rest : string) :
  colon_free s →
  Server.split_colons piece (s +:+ "::" +:+ rest)
  = String.string_of_list_ascii (rev piece ++ String.list_ascii_of_string s)
    :: Server.split_colons [] rest.
Proof.
  revert piece. induction s as [|c s IH]; intros piece Hs.
  - change ("" +:+ "::" +:+ rest) with (String Server.colon (String Server.colon rest)).
    simpl. by rewrite app_nil_r.
  - apply colon_free_cons in Hs as [Hc Hs].
    change (String c s +:+ "::" +:+ rest) with (String c (s +:+ "::" +:+ rest)).
    rewrite split_colons_step by done. rewrite IH by done.
    simpl. by rewrite <- app_assoc.
Qed.

(** X26: the line of a region and a carrier.  When neither holds a colon,
    the key [region::carrier] that a telemetry report is tallied under is
    rendered with exactly these two labels, each between double quotes
    with its double quotes escaped.  When the region itself holds [::],
    what follows it is rendered as the carrier, and the carrier is lost. *)
Theorem region_carrier_labels (region carrier : string) (n : Z) :
  colon_free region →
  colon_free carrier →
  Server.region_carrier_line (Some (JStr (region +:+ "::" +:+ carrier)), n)
  = Some ("bs_region_carrier_total{region="
          +:+ String Server.quote (Server.escape_quotes region)
          +:+ String Server.quote ",carrier="
          +:+ String Server.quote (Server.escape_quotes carrier)
          +:+ String Server.quote "} " +:+ Number_toString n)
  ∧ ∀ lost,
      Server.region_carrier_line
        (Some (JStr ((region +:+ "::" +:+ carrier) +:+ "::" +:+ lost)), n)
      = Server.region_carrier_line (Some (JStr (region +:+ "::" +:+ carrier)), n).
Proof.
  intros Hregion Hcarrier.
  assert (Hsplit : Server.split_colons [] (region +:+ "::" +:+ carrier) = [region; carrier]).
  { rewrite split_colons_app by done. rewrite split_colons_free by done. simpl.
    by rewrite !String.string_of_list_ascii_of_string. }
  split.
  - unfold Server.region_carrier_line. cbn [fst snd]. rewrite Hsplit.
    unfold Server.formatPromMetric. simpl.
    by rewrite !append_assoc.
  - intros lost. unfold Server.region_carrier_line. cbn [fst snd].
    rewrite Hsplit, !append_assoc.
    rewrite split_colons_app by done. rewrite split_colons_app by done.
    simpl. by rewrite !String.string_of_list_ascii_of_string.
Qed.


Lemma String_of_primitive (k : jsval) : primitive_label k → is_Some (Server.String_of k).
Proof. destruct k as [[| [|] | | | |]|]; simpl; try done; by eexists. Qed.

Lemma labelled_line_is_Some (name label : string) (kv : jsval * Z) :
  primitive_label kv.1 →
  is_Some (Server.formatPromMetric name kv.2 (Some [(label, kv.1)])).
Proof.
  intros Hk. destruct (String_of_primitive _ Hk) as [s Hs].
  unfold Server.formatPromMetric. simpl. rewrite Hs. simpl. by eexists.
Qed.

Lemma region_carrier_line_is_Some (kv : jsval * Z) :
  string_label kv.1 → is_Some (Server.region_carrier_line kv).
Proof.
  intros [s Hs]. unfold Server.region_carrier_line. rewrite Hs.
  unfold Server.formatPromMetric. simpl.
  destruct (Server.split_colons [] s !! 0%nat), (Server.split_colons [] s !! 1%nat);
    simpl; by eexists.
Qed.

(** X27: when the labels tallied so far are primitives, and the
    region-carrier keys strings, [renderMetrics] throws nothing and
    [/metrics] answers 200 to every method but OPTIONS.  The text is a
    sequence of lines, each ended by a line feed: eighteen for the six
    plain counters, each of which is shown as [name value] after its HELP
    and TYPE lines, then one line for each label tallied. *)
Theorem metrics_text_rendered (st : Server.state) :
  let m := Server.metrics st in
  Forall (λ kv, primitive_label kv.1) (Server.iceState m) →
  Forall (λ kv, primitive_label kv.1) (Server.failureReason m) →
  Forall (λ kv, string_label kv.1) (Server.byRegionCarrier m) →
  ∃ lines,
    Server.renderMetrics st
    = Some (Server.join (String Server.line_feed "") lines
            +:+ String Server.line_feed "")
    ∧ length lines
      = (18 + length (Server.iceState m) + length (Server.failureReason m)
         + length (Server.byRegionCarrier m))%nat
    ∧ lines !! 2%nat
      = Some ("bs_ws_connections_total " +:+ Number_toString (Server.wsConnectionsTotal m))
    ∧ lines !! 5%nat
      = Some ("bs_ws_active_connections " +:+ Number_toString (Server.wsActiveConnections m))
    ∧ lines !! 8%nat
      = Some ("bs_ws_messages_total " +:+ Number_toString (Server.wsMessagesTotal m))
    ∧ lines !! 11%nat
      = Some ("bs_ws_auth_failures_total "
              +:+ Number_toString (Server.wsAuthFailuresTotal m))
    ∧ lines !! 14%nat
      = Some ("bs_ws_rate_limited_total "
              +:+ Number_toString (Server.wsRateLimitedTotal m))
    ∧ lines !! 17%nat
      = Some ("bs_relay_usage_total " +:+ Number_toString (Server.relayUsageTotal m))
    ∧ ∀ method req raw t url,
        String.eqb method "OPTIONS" = false →
        Server.pathname req = "/metrics"%string →
        Server.on_request cfg st method req raw t url
        = (st, Server.Metrics (Server.join (String Server.line_feed "") lines
                               +:+ String Server.line_feed "")).
Proof.
  intros m Hice Hfail Hregion.
  destruct (mapM_is_Some_2
              (λ kv : jsval * Z,
                 Server.formatPromMetric "bs_ice_state_total" kv.2
                   (Some [("ice_state"%string, kv.1)])) (Server.iceState m))
    as [ice Eice].
  { eapply Forall_impl; [exact Hice|]. intros kv Hkv. by apply labelled_line_is_Some. }
  destruct (mapM_is_Some_2
              (λ kv : jsval * Z,
                 Server.formatPromMetric "bs_failure_reason_total" kv.2
                   (Some [("reason"%string, kv.1)])) (Server.failureReason m))
    as [reasons Ereasons].
  { eapply Forall_impl; [exact Hfail|]. intros kv Hkv. by apply labelled_line_is_Some. }
  destruct (mapM_is_Some_2 Server.region_carrier_line (Server.byRegionCarrier m))
    as [regions Eregions].
  { eapply Forall_impl; [exact Hregion|]. intros kv Hkv.
    by apply region_carrier_line_is_Some. }
  assert (Hrender : ∃ lines,
            Server.renderMetrics st
            = Some (Server.join (String Server.line_feed "") (lines ++ ice ++ reasons ++ regions)
                    +:+ String Server.line_feed "")
            ∧ length lines = 18%nat
            ∧ lines !! 2%nat
              = Some ("bs_ws_connections_total "
                      +:+ Number_toString (Server.wsConnectionsTotal m))
            ∧ lines !! 5%nat
              = Some ("bs_ws_active_connections "
                      +:+ Number_toString (Server.wsActiveConnections m))
            ∧ lines !! 8%nat
              = Some ("bs_ws_messages_total " +:+ Number_toString (Server.wsMessagesTotal m))
            ∧ lines !! 11%nat
              = Some ("bs_ws_auth_failures_total "
                      +:+ Number_toString (Server.wsAuthFailuresTotal m))
            ∧ lines !! 14%nat
              = Some ("bs_ws_rate_limited_total "
                      +:+ Number_toString (Server.wsRateLimitedTotal m))
            ∧ lines !! 17%nat
              = Some ("bs_relay_usage_total " +:+ Number_toString (Server.relayUsageTotal m))).
  { unfold Server.renderMetrics. fold m.
    rewrite Eice, Ereasons, Eregions. cbn [Server.formatPromMetric mbind option_bind].
    eexists. split; [reflexivity|]. by repeat split. }
  destruct Hrender as (lines & Hrender & Hlen & H2 & H5 & H8 & H11 & H14 & H17).
  exists (lines ++ ice ++ reasons ++ regions).
  split; [done|]. split.
  { rewrite !length_app, Hlen.
    rewrite (length_mapM _ _ _ Eice), (length_mapM _ _ _ Ereasons),
      (length_mapM _ _ _ Eregions). lia. }
  assert (Hlookup : ∀ i x, lines !! i = Some x →
                           (lines ++ ice ++ reasons ++ regions) !! i = Some x).
  { intros i x Hx. by apply lookup_app_l_Some. }
  repeat (split; [by apply Hlookup|]).
  intros method req raw t url Hmethod Hpath.
  unfold Server.on_request. rewrite Hmethod, Hpath. simpl. by rewrite Hrender.
Qed.

End MetricsText.

(** ** The room hub, in every run *)

Section HubEveryRun.
Context `{Runtime}.
Variable cfg : Server.config.

Lemma hub_ok_same (st st' : Server.state) :
  Server.rooms st' = Server.rooms st →
  Server.sockets st' = Server.sockets st →
  Server.allocated st' = Server.allocated st →
  hub_ok st → hub_ok st'.
Proof. unfold hub_ok. by intros -> -> ->. Qed.

Lemma hub_ok_join (st st' : Server.state) (w : Server.socket) :
  let a := Server.allocated st in
  let key := Server.roomKey (Server.ws_namespace w) (Server.ws_room w) in
  Server.is_live w = true →
  Server.sockets st' = <[a := w]> (Server.sockets st) →
  Server.allocated st' = S a →
  Server.rooms st'
  = <[key := Server.set_add a (default [] (Server.rooms st !! key))]> (Server.rooms st) →
  hub_ok st → hub_ok st'.
Proof.
  intros a key Hlive Hsockets Halloc Hrooms (Hroom & Hmember & Hfresh).
  assert (Ha : Server.sockets st !! a = None) by (by apply Hfresh).
  assert (Hnotin : ∀ k members, Server.rooms st !! k = Some members → a ∉ members).
  { intros k members Hk Hin. destruct (Hroom k members Hk) as (_ & _ & Hall).
    destruct (Hall a Hin) as (w0 & Hw0 & _). congruence. }
  assert (Hadd : Server.set_add a (default [] (Server.rooms st !! key))
                 = default [] (Server.rooms st !! key) ++ [a]).
  { unfold Server.set_add. rewrite bool_decide_eq_false_2; [done|].
    destruct (Server.rooms st !! key) as [members|] eqn:Hk; simpl.
    - by eapply Hnotin.
    - apply not_elem_of_nil. }
  rewrite Hadd in Hrooms. clear Hadd.
  split; [|split].
  - intros k members. rewrite Hrooms. destruct (decide (key = k)) as [<-|Hne].
    + rewrite lookup_insert_eq. intros [= <-]. split; [by destruct (default _ _)|].
      split.
      { apply NoDup_app. split; [|split].
        - destruct (Server.rooms st !! key) as [members|] eqn:Hk; simpl.
          + by destruct (Hroom key members Hk) as (_ & ? & _).
          + constructor.
        - intros x Hx ->%list_elem_of_singleton.
          destruct (Server.rooms st !! key) as [members|] eqn:Hk; simpl in Hx.
          + by eapply Hnotin.
          + by apply elem_of_nil in Hx.
        - apply NoDup_singleton. }
      intros ws [Hin| ->%list_elem_of_singleton]%elem_of_app.
      { destruct (Server.rooms st !! key) as [members|] eqn:Hk; simpl in Hin;
          [|by apply elem_of_nil in Hin].
        destruct (Hroom key members Hk) as (_ & _ & Hall).
        destruct (Hall ws Hin) as (w0 & Hw0 & Hl0 & Hk0).
        exists w0. rewrite Hsockets, lookup_insert_ne; [done|]. congruence. }
      exists w. by rewrite Hsockets, lookup_insert_eq.
    + rewrite lookup_insert_ne by done. intros Hk.
      destruct (Hroom k members Hk) as (Hnil & Hnodup & Hall).
      split; [done|]. split; [done|]. intros ws Hin.
      destruct (Hall ws Hin) as (w0 & Hw0 & Hl0 & Hk0).
      exists w0. rewrite Hsockets, lookup_insert_ne; [done|]. congruence.
  - intros ws w0. rewrite Hsockets, Hrooms.
    destruct (decide (a = ws)) as [<-|Hne].
    + rewrite lookup_insert_eq. intros [= <-] _. fold key.
      rewrite lookup_insert_eq. eexists. split; [done|].
      apply elem_of_app. right. by left.
    + rewrite lookup_insert_ne by done. intros Hw0 Hl0.
      destruct (Hmember ws w0 Hw0 Hl0) as (members & Hk & Hin).
      destruct (decide (key = Server.roomKey (Server.ws_namespace w0) (Server.ws_room w0)))
        as [Heq|Hkne].
      { rewrite <- Heq in *. rewrite lookup_insert_eq. eexists. split; [done|].
        rewrite Hk. simpl. apply elem_of_app. by left. }
      rewrite lookup_insert_ne by done. by exists members.
  - intros ws Hws. rewrite Hsockets, Halloc in *.
    rewrite lookup_insert_ne by lia. apply Hfresh. lia.
Qed.

Lemma hub_ok_close (st st' : Server.state) (ws : nat) (w w' : Server.socket) :
  let key := Server.roomKey (Server.ws_namespace w) (Server.ws_room w) in
  Server.sockets st !! ws = Some w →
  Server.is_live w = true →
  Server.is_live w' = false →
  Server.sockets st' = <[ws := w']> (Server.sockets st) →
  Server.allocated st' = Server.allocated st →
  Server.rooms st'
  = match Server.rooms st !! key with
    | Some members =>
        match Server.set_delete ws members with
        | [] => delete key (Server.rooms st)
        | members' => <[key := members']> (Server.rooms st)
        end
    | None => Server.rooms st
    end →
  hub_ok st → hub_ok st'.
Proof.
  intros key Hw Hlive Hdead Hsockets Halloc Hrooms (Hroom & Hmember & Hfresh).
  destruct (Hmember ws w Hw Hlive) as (members & Hkey & Hin). fold key in Hkey.
  destruct (Hroom key members Hkey) as (_ & Hnodup & Hall).
  rewrite Hkey in Hrooms.
  assert (Hothers : ∀ k ms x, k ≠ key → Server.rooms st !! k = Some ms → x ∈ ms → x ≠ ws).
  { intros k ms x Hne Hk Hx ->. destruct (Hroom k ms Hk) as (_ & _ & Hall').
    destruct (Hall' ws Hx) as (w0 & Hw0 & _ & Hk0). by simplify_eq. }
  assert (Hrooms_key : Server.rooms st' !! key
                       = match Server.set_delete ws members with
                         | [] => None
                         | members' => Some members'
                         end).
  { rewrite Hrooms. destruct (Server.set_delete ws members);
      [apply lookup_delete_eq | apply lookup_insert_eq]. }
  assert (Hrooms_ne : ∀ k, k ≠ key → Server.rooms st' !! k = Server.rooms st !! k).
  { intros k Hne. rewrite Hrooms. destruct (Server.set_delete ws members);
      [by apply lookup_delete_ne | by apply lookup_insert_ne]. }
  split; [|split].
  - intros k ms. destruct (decide (k = key)) as [->|Hne].
    + rewrite Hrooms_key.
      destruct (Server.set_delete ws members) as [|y ms'] eqn:Hdel; [done|].
      intros [= <-]. split; [done|]. split.
      { rewrite <- Hdel. by apply NoDup_filter. }
      intros x Hx. rewrite <- Hdel in Hx.
      apply list_elem_of_filter in Hx as [Hne Hx].
      destruct (Hall x Hx) as (w0 & Hw0 & Hl0 & Hk0).
      exists w0. by rewrite Hsockets, lookup_insert_ne.
    + rewrite Hrooms_ne by done. intros Hk.
      destruct (Hroom k ms Hk) as (Hnil & Hnd & Hall').
      split; [done|]. split; [done|]. intros x Hx.
      destruct (Hall' x Hx) as (w0 & Hw0 & Hl0 & Hk0).
      exists w0. rewrite Hsockets, lookup_insert_ne; [done|].
      intros Heq. by apply (Hothers k ms x Hne Hk Hx).
  - intros x w0. rewrite Hsockets. destruct (decide (ws = x)) as [<-|Hne].
    { rewrite lookup_insert_eq. intros [= <-]. congruence. }
    rewrite lookup_insert_ne by done. intros Hw0 Hl0.
    destruct (Hmember x w0 Hw0 Hl0) as (ms & Hk & Hx).
    destruct (decide (Server.roomKey (Server.ws_namespace w0) (Server.ws_room w0) = key))
      as [Heq|Hkne].
    + rewrite Heq in *. rewrite Hrooms_key. simplify_eq.
      assert (Hx' : x ∈ Server.set_delete ws members).
      { apply list_elem_of_filter. split; [congruence | done]. }
      destruct (Server.set_delete ws members) as [|y ms'];
        [by apply elem_of_nil in Hx' | by eexists].
    + rewrite Hrooms_ne by done. by exists ms.
  - intros x Hx. rewrite Hsockets. rewrite Halloc in Hx.
    rewrite lookup_insert_ne; [by apply Hfresh|].
    intros ->. rewrite Hfresh in Hw; done.
Qed.

Lemma hub_ok_closing (st : Server.state) (ws : nat) (w : Server.socket) :
  Server.sockets st !! ws = Some w →
  Server.is_live w = true →
  hub_ok st → hub_ok (Server.set_readyState ws Server.CLOSING st).
Proof.
  intros Hw Hlive (Hroom & Hmember & Hfresh).
  set (w' := {| Server.ws_peerId := Server.ws_peerId w;
                Server.ws_namespace := Server.ws_namespace w;
                Server.ws_room := Server.ws_room w;
                Server.ws_clientIp := Server.ws_clientIp w;
                Server.readyState := Server.CLOSING |}).
  assert (Hsockets : Server.sockets (Server.set_readyState ws Server.CLOSING st)
                     = <[ws := w']> (Server.sockets st)).
  { simpl. by rewrite (alter_alt_Some _ _ _ _ Hw). }
  split; [|split].
  - intros k ms Hk. destruct (Hroom k ms Hk) as (Hnil & Hnd & Hall).
    split; [done|]. split; [done|]. intros x Hx.
    destruct (Hall x Hx) as (w0 & Hw0 & Hl0 & Hk0). rewrite Hsockets.
    destruct (decide (ws = x)) as [<-|Hne].
    + rewrite lookup_insert_eq. exists w'. by simplify_eq.
    + rewrite lookup_insert_ne by done. by exists w0.
  - intros x w0. rewrite Hsockets. destruct (decide (ws = x)) as [<-|Hne].
    + rewrite lookup_insert_eq. intros [= <-] _. by apply (Hmember ws w).
    + rewrite lookup_insert_ne by done. apply Hmember.
  - intros x Hx. rewrite Hsockets. simpl in Hx.
    rewrite lookup_insert_ne; [by apply Hfresh|].
    intros ->. rewrite Hfresh in Hw; done.
Qed.

Lemma on_upgrade_hub (st : Server.state) (req : Server.request) (t_id : Z)
    (rnd : string) (t_register t_welcome : Z) :
  hub_ok st → hub_ok (Server.on_upgrade cfg st req t_id rnd t_register t_welcome).1.
Proof.
  intros Hhub.
  destruct (Server.on_upgrade cfg st req t_id rnd t_register t_welcome)
    as [st1 [code| |ws out]] eqn:Hup.
  1,2: (revert Hup; unfold Server.on_upgrade;
        destruct (negb (String.eqb (Server.pathname req) "/signal"));
          [intros ?; by simplify_eq|];
        unfold Server.allowConnection;
        destruct (num_gt _ (Server.MAX_CONNECTIONS_PER_IP cfg)); cbn [negb];
          [intros ?; simplify_eq; by apply (hub_ok_same st)|];
        destruct (Server.validateToken cfg (Server.parseAuthToken req)); cbn [negb];
          [|intros ?; simplify_eq; by apply (hub_ok_same st)];
        destruct (Server.handshake req);
          [by destruct (Server.on_connection _ _ _ _ _ _ _) as [[? ?] ?]
          |intros ?; simplify_eq; by apply (hub_ok_same st)..]).
  - destruct (on_upgrade_session cfg _ _ _ _ _ _ _ _ _ Hup)
      as (w & reg & r & -> & _ & _ & _ & _ & Hopen & Hs & Ha & Hr & _).
    simpl. apply (hub_ok_join st st1 w); try done.
    unfold Server.is_live. by rewrite Hopen.
Qed.

Lemma hub_ok_step (st st' : Server.state) (ev : Server.event) :
  Server.step cfg st ev = Some st' → hub_ok st → hub_ok st'.
Proof.
  destruct ev as [req t_id rnd t_register t_welcome|ws raw t_rate t_stamp|ws|ws
                 |req raw now|req now|now]; simpl.
  - intros [= <-]. apply on_upgrade_hub.
  - destruct (Server.sockets st !! ws) as [w|]; [|by intros [= <-]].
    pose proof (on_message_same_hub cfg st ws raw t_rate t_stamp) as Hm.
    destruct (Server.readyState w); try (by intros [= <-]);
      destruct (Server.on_message cfg st ws raw t_rate t_stamp); intros [= <-];
      destruct Hm as (Hr & Hs & Ha & _); by apply hub_ok_same.
  - destruct (Server.sockets st !! ws) as [w|] eqn:Hw; [|by intros [= <-]].
    destruct (Server.readyState w) eqn:Hr; intros [= <-]; try done;
      apply (hub_ok_closing st ws w Hw); unfold Server.is_live; by rewrite Hr.
  - destruct (Server.sockets st !! ws) as [w|] eqn:Hw; [|by intros [= <-]].
    destruct (on_close_spec st ws w Hw) as (w' & Hdead & Hs & Ha & Hrm & _).
    destruct (Server.readyState w) eqn:Hr; intros [= <-]; try done;
      apply (hub_ok_close st _ ws w w'); try done; unfold Server.is_live; by rewrite Hr.
  - intros [= <-].
    destruct (rendezvous_register_same_hub cfg st req raw now) as (Hr & Hs & Ha & _).
    by apply hub_ok_same.
  - intros [= <-].
    destruct (rendezvous_discover_same_hub st req now) as (Hr & Hs & Ha & _).
    by apply hub_ok_same.
  - intros [= <-]. by apply hub_ok_same.
Qed.

(** X28: in every run, whatever the tokens presented, no room is empty,
    no room lists a socket twice, the members of a room are live sockets
    that joined under its key, and every live socket is a member of its
    room. *)
Theorem hub_ok_every_run (evs : list Server.event) (st st' : Server.state) :
  Server.run cfg st evs = Some st' →
  (hub_ok st → hub_ok st')
  ∧ (st = Server.initial → hub_ok st').
Proof.
  intros Hrun.
  assert (Hinv : hub_ok st → hub_ok st').
  { revert st Hrun. induction evs as [|ev evs IH]; intros st; simpl.
    - by intros [= <-].
    - destruct (Server.step cfg st ev) as [st1|] eqn:Hstep; [|done]. simpl.
      intros Hrun Hhub. apply (IH _ Hrun). by apply (hub_ok_step st _ ev). }
  split; [done|]. intros ->. apply Hinv. apply initial_inv.
Qed.

End HubEveryRun.

(** ** Frames and bodies that are no objects *)

Section NoObjects.
Context `{Runtime}.
Variable cfg : Server.config.


(** X30: [POST /rendezvous/register] with a valid token.  An empty body
    stands for the empty object: the peer is registered under the peer id
    [undefined] in the room ['public'] of the namespace ['global'], with no
    address, empty metadata and 60 seconds to live, and the answer is 200
    with that record.  A body that is no JSON text, or the JSON literal
    [null], is answered 400 and changes nothing. *)
Theorem register_route_bodies (st : Server.state) (req : Server.request)
    (raw : string) (now : Z) :
  Server.validateToken cfg (Server.parseAuthToken req) = true →
  (raw = ""%string →
   ∃ st' r roomMap,
     Server.rendezvous_register cfg st req raw now = (st', Server.Ok_record r)
     ∧ Rendezvous.peerId r = None
     ∧ Rendezvous.namespace r = JStr "global"
     ∧ Rendezvous.room r = JStr "public"
     ∧ Rendezvous.addresses r = JArr []
     ∧ Rendezvous.metadata r = JObj ∅
     ∧ Rendezvous.seenAt r = now
     ∧ Rendezvous.expiresAt r = Num (now + 60000)
     ∧ Server.rendezvous st' !! "global::public"%string = Some roomMap
     ∧ map_get None roomMap = Some r
     ∧ same_hub st st')
  ∧ (raw ≠ ""%string → JSON_parse raw = None ∨ JSON_parse raw = Some JNull →
     Server.rendezvous_register cfg st req raw now = (st, Server.Bad_request)).
Proof.
  intros Hvalid. unfold Server.rendezvous_register. rewrite Hvalid. cbn [negb].
  split.
  - intros ->. unfold Server.parseJsonBody. simpl.
    unfold Server.register_body, Server.ttlMs_of, Rendezvous.register. simpl.
    rewrite lookup_empty. simpl.
    eexists _, _, _. split; [reflexivity|]. simpl.
    repeat (split; [done|]).
    split; [by rewrite lookup_insert_eq|].
    split; [by apply map_get_set_eq|]. by repeat split.
  - intros Hne Hbad. unfold Server.parseJsonBody.
    destruct (String.eqb_spec raw "") as [->|_]; [done|].
    by destruct Hbad as [-> | ->].
Qed.

End NoObjects.

(* ===================================================================== *)
(** * The theorems at concrete inputs                                      *)
(* ===================================================================== *)

(** With the digest of the demo runtime for [s3cret] configured, the empty
    token is refused and [s3cret] is accepted. *)
Lemma validateToken_iff_witness :
  let cfg := {| Server.SHARED_TOKEN_HASH := "h:s3cret";
                Server.MAX_MESSAGES_PER_MINUTE := Num 300;
                Server.MAX_CONNECTIONS_PER_IP := Num 12 |} in
  Server.validateToken (H := demo_runtime) cfg "" = false
  ∧ Server.validateToken (H := demo_runtime) cfg "s3cret" = true
  ∧ Server.validateToken (H := demo_runtime) cfg "wrong" = false.
Proof.
  intros cfg. split; [|split].
  - apply (proj1 (proj2 (validateToken_iff (H := demo_runtime) cfg ""))). by vm_compute.
  - apply (proj1 (validateToken_iff (H := demo_runtime) cfg "s3cret")). right.
    by vm_compute.
  - by vm_compute.
Defined.

(** In [three_sessions], a fan-out from the peer id [A] reaches socket 2
    only: sockets 0 and 1 carry the sender's id. *)
Lemma relayToRoom_excludes_sender_witness :
  Server.relayToRoom (H := demo_runtime) three_sessions "n" "r" "A" JNull = [(2%nat, "{}"%string)]
  ∧ (0%nat, "{}"%string) ∉ Server.relayToRoom (H := demo_runtime) three_sessions "n" "r" "A" JNull.
Proof.
  split; [by vm_compute|].
  eapply (proj2 (proj2 (relayToRoom_excludes_sender (H := demo_runtime)
                          three_sessions "n" "r" "A" JNull)) 0%nat);
    by vm_compute.
Defined.


(** In [three_sessions], sockets 0 and 1 both carry the peer id [A]: a
    relayed frame from socket 0 produces no frame for socket 0 or 1. *)
Lemma duplicate_peerId_both_skipped_witness :
  Server.ws_peerId <$> (Server.sockets three_sessions !! 0%nat) = Some "A"%string
  ∧ Server.ws_peerId <$> (Server.sockets three_sessions !! 1%nat) = Some "A"%string
  ∧ Server.rooms three_sessions !! "n::r"%string = Some [0; 1; 2]%nat
  ∧ ∃ st' out,
      Server.on_message (H := demo_runtime) Server.default_config three_sessions 0 "offer" 10 11
      = Server.Done st' out
      ∧ ∀ text, ((0%nat, text) ∉ out) ∧ ((1%nat, text) ∉ out).
Proof.
  split; [by vm_compute|]. split; [by vm_compute|]. split; [by vm_compute|].
  eapply (duplicate_peerId_both_skipped (H := demo_runtime) Server.default_config
            three_sessions _ 0 1 0 _ _ _ "offer" _ 10 11);
    [vm_compute; reflexivity | vm_compute; reflexivity | by vm_compute | by left
    | vm_compute; reflexivity | vm_compute; reflexivity | vm_compute; reflexivity
    | by vm_compute].
Defined.

(** With the default limit of 300, after 300 messages of one address in a
    window the next one is refused, and after 299 it is not. *)
Lemma message_rate_limit_witness :
  (Server.allowMessage Server.default_config
     (allowMessage_run Server.default_config Server.initial
        (replicate 300 ("10.0.0.1"%string, 0))) "10.0.0.1" 1).1 = false
  ∧ (Server.allowMessage Server.default_config
       (allowMessage_run Server.default_config Server.initial
          (replicate 299 ("10.0.0.1"%string, 0))) "10.0.0.1" 1).1 ≠ false.
Proof.
  split.
  - apply (proj1 (message_rate_limit (H := demo_runtime) Server.default_config)
             Server.initial (replicate 300 ("10.0.0.1"%string, 0)) "10.0.0.1" 1);
      by vm_compute.
  - intros Hrej.
    apply (proj1 (message_rate_limit (H := demo_runtime) Server.default_config)
             Server.initial (replicate 299 ("10.0.0.1"%string, 0)) "10.0.0.1" 1)
      in Hrej; [|by vm_compute].
    by vm_compute in Hrej.
Defined.

(** A handshake and a POST with [ttlMs: 50]: both records expire after they
    were seen. *)
Lemma register_expiry_witness :
  let R := runtime_reading (JObj (<["ttlMs" := JNum 50]> (<["peerId" := JStr "p"]> ∅))) in
  let evs := [Server.Upgrade (signal_request "A") 0 "" 1 2;
              Server.PostRegister register_request "body" 1000] in
  ∃ st,
    Server.run (H := R) Server.default_config Server.initial evs = Some st
    ∧ all_records expires_after_seen (Server.rendezvous st).
Proof.
  intros R evs.
  destruct (Server.run (H := R) Server.default_config Server.initial evs)
    as [st|] eqn:Hrun; [|by vm_compute in Hrun].
  exists st. split; [done|].
  apply (proj2 (proj2 (proj2 (register_expiry (H := R) Server.default_config)))
           evs st Hrun).
  apply Forall_cons. split.
  { intros ttl now [-> _]. left. exists 60000. split; [done|lia]. }
  apply Forall_cons. split; [|by apply Forall_nil].
  intros ttl now (_ & body & Hbody & Httl). vm_compute in Hbody.
  injection Hbody as <-. vm_compute in Httl. injection Httl as <-.
  left. exists 50. split; [done|lia].
Defined.

(** A registry with one record that expires at 1500, pruned at 2000. *)
Lemma pruneExpired_spec_witness :
  let reg := <["n::r"%string :=
               [(Some (JStr "p"),
                 {| Rendezvous.peerId := Some (JStr "p"); Rendezvous.namespace := JStr "n";
                    Rendezvous.room := JStr "r"; Rendezvous.addresses := JArr [];
                    Rendezvous.metadata := JObj ∅; Rendezvous.seenAt := 1000;
                    Rendezvous.expiresAt := Num 1500 |})]]> Rendezvous.empty in
  Rendezvous.pruneExpired reg 2000 !! "n::r"%string ≠ Some []
  ∧ Rendezvous.pruneExpired reg 2000 !! "n::r"%string = None.
Proof.
  intros reg. split; [|by vm_compute].
  apply (proj2 (proj2 (pruneExpired_spec reg 2000))).
Defined.

(** In the empty registry: [p] registers, is discovered once with limit
    [Infinity], and is gone after [removePeer]. *)
Lemma register_discover_removePeer_witness :
  registry_ok Rendezvous.empty
  ∧ ∃ reg1 r reg2 found reg3,
      Rendezvous.register (H := demo_runtime) Rendezvous.empty (JStr "n") (JStr "r")
        (Some (JStr "p")) None None None 1000 = Some (reg1, r)
      ∧ Rendezvous.discover (H := demo_runtime) reg1 (JStr "n") (JStr "r")
          (Some PosInf) 2000 = Some (reg2, found)
      ∧ count_peer "p" found = 1%nat
      ∧ Rendezvous.removePeer (H := demo_runtime) reg1 (JStr "n") (JStr "r")
          (Some (JStr "p")) = Some (reg3, true).
Proof.
  split; [apply map_Forall_empty|].
  destruct (register_discover_removePeer (H := demo_runtime) Rendezvous.empty
              "n" "r" "p" None None None 1000 (map_Forall_empty _))
    as [(reg1 & r & roomMap & Hreg & _ & _ & _ & _ & _ & Hdisc & reg3 & Hrm & _) _].
  assert (Hexp : Rendezvous.expired 2000 r = false).
  { vm_compute in Hreg. by injection Hreg as <- <-. }
  destruct (Hdisc (Some PosInf) 2000 Hexp) as (reg2 & found & Hfound & _ & Hone).
  exists reg1, r, reg2, found, reg3.
  split; [exact Hreg|]. split; [exact Hfound|]. split; [by apply Hone, I | exact Hrm].
Defined.

(** A POST whose body has [ttlMs: 0] stores a record that expires 60 000 ms
    after it was seen. *)
Lemma register_route_ttl_witness :
  let body := JObj (<["ttlMs" := JNum 0]> (<["peerId" := JStr "p"]> ∅)) in
  ∃ st r,
    Server.rendezvous_register (H := runtime_reading body) Server.default_config
      Server.initial register_request "body" 1000 = (st, Server.Ok_record r)
    ∧ Rendezvous.expiresAt r = Num (1000 + 60000).
Proof.
  intros body.
  destruct (Server.rendezvous_register (H := runtime_reading body) Server.default_config
              Server.initial register_request "body" 1000) as [st [r| | |]] eqn:Hroute;
    try by vm_compute in Hroute.
  exists st, r. split; [done|].
  assert (Hbody : Server.parseJsonBody (H := runtime_reading body) "body" = Some body)
    by (by vm_compute).
  destruct (register_route_ttl (H := runtime_reading body) Server.default_config
              Server.initial st register_request "body" body 1000 r Hbody Hroute)
    as (_ & _ & _ & Hfalsy & _).
  apply Hfalsy. do 3 right. by left.
Defined.

(** The three handshakes of [three_sessions] present no token to a server
    without digest: the counters agree in the state they reach. *)
Lemma counters_agree_without_auth_refusals_witness :
  let evs := [Server.Upgrade (signal_request "A") 0 "" 1 2;
              Server.Upgrade (signal_request "A") 0 "" 3 4;
              Server.Upgrade (signal_request "B") 0 "" 5 6] in
  Server.run (H := demo_runtime) Server.default_config Server.initial evs
  = Some three_sessions
  ∧ hub_ok three_sessions ∧ counters_agree three_sessions.
Proof.
  intros evs.
  assert (Hrun : Server.run (H := demo_runtime) Server.default_config Server.initial evs
                 = Some three_sessions) by (by vm_compute).
  split; [exact Hrun|].
  apply (counters_agree_without_auth_refusals (H := demo_runtime)
           Server.default_config evs three_sessions); [| |exact Hrun].
  - repeat (apply Forall_cons; split; [by vm_compute|]). by apply Forall_nil.
  - repeat (apply Forall_cons; split; [by vm_compute|]). by apply Forall_nil.
Defined.

(** The registry of [three_sessions] is well formed. *)
Lemma registry_ok_reachable_witness : registry_ok (Server.rendezvous three_sessions).
Proof.
  apply (registry_ok_reachable (H := demo_runtime) Server.default_config
           [Server.Upgrade (signal_request "A") 0 "" 1 2;
            Server.Upgrade (signal_request "A") 0 "" 3 4;
            Server.Upgrade (signal_request "B") 0 "" 5 6]).
  by vm_compute.
Defined.

(** With the default limit of 12, the thirteenth handshake of one address
    is refused with 429; with the limit 12.5 it is refused as well, since
    13 exceeds 12.5; and a first handshake that the library answers with
    400 leaves the counter of its address at 1 with no socket in the
    heap. *)
Lemma handshake_outcomes_witness :
  let evs := replicate 12 (Server.Upgrade (signal_request "A") 0 "" 1 2) in
  let cfg := {| Server.SHARED_TOKEN_HASH := "";
                Server.MAX_MESSAGES_PER_MINUTE := Num 300;
                Server.MAX_CONNECTIONS_PER_IP := Frac 12 1 |} in
  (∃ st,
     Server.run (H := demo_runtime) Server.default_config Server.initial evs = Some st
     ∧ (Server.on_upgrade (H := demo_runtime) Server.default_config st
          (signal_request "A") 0 "" 1 2).2 = Server.Refused 429)
  ∧ (∃ st,
       Server.run (H := demo_runtime) cfg Server.initial evs = Some st
       ∧ Server.connectionsByIp st !! "10.0.0.1"%string = Some 12
       ∧ (Server.on_upgrade (H := demo_runtime) cfg st
            (signal_request "A") 0 "" 1 2).2 = Server.Refused 429)
  ∧ (∃ st,
       Server.on_upgrade (H := demo_runtime) Server.default_config Server.initial
         (keyless_request "A") 0 "" 1 2 = (st, Server.Refused 400)
       ∧ Server.connectionsByIp st !! "10.0.0.1"%string = Some 1
       ∧ Server.sockets st = ∅
       ∧ live_at st "10.0.0.1" = 0).
Proof.
  intros evs cfg. split; [|split].
  - destruct (Server.run (H := demo_runtime) Server.default_config Server.initial evs)
      as [st|] eqn:Hrun; [|by vm_compute in Hrun].
    exists st. split; [done|].
    pose proof (proj1 (handshake_outcomes (H := demo_runtime) Server.default_config st
                         (signal_request "A") 0 "" 1 2 eq_refl)) as Hout.
    cbv zeta in Hout.
    vm_compute in Hrun. injection Hrun as <-.
    destruct (Server.on_upgrade (H := demo_runtime) Server.default_config _
                (signal_request "A") 0 "" 1 2).2 as [code| |ws out].
    + destruct Hout as [[-> _]|[(_ & Hfull & _)|(Hfull & _)]]; [done|..];
        by vm_compute in Hfull.
    + destruct Hout as (Hfull & _). by vm_compute in Hfull.
    + destruct Hout as (Hfull & _). by vm_compute in Hfull.
  - destruct (Server.run (H := demo_runtime) cfg Server.initial evs)
      as [st|] eqn:Hrun; [|by vm_compute in Hrun].
    exists st.
    pose proof (proj1 (handshake_outcomes (H := demo_runtime) cfg st
                         (signal_request "A") 0 "" 1 2 eq_refl)) as Hout.
    cbv zeta in Hout.
    vm_compute in Hrun. injection Hrun as <-.
    split; [done|]. split; [by vm_compute|].
    destruct (Server.on_upgrade (H := demo_runtime) cfg _
                (signal_request "A") 0 "" 1 2).2 as [code| |ws out].
    + destruct Hout as [[-> _]|[(_ & Hfull & _)|(Hfull & _)]]; [done|..];
        by vm_compute in Hfull.
    + destruct Hout as (Hfull & _). by vm_compute in Hfull.
    + destruct Hout as (Hfull & _). by vm_compute in Hfull.
  - destruct (Server.on_upgrade (H := demo_runtime) Server.default_config Server.initial
                (keyless_request "A") 0 "" 1 2) as [st res] eqn:Hup.
    pose proof (handshake_outcomes (H := demo_runtime) Server.default_config
                  Server.initial (keyless_request "A") 0 "" 1 2 eq_refl)
      as (_ & _ & _ & _ & _ & _ & _ & _ & Habort).
    cbv zeta in Habort. rewrite Hup in Habort.
    destruct (Habort eq_refl eq_refl ltac:(done)) as (Hconn & Hsockets & _).
    cbn [fst] in Hconn, Hsockets.
    exists st. split; [|split; [|split]].
    + vm_compute in Hup. by injection Hup as <- <-.
    + rewrite Hconn. by vm_compute.
    + by rewrite Hsockets.
    + unfold live_at. rewrite Hsockets. by vm_compute.
Defined.

(** ** The further theorems at concrete inputs *)

Section Runs.
Context `{Runtime}.
Variable cfg : Server.config.

Lemma hub_ok_run (evs : list Server.event) (st st' : Server.state) :
  Server.run cfg st evs = Some st' → hub_ok st → hub_ok st'.
Proof.
  revert st. induction evs as [|ev evs IH]; intros st; simpl.
  - by intros [= <-].
  - destruct (Server.step cfg st ev) as [st1|] eqn:Hstep; [|done]. simpl.
    intros Hrun Hhub. apply (IH _ Hrun). by apply (hub_ok_step cfg st _ ev).
Qed.

Lemma registry_ok_run (evs : list Server.event) (st st' : Server.state) :
  Server.run cfg st evs = Some st' →
  registry_ok (Server.rendezvous st) → registry_ok (Server.rendezvous st').
Proof.
  revert st. induction evs as [|ev evs IH]; intros st; simpl.
  - by intros [= <-].
  - destruct (Server.step cfg st ev) as [st1|] eqn:Hstep; [|done]. simpl.
    intros Hrun Hok. apply (IH _ Hrun).
    eapply registry_op_ok; [exact (step_registry_op cfg _ _ _ Hstep)|done].
Qed.
End Runs.

Lemma three_sessions_run :
  Server.run (H := demo_runtime) Server.default_config Server.initial
    [Server.Upgrade (signal_request "A") 0 "" 1 2;
     Server.Upgrade (signal_request "A") 0 "" 3 4;
     Server.Upgrade (signal_request "B") 0 "" 5 6]
  = Some three_sessions.
Proof. by vm_compute. Qed.

Lemma three_sessions_hub : hub_ok three_sessions.
Proof.
  apply (hub_ok_run (H := demo_runtime) _ _ _ _ three_sessions_run), initial_inv.
Qed.

Lemma three_sessions_registry : registry_ok (Server.rendezvous three_sessions).
Proof.
  apply (registry_ok_run (H := demo_runtime) _ _ _ _ three_sessions_run).
  apply map_Forall_empty.
Qed.

Lemma one_peer_registry_ok : registry_ok one_peer_registry.
Proof.
  apply map_Forall_insert; [done|]. split; [|apply map_Forall_empty].
  split; [done|]. split; [done|]. by repeat constructor.
Qed.

Lemma pruneExpired_absorbs_witness :
  1000 ≤ 2000
  ∧ Rendezvous.pruneExpired (Rendezvous.pruneExpired one_peer_registry 1000) 2000
    = Rendezvous.pruneExpired one_peer_registry 2000.
Proof.
  assert (Hle : 1000 ≤ 2000) by lia.
  split; [exact Hle|]. exact (pruneExpired_absorbs one_peer_registry 1000 2000 Hle).
Defined.

Lemma register_removePeer_round_trip_witness :
  registry_ok one_peer_registry
  ∧ Rendezvous.removePeer (H := demo_runtime) one_peer_registry (JStr "n") (JStr "r")
      (Some (JStr "p")) = Some (one_peer_registry, false)
  ∧ ∃ reg1 r,
      Rendezvous.register (H := demo_runtime) one_peer_registry (JStr "n") (JStr "r")
        (Some (JStr "p")) None None None 2000 = Some (reg1, r)
      ∧ Rendezvous.removePeer (H := demo_runtime) reg1 (JStr "n") (JStr "r")
          (Some (JStr "p")) = Some (one_peer_registry, true).
Proof.
  split; [exact one_peer_registry_ok|].
  destruct (register_removePeer_round_trip (H := demo_runtime) one_peer_registry
              "n" "r" "p" None None None 2000 one_peer_registry_ok)
    as [Hnone (reg1 & r & Hreg & _ & Hback)].
  { intros roomMap Hroom. vm_compute in Hroom. injection Hroom as <-. reflexivity. }
  split; [exact Hnone|]. by exists reg1, r.
Defined.

Lemma register_frame_witness :
  ∃ reg1 r roomMap1,
    Rendezvous.register (H := demo_runtime) one_peer_registry (JStr "n") (JStr "r")
      (Some (JStr "p")) None None None 2000 = Some (reg1, r)
    ∧ reg1 !! "n::r"%string = Some roomMap1
    ∧ roomMap1.*1 = [Some (JStr "q"); Some (JStr "p")]
    ∧ map_get (Some (JStr "q")) roomMap1
      = map_get (Some (JStr "q")) (default [] (one_peer_registry !! "n::r"%string)).
Proof.
  destruct (Rendezvous.register (H := demo_runtime) one_peer_registry (JStr "n") (JStr "r")
              (Some (JStr "p")) None None None 2000) as [[reg1 r]|] eqn:Hreg;
    [|by vm_compute in Hreg].
  destruct (register_frame (H := demo_runtime) _ _ _ _ _ _ _ _ _ _ Hreg)
    as (key & roomMap1 & Hkey & Hroom & _ & Hothers & _ & Hkeys).
  vm_compute in Hkey. injection Hkey as <-.
  exists reg1, r, roomMap1. split; [done|]. split; [exact Hroom|].
  split; [exact Hkeys|]. by apply Hothers.
Defined.

Lemma roomKey_injective_witness :
  colon_free "a"
  ∧ (Server.roomKey "a" "r" = Server.roomKey "a" "r" → "a" = "a" ∧ "r" = "r")
  ∧ Server.roomKey ("a" +:+ "::" +:+ "b") "c" = Server.roomKey "a" ("b" +:+ "::" +:+ "c").
Proof.
  assert (Ha : colon_free "a") by (by repeat constructor).
  destruct (roomKey_injective (H := demo_runtime) "a" "a" "r" "r") as (Hinj & _ & _ & _).
  destruct (roomKey_injective (H := demo_runtime) "a" "b" "c" "c") as (_ & _ & Hcol & _).
  split; [exact Ha|]. split; [exact (Hinj Ha Ha)|exact Hcol].
Defined.

Lemma heartbeat_acknowledged_witness :
  ∃ st' (ack : gmap string json),
    Server.on_message (H := demo_runtime) Server.default_config three_sessions 2
      "heartbeat" 10 11 = Server.Done st' [(2%nat, "{}"%string)]
    ∧ ack !! "type" = Some (JStr "heartbeat-ack")
    ∧ Server.wsMessagesTotal (Server.metrics st') = 1
    ∧ same_hub three_sessions st'.
Proof.
  pose proof (heartbeat_acknowledged (H := demo_runtime) Server.default_config
                three_sessions) as Hhb.
  edestruct Hhb with (ws := 2%nat) (raw := "heartbeat"%string) (t_rate := 10) (t_stamp := 11)
    as (st' & ack & Hmsg & Htype & _ & _ & Hcount & _ & Hhub & _);
    [vm_compute; reflexivity | vm_compute; reflexivity | vm_compute; reflexivity
    | by vm_compute |].
  exists st', ack. split; [exact Hmsg|]. split; [exact Htype|].
  split; [exact Hcount|exact Hhub].
Defined.

Lemma invalid_json_answered_witness :
  ∃ st',
    Server.on_message (H := runtime_parsing (λ _, None)) Server.default_config
      three_sessions 2 "{" 10 11 = Server.Done st' [(2%nat, "{}"%string)]
    ∧ Server.wsMessagesTotal (Server.metrics st') = 1
    ∧ same_hub three_sessions st'.
Proof.
  pose proof (invalid_json_answered (H := runtime_parsing (λ _, None))
                Server.default_config three_sessions) as Hbad.
  edestruct Hbad with (ws := 2%nat) (raw := "{"%string) (t_rate := 10) (t_stamp := 11)
    as (st' & Hmsg & _ & _ & _ & Hcount & _ & Hhub & _);
    [vm_compute; reflexivity | vm_compute; reflexivity | vm_compute; reflexivity |].
  exists st'. split; [exact Hmsg|]. split; [exact Hcount|exact Hhub].
Defined.

Lemma null_frame_throws_witness :
  ∃ st',
    Server.on_message (H := runtime_reading JNull) Server.default_config
      three_sessions 2 "null" 10 11 = Server.Thrown st' []
    ∧ Server.step (H := runtime_reading JNull) Server.default_config three_sessions
        (Server.Message 2 "null" 10 11) = None.
Proof.
  pose proof (null_frame_throws (H := runtime_reading JNull)
                Server.default_config three_sessions) as Hnull.
  edestruct Hnull with (ws := 2%nat) (raw := "null"%string) (t_rate := 10) (t_stamp := 11)
    as (st' & Hmsg & _ & Hstep);
    [vm_compute; reflexivity | vm_compute; reflexivity | vm_compute; reflexivity |].
  exists st'. split; [exact Hmsg|]. apply Hstep. by vm_compute.
Defined.

Lemma telemetry_tallied_witness :
  ∃ st',
    Server.on_message (H := demo_runtime) Server.default_config three_sessions 2
      "telemetry" 10 11 = Server.Done st' []
    ∧ tally (Some (JStr "unknown")) (Server.iceState (Server.metrics st')) = 1
    ∧ Server.relayUsageTotal (Server.metrics st') = 0.
Proof.
  pose proof (telemetry_tallied (H := demo_runtime) Server.default_config
                three_sessions) as Htel.
  edestruct Htel with (ws := 2%nat) (raw := "telemetry"%string) (t_rate := 10) (t_stamp := 11)
    as (st' & Hmsg & _ & Hice & _ & Hrelay & _);
    [vm_compute; reflexivity | vm_compute; reflexivity | vm_compute; reflexivity
    | by vm_compute |].
  exists st'. split; [exact Hmsg|].
  split; [by rewrite Hice|exact Hrelay].
Defined.

Lemma parseAuthToken_sources_witness :
  Server.parseAuthToken (H := demo_runtime) bearer_request = "abc"%string
  ∧ Server.parseAuthToken (H := demo_runtime) (signal_request "A") = ""%string.
Proof.
  split.
  - exact (proj1 (parseAuthToken_sources (H := demo_runtime) bearer_request) "abc" eq_refl).
  - exact (proj1 (proj2 (parseAuthToken_sources (H := demo_runtime) (signal_request "A")))
             eq_refl).
Defined.

Lemma ipOf_first_hop_witness :
  comma_free "203.0.113.7"
  ∧ Server.ipOf (H := demo_runtime) bearer_request = "203.0.113.7"%string
  ∧ Server.ipOf (H := demo_runtime) (signal_request "A") = "10.0.0.1"%string.
Proof.
  assert (Hfree : comma_free "203.0.113.7") by (by repeat constructor).
  split; [exact Hfree|]. split.
  - exact (proj1 (ipOf_first_hop (H := demo_runtime) bearer_request)
             "203.0.113.7" " 10.0.0.9" eq_refl Hfree).
  - exact (proj2 (proj2 (ipOf_first_hop (H := demo_runtime) (signal_request "A")))
             (or_introl eq_refl)).
Defined.

Lemma connection_limit_respected_witness :
  Server.run (H := demo_runtime) guarded_config Server.initial
    [Server.Upgrade (signal_request "A") 0 "" 1 2] = Some refused_once
  ∧ limit_respected guarded_config refused_once
  ∧ 0 ≤ live_at refused_once "10.0.0.1" ≤ Z.max 0 12.
Proof.
  assert (Hrun : Server.run (H := demo_runtime) guarded_config Server.initial
                   [Server.Upgrade (signal_request "A") 0 "" 1 2] = Some refused_once)
    by (by vm_compute).
  destruct (connection_limit_respected (H := demo_runtime) guarded_config _ _ Hrun)
    as [Hinv Hmax].
  split; [exact Hrun|]. split; [exact Hinv|]. exact (Hmax 12 "10.0.0.1"%string eq_refl).
Defined.

Lemma counters_monotone_witness :
  Server.run (H := demo_runtime) Server.default_config Server.initial
    [Server.Upgrade (signal_request "A") 0 "" 1 2;
     Server.Upgrade (signal_request "A") 0 "" 3 4;
     Server.Upgrade (signal_request "B") 0 "" 5 6] = Some three_sessions
  ∧ totals_le (Server.metrics Server.initial) (Server.metrics three_sessions)
  ∧ gauge_ok (Server.metrics three_sessions).
Proof.
  destruct (counters_monotone (H := demo_runtime) Server.default_config _ _ _
              three_sessions_run) as (Hle & _ & Hgauge).
  split; [exact three_sessions_run|]. split; [exact Hle|]. exact (Hgauge eq_refl).
Defined.

Lemma message_buckets_bounded_witness :
  let cfg := {| Server.SHARED_TOKEN_HASH := "";
                Server.MAX_MESSAGES_PER_MINUTE := Frac 2 1;
                Server.MAX_CONNECTIONS_PER_IP := Num 12 |} in
  let evs := [Server.Upgrade (signal_request "A") 0 "" 1 2;
              Server.Message 0 "offer" 10 11; Server.Message 0 "offer" 12 13;
              Server.Message 0 "offer" 14 15; Server.Message 0 "offer" 16 17] in
  ∃ st,
    Server.run (H := demo_runtime) cfg Server.initial evs = Some st
    ∧ (Server.count <$> Server.rateLimitByIp st !! "10.0.0.1"%string) = Some 3
    ∧ Server.wsRateLimitedTotal (Server.metrics st) = 1
    ∧ ∀ ip b, Server.rateLimitByIp st !! ip = Some b → 0 ≤ Server.count b ≤ 3.
Proof.
  intros cfg evs.
  destruct (Server.run (H := demo_runtime) cfg Server.initial evs)
    as [st|] eqn:Hrun; [|by vm_compute in Hrun].
  destruct (message_buckets_bounded (H := demo_runtime) cfg _ _ _ Hrun)
    as [_ Hbound].
  exists st. split; [done|]. split; [|split].
  - vm_compute in Hrun. injection Hrun as <-. by vm_compute.
  - vm_compute in Hrun. injection Hrun as <-. by vm_compute.
  - intros ip b Hb. destruct (Hbound eq_refl ip b Hb) as (Hnn & _ & _ & _ & Hhalf).
    split; [done|]. by apply Hhalf.
Defined.


Lemma close_removes_session_witness :
  ∃ st',
    Server.step (H := demo_runtime) Server.default_config three_sessions (Server.Close 0)
    = Some st'
    ∧ Server.rooms st' !! "n::r"%string = Some [1; 2]%nat
    ∧ ∀ text, (0%nat, text) ∉ Server.relayToRoom (H := demo_runtime) st' "n" "r" "B" JNull.
Proof.
  pose proof (close_removes_session (H := demo_runtime) Server.default_config
                three_sessions 0) as Hclose.
  edestruct Hclose as (st' & w' & Hstep & _ & _ & _ & Hrelay & _);
    [exact three_sessions_hub | exact three_sessions_registry
    | vm_compute; reflexivity | by vm_compute |].
  exists st'. split; [exact Hstep|]. split.
  - vm_compute in Hstep. injection Hstep as <-. by vm_compute.
  - intros text. apply Hrelay.
Defined.

Lemma join_then_close_restores_witness :
  ∃ st1 ws out st2,
    Server.on_upgrade (H := demo_runtime) Server.default_config three_sessions
      (signal_request "C") 0 "" 7 8 = (st1, Server.Upgraded ws out)
    ∧ Server.step (H := demo_runtime) Server.default_config st1 (Server.Close ws) = Some st2
    ∧ Server.rooms st2 = Server.rooms three_sessions
    ∧ Server.connectionsByIp st2 = Server.connectionsByIp three_sessions
    ∧ Server.rendezvous st2 = Server.rendezvous three_sessions.
Proof.
  destruct (Server.on_upgrade (H := demo_runtime) Server.default_config three_sessions
              (signal_request "C") 0 "" 7 8) as [st1 [code| |ws out]] eqn:Hup;
    [by vm_compute in Hup..|].
  destruct (join_then_close_restores (H := demo_runtime) Server.default_config
              three_sessions st1 (signal_request "C") 0 "" 7 8 ws out three_sessions_hub)
    as (st2 & w & Hw & Hstep & Hrooms & Hconn & _ & _ & Hreg); [| |exact Hup|].
  { intros addr v Hv. vm_compute in Hv.
    destruct (decide (addr = "10.0.0.1"%string)) as [->|Hne].
    - vm_compute in Hv. injection Hv as <-. lia.
    - exfalso. revert Hv. change (Server.connectionsByIp three_sessions !! addr ≠ Some v).
      replace (Server.connectionsByIp three_sessions)
        with (<["10.0.0.1"%string := 3]> (∅ : gmap string Z)) by (by vm_compute).
      by rewrite lookup_insert_ne, lookup_empty. }
  { by vm_compute. }
  exists st1, ws, out, st2. split; [done|]. split; [exact Hstep|].
  split; [exact Hrooms|]. split; [exact Hconn|].
  apply Hreg; [exact three_sessions_registry|].
  intros roomMap Hroom.
  vm_compute in Hup. injection Hup as <- <- <-.
  vm_compute in Hw. injection Hw as <-.
  vm_compute in Hroom. injection Hroom as <-. reflexivity.
Defined.

Lemma session_record_lapses_witness :
  ∃ st1 ws out st2 r,
    Server.on_upgrade (H := demo_runtime) Server.default_config Server.initial
      (signal_request "A") 0 "" 1 2 = (st1, Server.Upgraded ws out)
    ∧ Server.rendezvous st1 !! "n::r"%string = Some [(Some (JStr "A"), r)]
    ∧ Rendezvous.expiresAt r = Num 60001
    ∧ Server.run (H := demo_runtime) Server.default_config st1
        [Server.Message ws "heartbeat" 30000 30001; Server.Message ws "heartbeat" 59000 59001]
      = Some st2
    ∧ Server.rooms st2 !! "n::r"%string = Some [ws]
    ∧ Rendezvous.pruneExpired (Server.rendezvous st2) 60001 !! "n::r"%string = None.
Proof.
  destruct (Server.on_upgrade (H := demo_runtime) Server.default_config Server.initial
              (signal_request "A") 0 "" 1 2) as [st1 [code| |ws out]] eqn:Hup;
    [by vm_compute in Hup..|].
  destruct (session_record_lapses (H := demo_runtime) Server.default_config
              Server.initial st1 (signal_request "A") 0 "" 1 2 ws out
              (map_Forall_empty _) Hup)
    as (w & r & roomMap & Hw & Hroom & Hget & _ & _ & Hexp & Hframes).
  destruct (Server.run (H := demo_runtime) Server.default_config st1
              [Server.Message ws "heartbeat" 30000 30001;
               Server.Message ws "heartbeat" 59000 59001]) as [st2|] eqn:Hrun.
  2:{ vm_compute in Hup. injection Hup as <- <- <-. by vm_compute in Hrun. }
  assert (Hmsgs : Forall is_message
                    [Server.Message ws "heartbeat" 30000 30001;
                     Server.Message ws "heartbeat" 59000 59001])
    by (by repeat constructor).
  destruct (Hframes _ st2 Hmsgs Hrun) as (Hsame & _ & _).
  exists st1, ws, out, st2, r.
  vm_compute in Hup. injection Hup as <- <- <-.
  vm_compute in Hw. injection Hw as <-.
  vm_compute in Hroom. injection Hroom as <-.
  vm_compute in Hget. injection Hget as <-.
  split; [reflexivity|]. split; [reflexivity|]. split; [reflexivity|].
  split; [exact Hrun|]. rewrite Hsame.
  vm_compute in Hrun. injection Hrun as <-.
  split; by vm_compute.
Defined.

Lemma bootstrap_counts_sessions_witness :
  ∃ body,
    Server.on_request (H := demo_runtime) Server.default_config three_sessions "GET"
      (room_request "/bootstrap") "" 0 None
    = (three_sessions, Server.Bootstrap (JObj body))
    ∧ body !! "peers" = Some (JNum 3)
    ∧ body !! "signalingUrl" = Some (JStr "wss://example.com/signal").
Proof.
  destruct (bootstrap_counts_sessions (H := demo_runtime) Server.default_config
              three_sessions (room_request "/bootstrap") "" 0 None
              three_sessions_hub eq_refl)
    as (body & Hreply & _ & _ & Hpeers & Hurl & _).
  exists body. split; [exact Hreply|]. split; [|exact Hurl].
  rewrite Hpeers. by vm_compute.
Defined.

Lemma session_is_discoverable_witness :
  ∃ st1 ws out st2 records r,
    Server.on_upgrade (H := demo_runtime) guarded_config Server.initial
      token_request 0 "" 1 2 = (st1, Server.Upgraded ws out)
    ∧ Server.validateToken (H := demo_runtime) guarded_config
        (Server.parseAuthToken (H := demo_runtime) discover_request) = false
    ∧ Server.on_request (H := demo_runtime) guarded_config st1 "GET"
        discover_request "" 30000 None
      = (st2, Server.Rendezvous_reply (Server.Ok_peers "global" "public" records))
    ∧ r ∈ records
    ∧ Rendezvous.addresses r = JArr [JStr "10.0.0.1"].
Proof.
  destruct (Server.on_upgrade (H := demo_runtime) guarded_config Server.initial
              token_request 0 "" 1 2) as [st1 [code| |ws out]] eqn:Hup;
    [by vm_compute in Hup..|].
  destruct (session_is_discoverable (H := demo_runtime) guarded_config
              Server.initial st1 token_request 0 "" 1 2 ws out discover_request "" 30000 None
              (map_Forall_empty _) Hup eq_refl eq_refl eq_refl eq_refl)
    as (st2 & records & r & Hreply & Hin & _ & Haddr & _); [lia| |].
  { intros roomMap Hroom. vm_compute in Hup. injection Hup as <- <- <-.
    vm_compute in Hroom. injection Hroom as <-. simpl. lia. }
  exists st1, ws, out, st2, records, r.
  split; [done|]. split; [by vm_compute|]. split; [exact Hreply|].
  split; [exact Hin|exact Haddr].
Defined.

Lemma region_carrier_labels_witness :
  colon_free "eu" ∧ colon_free "acme"
  ∧ Server.region_carrier_line (H := demo_runtime) (Some (JStr "eu::acme"), 5)
    = Some ("bs_region_carrier_total{region=" +:+ String Server.quote "eu"
            +:+ String Server.quote ",carrier=" +:+ String Server.quote "acme"
            +:+ String Server.quote "} 5")
  ∧ Server.region_carrier_line (H := demo_runtime) (Some (JStr "eu::acme::x"), 5)
    = Server.region_carrier_line (H := demo_runtime) (Some (JStr "eu::acme"), 5).
Proof.
  assert (Heu : colon_free "eu") by (by repeat constructor).
  assert (Hacme : colon_free "acme") by (by repeat constructor).
  destruct (region_carrier_labels (H := demo_runtime) "eu" "acme" 5 Heu Hacme)
    as [Hline Hlost].
  split; [exact Heu|]. split; [exact Hacme|]. split; [exact Hline|]. exact (Hlost "x"%string).
Defined.

Lemma metrics_text_rendered_witness :
  ∃ st lines,
    Server.run (H := demo_runtime) Server.default_config Server.initial
      [Server.Upgrade (signal_request "A") 0 "" 1 2; Server.Message 0 "telemetry" 10 11]
    = Some st
    ∧ Server.renderMetrics (H := demo_runtime) st
      = Some (Server.join (String Server.line_feed "") lines
              +:+ String Server.line_feed "")
    ∧ length lines = 19%nat
    ∧ lines !! 8%nat = Some "bs_ws_messages_total 1"%string.
Proof.
  destruct (Server.run (H := demo_runtime) Server.default_config Server.initial
              [Server.Upgrade (signal_request "A") 0 "" 1 2;
               Server.Message 0 "telemetry" 10 11]) as [st|] eqn:Hrun;
    [|by vm_compute in Hrun].
  assert (Hst : Server.metrics st
                = {| Server.wsConnectionsTotal := 1; Server.wsActiveConnections := 1;
                     Server.wsMessagesTotal := 1; Server.wsAuthFailuresTotal := 0;
                     Server.wsRateLimitedTotal := 0; Server.relayUsageTotal := 0;
                     Server.iceState := [(Some (JStr "unknown"), 1)];
                     Server.failureReason := []; Server.byRegionCarrier := [] |}).
  { vm_compute in Hrun. by injection Hrun as <-. }
  destruct (metrics_text_rendered (H := demo_runtime) Server.default_config st)
    as (lines & Htext & Hlen & _ & _ & Hmessages & _).
  { rewrite Hst. by repeat constructor. }
  { rewrite Hst. constructor. }
  { rewrite Hst. constructor. }
  exists st, lines. split; [done|]. split; [exact Htext|].
  rewrite Hst in Hlen, Hmessages. split; [exact Hlen|exact Hmessages].
Defined.

Lemma hub_ok_every_run_witness :
  Server.run (H := demo_runtime) guarded_config Server.initial
    [Server.Upgrade (signal_request "A") 0 "" 1 2] = Some refused_once
  ∧ Server.connectionsByIp refused_once !! "10.0.0.1"%string = Some 1
  ∧ hub_ok refused_once.
Proof.
  assert (Hrun : Server.run (H := demo_runtime) guarded_config Server.initial
                   [Server.Upgrade (signal_request "A") 0 "" 1 2] = Some refused_once)
    by (by vm_compute).
  split; [exact Hrun|]. split; [by vm_compute|].
  exact (proj2 (hub_ok_every_run (H := demo_runtime) guarded_config _ _ _ Hrun) eq_refl).
Defined.


Lemma register_route_bodies_witness :
  Server.validateToken (H := demo_runtime) Server.default_config
    (Server.parseAuthToken (H := demo_runtime) register_request) = true
  ∧ ∃ st' r,
      Server.rendezvous_register (H := demo_runtime) Server.default_config
        Server.initial register_request "" 1000 = (st', Server.Ok_record r)
      ∧ Rendezvous.peerId r = None
      ∧ Rendezvous.expiresAt r = Num (1000 + 60000)
      ∧ Server.rendezvous st' !! "global::public"%string = Some [(None, r)].
Proof.
  assert (Hvalid : Server.validateToken (H := demo_runtime) Server.default_config
            (Server.parseAuthToken (H := demo_runtime) register_request) = true)
    by (by vm_compute).
  split; [exact Hvalid|].
  destruct (proj1 (register_route_bodies (H := demo_runtime) Server.default_config
                     Server.initial register_request "" 1000 Hvalid) eq_refl)
    as (st' & r & roomMap & Hreply & Hpeer & _ & _ & _ & _ & _ & Hexp & _).
  exists st', r. split; [exact Hreply|]. split; [exact Hpeer|]. split; [exact Hexp|].
  vm_compute in Hreply. injection Hreply as <- <-. by vm_compute.
Defined.
